(** * PhyChat: the chat controller of [static/js/chat.js]

    A shallow embedding of the class [PhyChatApp]: its conversation store,
    the persistence of the store through [localStorage] and [JSON], the
    keyword resolver [getAIResponse] and the message pipeline [sendMessage];
    and of four classes of the page-interaction layer that the file ends
    with: [ThemeManager], [FormHandler], [FAQAccordion], [TypingEffect].

    Conventions.
    - A JavaScript string is the list of its UTF-16 code units, each an [N].
    - [Date.now()] and [new Date().toISOString()] are inputs of the
      operations that read the clock.
    - The transcript pane [#chat-messages] is kept as the list of the nodes
      appended to it; what is inside a message node and the sidebar are
      left out.  What the two lookups in the whole document find (the
      welcome screen in [addMessage], the typing indicator in
      [hideTypingIndicator]) is an input of the operations that make
      them.
    - The promise that [sendMessage] awaits ends in a [completion];
      [loadConversations], which can throw, returns a [load_result]. *)

From Stdlib Require Import List NArith ZArith Bool Lia Arith.
From Stdlib Require Import Ascii String DecimalString DecimalPos DecimalZ.
Import ListNotations.

Set Implicit Arguments.
Set Warnings "-register-all".

(* ================================================================== *)
(** ** JavaScript strings *)
(* ================================================================== *)

Module JSString.

Local Open Scope N_scope.

Definition code_unit := N.
Definition jsstring := list code_unit.

Definition eq_dec : forall a b : jsstring, {a = b} + {a <> b} :=
  list_eq_dec N.eq_dec.

(** [a === b] on two strings. *)
Definition eqb (a b : jsstring) : bool :=
  if eq_dec a b then true else false.

(** The source file is UTF-8; a literal of the source is turned into its
    code units: one unit for a code point of the basic plane, a surrogate
    pair above it. *)
Fixpoint utf16_of_utf8 (bs : list N) : jsstring :=
  match bs with
  | [] => []
  | b0 :: r0 =>
    if b0 <? 128 then b0 :: utf16_of_utf8 r0
    else
      match r0 with
      | [] => []
      | b1 :: r1 =>
        if b0 <? 224 then ((b0 mod 32) * 64 + b1 mod 64) :: utf16_of_utf8 r1
        else
          match r1 with
          | [] => []
          | b2 :: r2 =>
            if b0 <? 240
            then ((b0 mod 16) * 4096 + (b1 mod 64) * 64 + b2 mod 64)
                   :: utf16_of_utf8 r2
            else
              match r2 with
              | [] => []
              | b3 :: r3 =>
                let cp := (b0 mod 8) * 262144 + (b1 mod 64) * 4096
                          + (b2 mod 64) * 64 + b3 mod 64 - 65536 in
                (55296 + cp / 1024) :: (56320 + cp mod 1024)
                  :: utf16_of_utf8 r3
              end
          end
      end
  end.

Definition units_of_ascii (s : string) : list N :=
  map N_of_ascii (list_ascii_of_string s).

Definition js (s : string) : jsstring := utf16_of_utf8 (units_of_ascii s).

(** [String.prototype.toLowerCase].  The letters [A]..[Z] go to [a]..[z].
    Units outside ASCII are left as they are: their lower-case forms hold
    no ASCII letter other than [k] (from the Kelvin sign) and [i] followed
    by a combining dot (from dotted capital I), so the search for the
    keywords of [getAIResponse], none of which has a [k] or ends in [i],
    is not affected. *)
Definition toLowerCase_unit (c : code_unit) : code_unit :=
  if (65 <=? c) && (c <=? 90) then c + 32 else c.

Definition toLowerCase (s : jsstring) : jsstring := map toLowerCase_unit s.

Fixpoint startsWith (s k : jsstring) {struct k} : bool :=
  match k, s with
  | [], _ => true
  | _ :: _, [] => false
  | x :: k', c :: s' => (c =? x) && startsWith s' k'
  end.

(** [s.includes(k)]: [k] occurs in [s] at some position. *)
Fixpoint includes (s k : jsstring) : bool :=
  startsWith s k ||
  match s with
  | [] => false
  | _ :: s' => includes s' k
  end.

(** [s.substring(0, n)] for a natural [n]. *)
Definition substring0 (n : nat) (s : jsstring) : jsstring := firstn n s.

(** WhiteSpace and LineTerminator code units, as [trim] removes them. *)
Definition isWhiteSpace (c : code_unit) : bool :=
  ((9 <=? c) && (c <=? 13)) || (c =? 32) || (c =? 160) || (c =? 5760)
  || ((8192 <=? c) && (c <=? 8202)) || (c =? 8232) || (c =? 8233)
  || (c =? 8239) || (c =? 8287) || (c =? 12288) || (c =? 65279).

Fixpoint trimStart (s : jsstring) : jsstring :=
  match s with
  | [] => []
  | c :: r => if isWhiteSpace c then trimStart r else s
  end.

Definition trimEnd (s : jsstring) : jsstring := rev (trimStart (rev s)).

Definition trim (s : jsstring) : jsstring := trimEnd (trimStart s).

(** [n.toString()] for an integral number [n] below 10^21 in magnitude,
    which covers every value of [Date.now()]: the decimal digits, with a
    leading minus sign for a negative number. *)
Definition Z_toString (z : Z) : jsstring :=
  units_of_ascii (NilZero.string_of_int (Z.to_int z)).

(** A string is truthy when it is not empty. *)
Definition truthy (s : jsstring) : bool :=
  match s with [] => false | _ :: _ => true end.

End JSString.

Import JSString.

(* ================================================================== *)
(** ** JSON texts: [JSON.stringify] and [JSON.parse] *)
(* ================================================================== *)

Module JSON.

Local Open Scope N_scope.

(** A JSON value.  A number is kept as its literal; an object keeps its
    members in the order of the text. *)
Inductive json : Type :=
| JNull
| JTrue
| JFalse
| JNumber (lit : jsstring)
| JString (s : jsstring)
| JArray (elems : list json)
| JObject (members : list (jsstring * json)).

Inductive token : Type :=
| TLBrace | TRBrace | TLBracket | TRBracket | TColon | TComma
| TString (s : jsstring)
| TNumber (lit : jsstring)
| TTrue | TFalse | TNull.

(** *** Serialisation *)

Definition hexDigit (d : N) : code_unit :=
  if d <? 10 then 48 + d else 87 + d.

(** [\uXXXX], four lower-case hexadecimal digits. *)
Definition unicodeEscape (c : code_unit) : jsstring :=
  [92; 117; hexDigit (c / 4096 mod 16); hexDigit (c / 256 mod 16);
   hexDigit (c / 16 mod 16); hexDigit (c mod 16)].

Definition isLeadingSurrogate (c : code_unit) : bool :=
  (55296 <=? c) && (c <=? 56319).

Definition isTrailingSurrogate (c : code_unit) : bool :=
  (56320 <=? c) && (c <=? 57343).

(** One code unit that is not part of a surrogate pair. *)
Definition quoteUnit (c : code_unit) : jsstring :=
  if c =? 8 then [92; 98]
  else if c =? 9 then [92; 116]
  else if c =? 10 then [92; 110]
  else if c =? 12 then [92; 102]
  else if c =? 13 then [92; 114]
  else if c =? 34 then [92; 34]
  else if c =? 92 then [92; 92]
  else if (c <? 32) || isLeadingSurrogate c || isTrailingSurrogate c
       then unicodeEscape c
  else [c].

(** The body of QuoteJSONString: a surrogate pair is copied, a lone
    surrogate is escaped. *)
Fixpoint quoteBody (s : jsstring) : jsstring :=
  match s with
  | [] => []
  | c :: r =>
    match r with
    | d :: r' =>
      if isLeadingSurrogate c && isTrailingSurrogate d
      then c :: d :: quoteBody r'
      else quoteUnit c ++ quoteBody r
    | [] => quoteUnit c
    end
  end.

Definition quote (s : jsstring) : jsstring := [34] ++ quoteBody s ++ [34].

Definition printToken (t : token) : jsstring :=
  match t with
  | TLBrace => [123]
  | TRBrace => [125]
  | TLBracket => [91]
  | TRBracket => [93]
  | TColon => [58]
  | TComma => [44]
  | TString s => quote s
  | TNumber lit => lit
  | TTrue => [116; 114; 117; 101]
  | TFalse => [102; 97; 108; 115; 101]
  | TNull => [110; 117; 108; 108]
  end.

(** The tokens [JSON.stringify] writes for a value, with no gap. *)
Fixpoint tokens (v : json) : list token :=
  match v with
  | JNull => [TNull]
  | JTrue => [TTrue]
  | JFalse => [TFalse]
  | JNumber lit => [TNumber lit]
  | JString s => [TString s]
  | JArray vs =>
    TLBracket ::
      match vs with
      | [] => []
      | x :: r => tokens x ++ flat_map (fun y => TComma :: tokens y) r
      end ++ [TRBracket]
  | JObject ms =>
    TLBrace ::
      match ms with
      | [] => []
      | m :: r =>
        (TString (fst m) :: TColon :: tokens (snd m))
          ++ flat_map (fun n => TComma :: TString (fst n) :: TColon
                                  :: tokens (snd n)) r
      end ++ [TRBrace]
  end.

Definition printTokens (ts : list token) : jsstring :=
  flat_map printToken ts.

Definition stringify (v : json) : jsstring := printTokens (tokens v).

(** *** The lexer, one code unit at a time *)

Inductive numstate : Type :=
| NMinus | NZero | NInt | NDot | NFrac | NExp | NExpSign | NExpDigits.

Inductive lstate : Type :=
| LStart
| LString (acc : jsstring)
| LEscape (acc : jsstring)
| LHex (acc : jsstring) (k : nat) (v : N)
| LNumber (ns : numstate) (acc : jsstring)
| LWord (rest : jsstring) (t : token).

Definition isDigit (c : code_unit) : bool := (48 <=? c) && (c <=? 57).

Definition hexValue (c : code_unit) : option N :=
  if (48 <=? c) && (c <=? 57) then Some (c - 48)
  else if (97 <=? c) && (c <=? 102) then Some (c - 87)
  else if (65 <=? c) && (c <=? 70) then Some (c - 55)
  else None.

Definition numStep (ns : numstate) (c : code_unit) : option numstate :=
  match ns with
  | NMinus => if c =? 48 then Some NZero
              else if isDigit c then Some NInt else None
  | NZero => if c =? 46 then Some NDot
             else if (c =? 101) || (c =? 69) then Some NExp else None
  | NInt => if isDigit c then Some NInt
            else if c =? 46 then Some NDot
            else if (c =? 101) || (c =? 69) then Some NExp else None
  | NDot => if isDigit c then Some NFrac else None
  | NFrac => if isDigit c then Some NFrac
             else if (c =? 101) || (c =? 69) then Some NExp else None
  | NExp => if (c =? 43) || (c =? 45) then Some NExpSign
            else if isDigit c then Some NExpDigits else None
  | NExpSign => if isDigit c then Some NExpDigits else None
  | NExpDigits => if isDigit c then Some NExpDigits else None
  end.

Definition numFinal (ns : numstate) : bool :=
  match ns with
  | NZero | NInt | NFrac | NExpDigits => true
  | NMinus | NDot | NExp | NExpSign => false
  end.

(** A code unit met between two tokens. *)
Definition lexStart (c : code_unit) : option (lstate * list token) :=
  if (c =? 32) || (c =? 9) || (c =? 10) || (c =? 13) then Some (LStart, [])
  else if c =? 123 then Some (LStart, [TLBrace])
  else if c =? 125 then Some (LStart, [TRBrace])
  else if c =? 91 then Some (LStart, [TLBracket])
  else if c =? 93 then Some (LStart, [TRBracket])
  else if c =? 58 then Some (LStart, [TColon])
  else if c =? 44 then Some (LStart, [TComma])
  else if c =? 34 then Some (LString [], [])
  else if c =? 45 then Some (LNumber NMinus [c], [])
  else if c =? 48 then Some (LNumber NZero [c], [])
  else if isDigit c then Some (LNumber NInt [c], [])
  else if c =? 116 then Some (LWord [114; 117; 101] TTrue, [])
  else if c =? 102 then Some (LWord [97; 108; 115; 101] TFalse, [])
  else if c =? 110 then Some (LWord [117; 108; 108] TNull, [])
  else None.

Definition lexStep (st : lstate) (c : code_unit)
  : option (lstate * list token) :=
  match st with
  | LStart => lexStart c
  | LString acc =>
    if c =? 34 then Some (LStart, [TString (rev acc)])
    else if c =? 92 then Some (LEscape acc, [])
    else if c <? 32 then None
    else Some (LString (c :: acc), [])
  | LEscape acc =>
    if (c =? 34) || (c =? 92) || (c =? 47) then Some (LString (c :: acc), [])
    else if c =? 98 then Some (LString (8 :: acc), [])
    else if c =? 102 then Some (LString (12 :: acc), [])
    else if c =? 110 then Some (LString (10 :: acc), [])
    else if c =? 114 then Some (LString (13 :: acc), [])
    else if c =? 116 then Some (LString (9 :: acc), [])
    else if c =? 117 then Some (LHex acc 0 0, [])
    else None
  | LHex acc k v =>
    match hexValue c with
    | None => None
    | Some d =>
      match k with
      | 3%nat => Some (LString ((v * 16 + d) :: acc), [])
      | _ => Some (LHex acc (S k) (v * 16 + d), [])
      end
    end
  | LNumber ns acc =>
    match numStep ns c with
    | Some ns' => Some (LNumber ns' (c :: acc), [])
    | None =>
      if numFinal ns then
        match lexStart c with
        | Some (st', out) => Some (st', TNumber (rev acc) :: out)
        | None => None
        end
      else None
    end
  | LWord rest t =>
    match rest with
    | [] => None
    | x :: rest' =>
      if c =? x then
        match rest' with
        | [] => Some (LStart, [t])
        | _ :: _ => Some (LWord rest' t, [])
        end
      else None
    end
  end.

(** What is left to emit at the end of the text. *)
Definition lexEnd (st : lstate) : option (list token) :=
  match st with
  | LStart => Some []
  | LNumber ns acc => if numFinal ns then Some [TNumber (rev acc)] else None
  | _ => None
  end.

Definition emit (out : list token) (r : option (list token))
  : option (list token) :=
  match r with
  | None => None
  | Some ts => Some (out ++ ts)
  end.

Fixpoint lex (st : lstate) (text : jsstring) : option (list token) :=
  match text with
  | [] => lexEnd st
  | c :: r =>
    match lexStep st c with
    | None => None
    | Some (st', out) => emit out (lex st' r)
    end
  end.

(** *** The parser, one token at a time *)

(** An enclosing array or object that waits for the value being read. *)
Inductive frame : Type :=
| FArray (done : list json)
| FObject (done : list (jsstring * json)) (key : jsstring).

Inductive pstate : Type :=
| PValue (stk : list frame)
| PArrayOpen (stk : list frame)
| PObjectOpen (stk : list frame)
| PKey (done : list (jsstring * json)) (stk : list frame)
| PColon (done : list (jsstring * json)) (key : jsstring) (stk : list frame)
| PAfter (v : json) (stk : list frame).

(** A token that starts a value. *)
Definition parseValue (stk : list frame) (t : token) : option pstate :=
  match t with
  | TNull => Some (PAfter JNull stk)
  | TTrue => Some (PAfter JTrue stk)
  | TFalse => Some (PAfter JFalse stk)
  | TNumber lit => Some (PAfter (JNumber lit) stk)
  | TString s => Some (PAfter (JString s) stk)
  | TLBracket => Some (PArrayOpen stk)
  | TLBrace => Some (PObjectOpen stk)
  | TRBrace | TRBracket | TColon | TComma => None
  end.

Definition parseStep (st : pstate) (t : token) : option pstate :=
  match st with
  | PValue stk => parseValue stk t
  | PArrayOpen stk =>
    match t with
    | TRBracket => Some (PAfter (JArray []) stk)
    | _ => parseValue (FArray [] :: stk) t
    end
  | PObjectOpen stk =>
    match t with
    | TRBrace => Some (PAfter (JObject []) stk)
    | TString k => Some (PColon [] k stk)
    | _ => None
    end
  | PKey done stk =>
    match t with
    | TString k => Some (PColon done k stk)
    | _ => None
    end
  | PColon done k stk =>
    match t with
    | TColon => Some (PValue (FObject done k :: stk))
    | _ => None
    end
  | PAfter v stk =>
    match stk, t with
    | FArray done :: stk', TComma => Some (PValue (FArray (v :: done) :: stk'))
    | FArray done :: stk', TRBracket =>
      Some (PAfter (JArray (rev (v :: done))) stk')
    | FObject done k :: stk', TComma => Some (PKey ((k, v) :: done) stk')
    | FObject done k :: stk', TRBrace =>
      Some (PAfter (JObject (rev ((k, v) :: done))) stk')
    | _, _ => None
    end
  end.

Fixpoint run (st : pstate) (ts : list token) : option json :=
  match ts with
  | [] => match st with PAfter v [] => Some v | _ => None end
  | t :: r =>
    match parseStep st t with
    | None => None
    | Some st' => run st' r
    end
  end.

(** [JSON.parse(text)]: the value of the text, [None] for the
    [SyntaxError] of a text that is not JSON. *)
Definition parse (text : jsstring) : option json :=
  match lex LStart text with
  | None => None
  | Some ts => run (PValue []) ts
  end.

(** *** Predicates used to state the round trip *)

Definition notNumber (t : token) : Prop :=
  match t with TNumber _ => False | _ => True end.

(** A value with no number in it. *)
Fixpoint numberFree (v : json) : bool :=
  match v with
  | JNumber _ => false
  | JArray vs => forallb numberFree vs
  | JObject ms => forallb (fun m => numberFree (snd m)) ms
  | JNull | JTrue | JFalse | JString _ => true
  end.

(** The parser, in front of the tokens of [v], ends up behind [v]. *)
Definition reads_back (v : json) : Prop :=
  forall stk rest,
    run (PValue stk) (tokens v ++ rest) = run (PAfter v stk) rest.

End JSON.

(* ================================================================== *)
(** ** The data model *)
(* ================================================================== *)

Import JSON.

(** The object literal [{content, type, timestamp}] that
    [saveMessageToConversation] pushes. *)
Record Message : Type := {
  content : jsstring;
  type : jsstring;
  timestamp : jsstring
}.

(** The object literal [{id, title, messages, createdAt}] of
    [createNewConversation]. *)
Record Conversation : Type := {
  id : jsstring;
  title : jsstring;
  messages : list Message;
  createdAt : jsstring
}.

Definition set_messages (ms : list Message) (c : Conversation) :=
  {| id := id c; title := title c; messages := ms; createdAt := createdAt c |}.

Definition set_title (t : jsstring) (c : Conversation) :=
  {| id := id c; title := t; messages := messages c;
     createdAt := createdAt c |}.

(** What [JSON.stringify] sees of the store: the own properties of each
    object, in the order of creation. *)
Definition json_of_message (m : Message) : json :=
  JObject [(js "content", JString (content m));
           (js "type", JString (type m));
           (js "timestamp", JString (timestamp m))].

Definition json_of_conversation (c : Conversation) : json :=
  JObject [(js "id", JString (id c));
           (js "title", JString (title c));
           (js "messages", JArray (map json_of_message (messages c)));
           (js "createdAt", JString (createdAt c))].

Definition json_of_conversations (cs : list Conversation) : json :=
  JArray (map json_of_conversation cs).

Fixpoint traverse {A B : Type} (f : A -> option B) (l : list A)
  : option (list B) :=
  match l with
  | [] => Some []
  | x :: r =>
    match f x, traverse f r with
    | Some y, Some ys => Some (y :: ys)
    | _, _ => None
    end
  end.

(** The parsed values that are such objects: the records as
    [saveConversations] writes them.  Any other value that [JSON.parse]
    returns, a record with other members or with its members in another
    order, say, is outside the typed store: the code keeps such a value
    as it is and goes on with it; the model stops at it. *)
Definition message_of_json (j : json) : option Message :=
  match j with
  | JObject [(k1, JString c); (k2, JString t); (k3, JString ts)] =>
    if eqb k1 (js "content") && eqb k2 (js "type")
       && eqb k3 (js "timestamp")
    then Some {| content := c; type := t; timestamp := ts |}
    else None
  | _ => None
  end.

Definition conversation_of_json (j : json) : option Conversation :=
  match j with
  | JObject [(k1, JString i); (k2, JString t); (k3, JArray ms);
             (k4, JString d)] =>
    if eqb k1 (js "id") && eqb k2 (js "title") && eqb k3 (js "messages")
       && eqb k4 (js "createdAt")
    then
      match traverse message_of_json ms with
      | Some l => Some {| id := i; title := t; messages := l;
                          createdAt := d |}
      | None => None
      end
    else None
  | _ => None
  end.

Definition conversations_of_json (j : json) : option (list Conversation) :=
  match j with
  | JArray cs => traverse conversation_of_json cs
  | _ => None
  end.

(* ================================================================== *)
(** ** The controller *)
(* ================================================================== *)

(** A child of [#chat-messages]: the welcome screen, the [div] that
    [addMessage] builds, recorded by the arguments of the call, or the
    typing indicator. *)
Inductive node : Type :=
| WelcomeScreen
| MessageNode (content : jsstring) (type : jsstring) (isError : bool)
| TypingIndicator.

Record PhyChatApp : Type := {
  conversations : list Conversation;
  currentConversationId : option jsstring;   (* [null] until first load *)
  isProcessing : bool;
  chatInput : jsstring;                      (* [this.chatInput.value] *)
  sendBtn_disabled : bool;                   (* [this.sendBtn.disabled] *)
  chatMessages : list node;                  (* [this.chatMessages] *)
  localStorage : option jsstring  (* the item ['phychat-conversations'] *)
}.

Definition set_conversations (x : list Conversation) (s : PhyChatApp) :=
  {| conversations := x;
     currentConversationId := currentConversationId s;
     isProcessing := isProcessing s; chatInput := chatInput s;
     sendBtn_disabled := sendBtn_disabled s;
     chatMessages := chatMessages s; localStorage := localStorage s |}.

Definition set_currentConversationId (x : option jsstring) (s : PhyChatApp) :=
  {| conversations := conversations s;
     currentConversationId := x;
     isProcessing := isProcessing s; chatInput := chatInput s;
     sendBtn_disabled := sendBtn_disabled s;
     chatMessages := chatMessages s; localStorage := localStorage s |}.

Definition set_isProcessing (x : bool) (s : PhyChatApp) :=
  {| conversations := conversations s;
     currentConversationId := currentConversationId s;
     isProcessing := x; chatInput := chatInput s;
     sendBtn_disabled := sendBtn_disabled s;
     chatMessages := chatMessages s; localStorage := localStorage s |}.

Definition set_chatInput (x : jsstring) (s : PhyChatApp) :=
  {| conversations := conversations s;
     currentConversationId := currentConversationId s;
     isProcessing := isProcessing s; chatInput := x;
     sendBtn_disabled := sendBtn_disabled s;
     chatMessages := chatMessages s; localStorage := localStorage s |}.

Definition set_sendBtn_disabled (x : bool) (s : PhyChatApp) :=
  {| conversations := conversations s;
     currentConversationId := currentConversationId s;
     isProcessing := isProcessing s; chatInput := chatInput s;
     sendBtn_disabled := x;
     chatMessages := chatMessages s; localStorage := localStorage s |}.

Definition set_chatMessages (x : list node) (s : PhyChatApp) :=
  {| conversations := conversations s;
     currentConversationId := currentConversationId s;
     isProcessing := isProcessing s; chatInput := chatInput s;
     sendBtn_disabled := sendBtn_disabled s;
     chatMessages := x; localStorage := localStorage s |}.

Definition set_localStorage (x : option jsstring) (s : PhyChatApp) :=
  {| conversations := conversations s;
     currentConversationId := currentConversationId s;
     isProcessing := isProcessing s; chatInput := chatInput s;
     sendBtn_disabled := sendBtn_disabled s;
     chatMessages := chatMessages s; localStorage := x |}.

Inductive error : Type := SyntaxError | OtherError.

Inductive completion (A : Type) : Type :=
| Normal (a : A)
| Throw (e : error).

Arguments Normal {A} a.
Arguments Throw {A} e.

(** *** Rendering of the transcript *)

(** What a lookup in the whole document finds:
    [document.querySelector('.welcome-screen')] in [addMessage] and
    [document.getElementById('typing-indicator')] in
    [hideTypingIndicator].  The pane is kept as the list of its nodes:
    the elements inside a message, which [addMessage] makes from the text
    of the message through [innerHTML], the titles of the sidebar, which
    [renderConversationList] writes in the same way, and the rest of the
    page are not in the state.  What the lookup finds is therefore an
    input of the operation, as the clock is.  [InPane]: the first element
    of the document that matches, if there is one, is a node of the pane.
    [Elsewhere]: the first element that matches is no node of the pane,
    but one inside a message, in the sidebar or in the page. *)
Inductive lookup : Type := InPane | Elsewhere.

(** [element.remove()] on the first node of the pane that matches. *)
Fixpoint remove_first (p : node -> bool) (l : list node) : list node :=
  match l with
  | [] => []
  | x :: r => if p x then r else x :: remove_first p r
  end.

Definition isWelcomeScreen (n : node) : bool :=
  match n with WelcomeScreen => true | _ => false end.

Definition isTypingIndicator (n : node) : bool :=
  match n with TypingIndicator => true | _ => false end.

Definition updateSendButtonState (s : PhyChatApp) : PhyChatApp :=
  let hasContent := truthy (trim (chatInput s)) in
  set_sendBtn_disabled (negb hasContent || isProcessing s) s.

(** [found.remove()] for the element that the lookup of [p] found: a
    node of the pane goes; any other element is taken from where it is,
    and the nodes of the pane stay. *)
Definition remove_found (found : lookup) (p : node -> bool)
  (l : list node) : list node :=
  match found with
  | InPane => remove_first p l
  | Elsewhere => l
  end.

(** [found] is what the lookup of the welcome screen finds. *)
Definition addMessage (content type : jsstring) (isError : bool)
  (found : lookup) (s : PhyChatApp) : PhyChatApp :=
  set_chatMessages
    (remove_found found isWelcomeScreen (chatMessages s)
       ++ [MessageNode content type isError]) s.

Definition showTypingIndicator (s : PhyChatApp) : PhyChatApp :=
  set_chatMessages (chatMessages s ++ [TypingIndicator]) s.

(** [found] is what the lookup of the id [typing-indicator] finds. *)
Definition hideTypingIndicator (found : lookup) (s : PhyChatApp)
  : PhyChatApp :=
  set_chatMessages (remove_found found isTypingIndicator (chatMessages s)) s.

Definition showWelcomeScreen (s : PhyChatApp) : PhyChatApp :=
  set_chatMessages [WelcomeScreen] s.

(** *** The resolver: [getAIResponse] without its delay *)

Definition newton_response : jsstring := js
"**Newton's Laws of Motion**

1. **First Law (Inertia):** An object at rest stays at rest, and an object in motion stays in motion with the same speed and direction, unless acted upon by an unbalanced force.

2. **Second Law:** The acceleration of an object is directly proportional to the net force acting on it and inversely proportional to its mass.
   `F = ma`

3. **Third Law:** For every action, there is an equal and opposite reaction.

Would you like me to explain any of these laws in more detail or provide some practice problems?".

Definition quantum_response : jsstring := js
"**Quantum Mechanics** is a fundamental theory in physics that describes nature at the smallest scales of energy levels of atoms and subatomic particles.

Key concepts include:
- **Wave-Particle Duality:** Particles can exhibit wave-like behavior
- **Heisenberg Uncertainty Principle:** `Δx · Δp ≥ ℏ/2`
- **Schrödinger's Equation:** Describes how quantum states evolve over time
- **Superposition:** Particles can exist in multiple states simultaneously

Would you like me to elaborate on any of these concepts?".

Definition thermodynamics_response : jsstring := js
"**Thermodynamics** is the branch of physics that deals with heat, work, and temperature.

**The Four Laws:**

0. **Zeroth Law:** If two systems are in thermal equilibrium with a third, they are in equilibrium with each other.

1. **First Law:** Energy cannot be created or destroyed, only transformed.
   `ΔU = Q - W`

2. **Second Law:** Entropy of an isolated system always increases.

3. **Third Law:** As temperature approaches absolute zero, entropy approaches a constant minimum.

Need help with any specific thermodynamics problem?".

Definition electromagnetism_response : jsstring := js
"**Electromagnetism** describes the interaction between electrically charged particles.

**Maxwell's Equations** form the foundation:
- **Gauss's Law:** `∇·E = ρ/ε₀`
- **Gauss's Law for Magnetism:** `∇·B = 0`
- **Faraday's Law:** `∇×E = -∂B/∂t`
- **Ampère's Law:** `∇×B = μ₀J + μ₀ε₀∂E/∂t`

These equations describe how electric and magnetic fields are generated and interact!".

Definition relativity_response : jsstring := js
"**Einstein's Theory of Relativity**

**Special Relativity (1905):**
- Speed of light is constant in all reference frames
- Time dilation: `t' = t/√(1-v²/c²)`
- Length contraction: `L' = L√(1-v²/c²)`
- Mass-energy equivalence: `E = mc²`

**General Relativity (1915):**
- Gravity is the curvature of spacetime caused by mass
- Predicts black holes, gravitational waves, and time dilation near massive objects

What aspect would you like to explore further?".

Definition default_response : jsstring := js
"That's a great physics question! Let me help you understand this concept.

Physics is all about understanding the fundamental laws that govern our universe. Whether it's the motion of planets, the behavior of atoms, or the nature of light, physics provides the framework.

Could you provide more details about what specific aspect you'd like to explore? I can help with:
- **Classical Mechanics** (motion, forces, energy)
- **Thermodynamics** (heat, entropy, temperature)
- **Electromagnetism** (electricity, magnetism, light)
- **Quantum Mechanics** (atomic and subatomic behavior)
- **Relativity** (space, time, gravity)

Feel free to ask any physics question!".

(** The object literal [responses], in the order of [Object.entries]. *)
Definition responses : list (jsstring * jsstring) :=
  [(js "newton", newton_response);
   (js "quantum", quantum_response);
   (js "thermodynamics", thermodynamics_response);
   (js "electromagnetism", electromagnetism_response);
   (js "relativity", relativity_response);
   (js "default", default_response)].

(** The loop [for (const [keyword, response] of Object.entries(responses))]. *)
Fixpoint firstResponse (lowerMessage : jsstring)
  (entries : list (jsstring * jsstring)) : option jsstring :=
  match entries with
  | [] => None
  | (keyword, response) :: rest =>
    if includes lowerMessage keyword then Some response
    else firstResponse lowerMessage rest
  end.

Definition getAIResponse (message : jsstring) : jsstring :=
  let lowerMessage := toLowerCase message in
  match firstResponse lowerMessage responses with
  | Some response => response
  | None => default_response
  end.

(** *** The conversation store *)

Inductive load_result : Type :=
| Loaded (s : PhyChatApp)
| LoadThrows (e : error)
| LoadForeign (j : json).

(** [loadConversations].  [LoadThrows] is the exception of [JSON.parse],
    which nothing catches.  [LoadForeign] is a parsed value that is not an
    array of conversation objects as [saveConversations] writes them: the
    code makes it [this.conversations] all the same, and what it does
    with it from there on is not modelled. *)
Definition loadConversations (s : PhyChatApp) : load_result :=
  match localStorage s with
  | None => Loaded (set_conversations [] s)
  | Some saved =>
    if truthy saved then
      match JSON.parse saved with
      | None => LoadThrows SyntaxError
      | Some j =>
        match conversations_of_json j with
        | Some cs => Loaded (set_conversations cs s)
        | None => LoadForeign j
        end
      end
    else Loaded (set_conversations [] s)
  end.

Definition saveConversations (s : PhyChatApp) : PhyChatApp :=
  set_localStorage
    (Some (JSON.stringify (json_of_conversations (conversations s)))) s.

(** [c.id === x] where [x] is [null] or a string. *)
Definition strictEq (a : jsstring) (x : option jsstring) : bool :=
  match x with
  | Some b => eqb a b
  | None => false
  end.

Definition findById (x : option jsstring) (cs : list Conversation)
  : option Conversation :=
  find (fun c => strictEq (id c) x) cs.

(** The pane is emptied before the messages are added and holds no
    welcome screen while they are: whatever the lookup of [addMessage]
    finds then, it is no node of the pane. *)
Definition loadConversation (conversationId : jsstring) (s : PhyChatApp)
  : PhyChatApp :=
  let s := set_currentConversationId (Some conversationId) s in
  match findById (Some conversationId) (conversations s) with
  | None => s
  | Some conversation =>
    let s := set_chatMessages [] s in
    match messages conversation with
    | [] => showWelcomeScreen s
    | _ :: _ =>
      fold_left
        (fun s msg => addMessage (content msg) (type msg) false Elsewhere s)
        (messages conversation) s
    end
  end.

Definition newConversation (now : Z) (iso : jsstring) : Conversation :=
  {| id := Z_toString now;
     title := js "New Conversation";
     messages := [];
     createdAt := iso |}.

(** [now] is [Date.now()], [iso] is [new Date().toISOString()]. *)
Definition createNewConversation (now : Z) (iso : jsstring)
  (s : PhyChatApp) : PhyChatApp :=
  let conversation := newConversation now iso in
  let s := set_conversations (conversation :: conversations s) s in
  let s := saveConversations s in
  loadConversation (id conversation) s.

(** The object that [find] returned is changed in place: in the list, the
    first element that satisfies [p]. *)
Fixpoint update_first {A : Type} (p : A -> bool) (f : A -> A) (l : list A)
  : list A :=
  match l with
  | [] => []
  | x :: r => if p x then f x :: r else x :: update_first p f r
  end.

Definition isUser (m : Message) : bool := eqb (type m) (js "user").

(** The body of [if (conversation) { ... }] up to the save. *)
Definition pushMessage (content type iso : jsstring) (c : Conversation)
  : Conversation :=
  let c := set_messages
             (messages c ++ [{| content := content; type := type;
                                timestamp := iso |}]) c in
  if eqb type (js "user")
     && (List.length (filter isUser (messages c)) =? 1)%nat
  then set_title (substring0 30 content
                    ++ (if (30 <? List.length content)%nat then js "..." else []))
                 c
  else c.

Definition saveMessageToConversation (content type iso : jsstring)
  (s : PhyChatApp) : PhyChatApp :=
  match findById (currentConversationId s) (conversations s) with
  | None => s
  | Some _ =>
    let s := set_conversations
               (update_first
                  (fun c => strictEq (id c) (currentConversationId s))
                  (pushMessage content type iso) (conversations s)) s in
    saveConversations s
  end.

Definition deleteConversation (conversationId : jsstring) (now : Z)
  (iso : jsstring) (s : PhyChatApp) : PhyChatApp :=
  let s := set_conversations
             (filter (fun c => negb (eqb (id c) conversationId))
                     (conversations s)) s in
  let s := saveConversations s in
  if strictEq conversationId (currentConversationId s) then
    match conversations s with
    | c0 :: _ => loadConversation (id c0) s
    | [] => createNewConversation now iso s
    end
  else s.

(** *** The message pipeline *)

Definition errorText : jsstring :=
  js "Sorry, I encountered an error. Please try again.".

(** [sendMessage] up to its [await]: [None] for the early return, else
    the captured [message] and the state in which the call is suspended.
    [iso] is the time of the user message, [welcome] what the lookup of
    the welcome screen finds. *)
Definition sendMessage_begin (iso : jsstring) (welcome : lookup)
  (s : PhyChatApp) : option (jsstring * PhyChatApp) :=
  let message := trim (chatInput s) in
  if negb (truthy message) || isProcessing s then None
  else
    let s := set_chatInput [] s in
    let s := updateSendButtonState s in
    let s := addMessage message (js "user") false welcome s in
    let s := saveMessageToConversation message (js "user") iso s in
    let s := showTypingIndicator s in
    Some (message, set_isProcessing true s).

(** [sendMessage] from the completion [r] of the awaited promise on;
    [indicator] and [welcome] are what the lookups of the typing
    indicator and of the welcome screen find. *)
Definition sendMessage_end (r : completion jsstring) (iso : jsstring)
  (indicator welcome : lookup) (s : PhyChatApp) : PhyChatApp :=
  let s :=
    match r with
    | Normal response =>
      let s := hideTypingIndicator indicator s in
      let s := addMessage response (js "assistant") false welcome s in
      saveMessageToConversation response (js "assistant") iso s
    | Throw _ =>
      let s := hideTypingIndicator indicator s in
      addMessage errorText (js "assistant") true welcome s
    end in
  let s := set_isProcessing false s in
  updateSendButtonState s.

(** The three lookups of one run of [sendMessage]: of the welcome screen
    when the user message is added, of the typing indicator when the
    promise is settled, of the welcome screen when the answer is added. *)
Record lookups : Type := {
  welcome1 : lookup;
  indicator2 : lookup;
  welcome2 : lookup
}.

(** A whole run of [sendMessage] with no other event during the wait;
    [resolver] stands for [this.getAIResponse]. *)
Definition sendMessage (resolver : jsstring -> completion jsstring)
  (iso1 iso2 : jsstring) (found : lookups) (s : PhyChatApp) : PhyChatApp :=
  match sendMessage_begin iso1 (welcome1 found) s with
  | None => s
  | Some (message, s) =>
    sendMessage_end (resolver message) iso2 (indicator2 found)
      (welcome2 found) s
  end.

(** The promise of [getAIResponse] is always fulfilled. *)
Definition getAIResponse_async (message : jsstring) : completion jsstring :=
  Normal (getAIResponse message).

(** One submission: the text is put in the input field and sent. *)
Record submission : Type := {
  sub_text : jsstring;
  sub_resolver : jsstring -> completion jsstring;
  sub_iso1 : jsstring;
  sub_iso2 : jsstring;
  sub_found : lookups
}.

Definition submit (x : submission) (s : PhyChatApp) : PhyChatApp :=
  sendMessage (sub_resolver x) (sub_iso1 x) (sub_iso2 x) (sub_found x)
              (set_chatInput (sub_text x) s).

(** The lookups of a document in which only the nodes of the pane have
    the class [welcome-screen] or the id [typing-indicator]. *)
Definition plain : lookups :=
  {| welcome1 := InPane; indicator2 := InPane; welcome2 := InPane |}.

(** *** Start-up *)

Definition constructed (storage : option jsstring) : PhyChatApp :=
  {| conversations := []; currentConversationId := None;
     isProcessing := false; chatInput := []; sendBtn_disabled := false;
     chatMessages := []; localStorage := storage |}.

Definition init (now : Z) (iso : jsstring) (s : PhyChatApp) : load_result :=
  match loadConversations s with
  | Loaded s =>
    match conversations s with
    | [] => Loaded (createNewConversation now iso s)
    | c0 :: _ => Loaded (loadConversation (id c0) s)
    end
  | r => r
  end.

(* ================================================================== *)
(** ** Runs of operations, and readers of the persisted text *)
(* ================================================================== *)

(** A sequence of calls of [createNewConversation], each with the clock
    readings it gets. *)
Definition createAll (calls : list (Z * jsstring)) (s : PhyChatApp)
  : PhyChatApp :=
  fold_left (fun s c => createNewConversation (fst c) (snd c) s) calls s.

Record append_call : Type := {
  app_content : jsstring;
  app_type : jsstring;
  app_iso : jsstring
}.

(** A sequence of calls of [saveMessageToConversation]. *)
Definition appendAll (calls : list append_call) (s : PhyChatApp)
  : PhyChatApp :=
  fold_left (fun s a => saveMessageToConversation
                          (app_content a) (app_type a) (app_iso a) s)
            calls s.

(** A sequence of submissions. *)
Definition submitAll (xs : list submission) (s : PhyChatApp) : PhyChatApp :=
  fold_left (fun s x => submit x s) xs s.

Fixpoint member (k : jsstring) (ms : list (jsstring * json)) : option json :=
  match ms with
  | [] => None
  | (k', v) :: r => if eqb k' k then Some v else member k r
  end.

(** The message records of a persisted text: the elements of the
    [messages] array of each conversation object. *)
Definition persistedMessages (j : json) : list json :=
  match j with
  | JArray cs =>
    flat_map (fun c =>
                match c with
                | JObject ms =>
                  match member (js "messages") ms with
                  | Some (JArray l) => l
                  | _ => []
                  end
                | _ => []
                end) cs
  | _ => []
  end.

Definition memberNames (j : json) : list jsstring :=
  match j with
  | JObject ms => map fst ms
  | _ => []
  end.

(** Every message of the store has the type [user] or [assistant]. *)
Definition userOrAssistant (cs : list Conversation) : Prop :=
  forall c m, In c cs -> In m (messages c) ->
    type m = js "user" \/ type m = js "assistant".

(** The conversation that is rendered and receives the messages. *)
Definition activeConversation (s : PhyChatApp) : option Conversation :=
  findById (currentConversationId s) (conversations s).

(** The number of conversations that carry the active id: the items that
    [renderConversationList] marks [active]. *)
Definition activeCount (s : PhyChatApp) : nat :=
  List.length
    (filter (fun c => strictEq (id c) (currentConversationId s))
            (conversations s)).

(** [text] equals [k] up to the case of its ASCII letters. *)
Definition sameIgnoringCase (text k : jsstring) : Prop :=
  toLowerCase text = toLowerCase k.

(** [k] occurs in [message], whatever the case of the letters. *)
Definition occursIgnoringCase (k message : jsstring) : Prop :=
  exists pre mid post,
    message = pre ++ mid ++ post /\ sameIgnoringCase mid k.

(* ================================================================== *)
(** ** The events of the chat page *)
(* ================================================================== *)

(** The controller together with the call of [sendMessage] that is
    suspended at its [await], if there is one: the [message] it holds. *)
Record page : Type := {
  ctl : PhyChatApp;
  pending : option jsstring
}.

(** What [bindEvents] and [renderConversationList] bind: the new-chat
    button, the delete button and the item of a conversation in the
    sidebar, the send button (or Enter, or a quick prompt) with the text
    of the input field; and the promise of the suspended [sendMessage]
    being settled.  [Send] and [Settle] come with what the lookups of
    [sendMessage] find in the document at that time. *)
Inductive event : Type :=
| NewChat (now : Z) (iso : jsstring)
| Delete (conversationId : jsstring) (now : Z) (iso : jsstring)
| Switch (conversationId : jsstring)
| Send (text : jsstring) (iso : jsstring) (welcome : lookup)
| Settle (iso : jsstring) (indicator welcome : lookup).

Definition handle (resolver : jsstring -> completion jsstring) (e : event)
  (p : page) : page :=
  match e with
  | NewChat now iso =>
    {| ctl := createNewConversation now iso (ctl p); pending := pending p |}
  | Delete cid now iso =>
    {| ctl := deleteConversation cid now iso (ctl p); pending := pending p |}
  | Switch cid =>
    {| ctl := loadConversation cid (ctl p); pending := pending p |}
  | Send text iso welcome =>
    match sendMessage_begin iso welcome (set_chatInput text (ctl p)) with
    | None => {| ctl := set_chatInput text (ctl p); pending := pending p |}
    | Some (message, s) => {| ctl := s; pending := Some message |}
    end
  | Settle iso indicator welcome =>
    match pending p with
    | None => p
    | Some message =>
      {| ctl := sendMessage_end (resolver message) iso indicator welcome
                  (ctl p);
         pending := None |}
    end
  end.

Definition handleAll (resolver : jsstring -> completion jsstring)
  (es : list event) (p : page) : page :=
  fold_left (fun p e => handle resolver e p) es p.

(** The pages whose store the code alone has built: a page opened on a
    storage without the item, a page after an event, whatever the
    resolver does, and a page opened on the storage that such a page
    left. *)
Inductive built : page -> Prop :=
| built_open (now : Z) (iso : jsstring) (s : PhyChatApp) :
    init now iso (constructed None) = Loaded s ->
    built {| ctl := s; pending := None |}
| built_event (resolver : jsstring -> completion jsstring) (e : event)
    (p : page) :
    built p -> built (handle resolver e p)
| built_reopen (now : Z) (iso : jsstring) (p : page) (s : PhyChatApp) :
    built p ->
    init now iso (constructed (localStorage (ctl p))) = Loaded s ->
    built {| ctl := s; pending := None |}.

(** The sidebar only offers the conversations of the list: a run in which
    every [Switch] names an id that the store has at that time. *)
Fixpoint userRun (resolver : jsstring -> completion jsstring)
  (es : list event) (p : page) : Prop :=
  match es with
  | [] => True
  | e :: rest =>
    match e with
    | Switch cid => In cid (map id (conversations (ctl p)))
    | _ => True
    end
    /\ userRun resolver rest (handle resolver e p)
  end.

Definition isDelete (e : event) : bool :=
  match e with Delete _ _ _ => true | _ => false end.

(** The processing flag is set exactly while a call is suspended. *)
Definition inFlightConsistent (p : page) : Prop :=
  match pending p with
  | None => isProcessing (ctl p) = false
  | Some _ => isProcessing (ctl p) = true
  end.

(** The storage item is the text of the list that is in memory. *)
Definition written (s : PhyChatApp) : Prop :=
  localStorage s
  = Some (JSON.stringify (json_of_conversations (conversations s))).

(** Loading the storage item would give the list that is in memory. *)
Definition inSync (s : PhyChatApp) : Prop :=
  exists s1, loadConversations s = Loaded s1
             /\ conversations s1 = conversations s.

(** The nodes with which [loadConversation] fills the pane. *)
Definition messageNode (m : Message) : node :=
  MessageNode (content m) (type m) false.

Definition renderTranscript (ms : list Message) : list node :=
  match ms with
  | [] => [WelcomeScreen]
  | _ :: _ => map messageNode ms
  end.

(** [c'] is [c] with messages added at the end. *)
Definition extended (c c' : Conversation) : Prop :=
  id c' = id c /\ createdAt c' = createdAt c
  /\ exists more, messages c' = messages c ++ more.

(** [cs'] is [cs] with conversations added in front and messages added
    at the end of some transcripts. *)
Definition grown (cs cs' : list Conversation) : Prop :=
  exists fresh kept, cs' = fresh ++ kept /\ Forall2 extended cs kept.

(** The keywords of the table that name a topic. *)
Definition topics : list (jsstring * jsstring) :=
  [(js "newton", newton_response);
   (js "quantum", quantum_response);
   (js "thermodynamics", thermodynamics_response);
   (js "electromagnetism", electromagnetism_response);
   (js "relativity", relativity_response)].

(* ================================================================== *)
(** ** The page-interaction layer *)
(* ================================================================== *)

(** *** Regular expressions tested against a whole string *)

Module RegExp.

Local Open Scope N_scope.

(** A pattern between [^] and [$], with no flag: it is matched against
    the code units of the whole string.  [Class p] is a character class,
    [Cat] a sequence, [Alt] an alternative, [Star] a repetition; [Void]
    matches nothing and [Eps] the empty string. *)
Inductive regex : Type :=
| Void
| Eps
| Class (p : code_unit -> bool)
| Cat (r1 r2 : regex)
| Alt (r1 r2 : regex)
| Star (r : regex).

(** [r+] *)
Definition Plus (r : regex) : regex := Cat r (Star r).

(** Does [r] match the empty string? *)
Fixpoint nullable (r : regex) : bool :=
  match r with
  | Void => false
  | Eps => true
  | Class _ => false
  | Cat r1 r2 => nullable r1 && nullable r2
  | Alt r1 r2 => nullable r1 || nullable r2
  | Star _ => true
  end.

(** What is left of [r] once the code unit [c] is read. *)
Fixpoint derive (c : code_unit) (r : regex) : regex :=
  match r with
  | Void => Void
  | Eps => Void
  | Class p => if p c then Eps else Void
  | Cat r1 r2 =>
    if nullable r1
    then Alt (Cat (derive c r1) r2) (derive c r2)
    else Cat (derive c r1) r2
  | Alt r1 r2 => Alt (derive c r1) (derive c r2)
  | Star r0 => Cat (derive c r0) (Star r0)
  end.

(** [/^r$/.test(s)] *)
Fixpoint test (r : regex) (s : jsstring) : bool :=
  match s with
  | [] => nullable r
  | c :: s' => test (derive c r) s'
  end.

(** The strings of a pattern, as the grammar of patterns defines them. *)
Inductive Matches : regex -> jsstring -> Prop :=
| MEps : Matches Eps []
| MClass p c : p c = true -> Matches (Class p) [c]
| MCat r1 r2 s1 s2 :
    Matches r1 s1 -> Matches r2 s2 -> Matches (Cat r1 r2) (s1 ++ s2)
| MAltL r1 r2 s : Matches r1 s -> Matches (Alt r1 r2) s
| MAltR r1 r2 s : Matches r2 s -> Matches (Alt r1 r2) s
| MStarNil r : Matches (Star r) []
| MStarCons r s1 s2 :
    Matches r s1 -> Matches (Star r) s2 -> Matches (Star r) (s1 ++ s2).

End RegExp.

(** *** [FormHandler]: the validation of a form *)

Module FormHandler.

Import RegExp.

Local Open Scope N_scope.

(** A required input or textarea of the form: [input.value],
    [input.type], whether its class list holds [error], and the text of
    the [.error-message] element under its parent, if there is one.  The
    inputs of a form have a parent each. *)
Record input : Type := {
  value : jsstring;
  type : jsstring;
  classError : bool;
  errorEl : option jsstring
}.

(** [[^\s@]] *)
Definition notSpaceOrAt (c : code_unit) : bool :=
  negb (isWhiteSpace c || (c =? 64)).

(** [/^[^\s@]+@[^\s@]+\.[^\s@]+$/] *)
Definition emailPattern : regex :=
  Cat (Plus (Class notSpaceOrAt))
    (Cat (Class (N.eqb 64))
      (Cat (Plus (Class notSpaceOrAt))
        (Cat (Class (N.eqb 46))
          (Plus (Class notSpaceOrAt))))).

Definition isValidEmail (email : jsstring) : bool := test emailPattern email.

Definition showInputError (i : input) (message : jsstring) : input :=
  {| value := value i; type := type i; classError := true;
     errorEl := match errorEl i with
                | Some _ => Some message
                | None => None
                end |}.

Definition clearInputError (i : input) : input :=
  {| value := value i; type := type i; classError := false;
     errorEl := match errorEl i with
                | Some _ => Some []
                | None => None
                end |}.

(** The callback that [validateForm] runs on each input, with the flag
    [isValid] it updates. *)
Definition validateInput (i : input) (isValid : bool) : input * bool :=
  if negb (truthy (trim (value i))) then
    (showInputError i (js "This field is required"), false)
  else if JSString.eqb (type i) (js "email") && negb (isValidEmail (value i))
  then (showInputError i (js "Please enter a valid email"), false)
  else (clearInputError i, isValid).

(** [validateForm(form)], on the required inputs of the form in document
    order: the inputs as it leaves them, and the value it returns. *)
Fixpoint validateEach (inputs : list input) (isValid : bool)
  : list input * bool :=
  match inputs with
  | [] => ([], isValid)
  | i :: rest =>
    let (i', isValid') := validateInput i isValid in
    let (rest', result) := validateEach rest isValid' in
    (i' :: rest', result)
  end.

Definition validateForm (inputs : list input) : list input * bool :=
  validateEach inputs true.

(** An input that [validateForm] leaves without an error. *)
Definition filled (i : input) : bool :=
  truthy (trim (value i)) &&
  (negb (JSString.eqb (type i) (js "email")) || isValidEmail (value i)).

End FormHandler.

(** *** [ThemeManager] *)

Module ThemeManager.

(** The [data-theme] attribute of the body, the class name of the icon of
    the toggle ([None] when the page has no toggle, or no icon in it) and
    the storage item [phychat-theme]. *)
Record ThemeManager : Type := {
  dataTheme : option jsstring;
  iconClassName : option jsstring;
  storedTheme : option jsstring
}.

(** [x || 'dark'], for [x] a string or [null]. *)
Definition orDark (x : option jsstring) : jsstring :=
  match x with
  | Some (c :: s) => c :: s
  | _ => js "dark"
  end.

Definition updateToggleIcon (theme : jsstring) (icon : option jsstring)
  : option jsstring :=
  match icon with
  | Some _ =>
    Some (if JSString.eqb theme (js "dark")
          then js "fas fa-sun" else js "fas fa-moon")
  | None => None
  end.

Definition setTheme (theme : jsstring) (t : ThemeManager) : ThemeManager :=
  {| dataTheme := Some theme;
     iconClassName := updateToggleIcon theme (iconClassName t);
     storedTheme := Some theme |}.

Definition init (t : ThemeManager) : ThemeManager :=
  let savedTheme := orDark (storedTheme t) in
  setTheme savedTheme t.

Definition toggleTheme (t : ThemeManager) : ThemeManager :=
  let currentTheme := orDark (dataTheme t) in
  let newTheme :=
    if JSString.eqb currentTheme (js "dark") then js "light" else js "dark" in
  setTheme newTheme t.

(** [n] clicks on the toggle. *)
Fixpoint clicks (n : nat) (t : ThemeManager) : ThemeManager :=
  match n with
  | O => t
  | S k => clicks k (toggleTheme t)
  end.

(** The page as a reload finds it: the body has no theme yet, the
    storage is kept. *)
Definition reloaded (t : ThemeManager) : ThemeManager :=
  {| dataTheme := None;
     iconClassName := option_map (fun _ => []) (iconClassName t);
     storedTheme := storedTheme t |}.

(** The attribute and the storage item tell the same theme, which is not
    the empty string, and the icon is the one of that theme. *)
Definition settled (t : ThemeManager) : Prop :=
  exists c s,
    dataTheme t = Some (c :: s) /\ storedTheme t = Some (c :: s)
    /\ iconClassName t = updateToggleIcon (c :: s) (iconClassName t).

End ThemeManager.

(** *** [FAQAccordion] *)

Module FAQAccordion.

(** The items of the accordion, each with whether its class list holds
    [active]; an item is named by its position. *)
Definition items : Type := list bool.

(** [i.classList.remove('active')] for every item. *)
Definition closeAll (its : items) : items := map (fun _ => false) its.

(** [item.classList.add('active')] for the item at position [k]. *)
Fixpoint open (k : nat) (its : items) : items :=
  match its, k with
  | [], _ => []
  | _ :: rest, O => true :: rest
  | i :: rest, S k' => i :: open k' rest
  end.

Definition toggleItem (k : nat) (its : items) : items :=
  let isActive := nth k its false in
  let closed := closeAll its in
  if negb isActive then open k closed else closed.

(** The clicks on the questions at the positions [ks], in turn. *)
Definition clickAll (ks : list nat) (its : items) : items :=
  fold_left (fun acc k => toggleItem k acc) ks its.

(** The number of open items. *)
Definition openCount (its : items) : nat := count_occ bool_dec its true.

End FAQAccordion.

(** *** [TypingEffect] *)

Module TypingEffect.

Local Open Scope Z_scope.

(** The fields of the effect, the text of its element, and the delay of
    the timer that the last call of [type] set.  Delays are whole
    milliseconds. *)
Record TypingEffect : Type := {
  texts : list jsstring;
  currentTextIndex : nat;
  currentCharIndex : Z;
  isDeleting : bool;
  typeSpeed : Z;
  deleteSpeed : Z;
  pauseDuration : Z;
  textContent : jsstring;
  timer : Z
}.

(** [x || d], for [x] a number or [undefined]. *)
Definition orElse (x : option Z) (d : Z) : Z :=
  match x with
  | Some 0 => d
  | Some v => v
  | None => d
  end.

(** The fields as the constructor sets them on an element of the page,
    before it calls [type]. *)
Definition constructed (element : jsstring) (ts : list jsstring)
  (optTypeSpeed optDeleteSpeed optPauseDuration : option Z) : TypingEffect :=
  {| texts := ts;
     currentTextIndex := 0;
     currentCharIndex := 0;
     isDeleting := false;
     typeSpeed := orElse optTypeSpeed 100;
     deleteSpeed := orElse optDeleteSpeed 50;
     pauseDuration := orElse optPauseDuration 2000;
     textContent := element;
     timer := 0 |}.

(** [s.substring(0, k)] for an integer [k]. *)
Definition substring (k : Z) (s : jsstring) : jsstring :=
  firstn (Z.to_nat k) s.

(** One call of [type]; [None] when [texts] has no text at the current
    index, where reading [substring] of [undefined] throws and no timer
    is set. *)
Definition type (e : TypingEffect) : option TypingEffect :=
  match nth_error (texts e) (currentTextIndex e) with
  | None => None
  | Some currentText =>
    let content :=
      if isDeleting e
      then substring (currentCharIndex e - 1) currentText
      else substring (currentCharIndex e + 1) currentText in
    let charIndex :=
      if isDeleting e then currentCharIndex e - 1
      else currentCharIndex e + 1 in
    let delay := if isDeleting e then deleteSpeed e else typeSpeed e in
    if negb (isDeleting e) && (charIndex =? Z.of_nat (List.length currentText))
    then
      Some {| texts := texts e;
              currentTextIndex := currentTextIndex e;
              currentCharIndex := charIndex;
              isDeleting := true;
              typeSpeed := typeSpeed e;
              deleteSpeed := deleteSpeed e;
              pauseDuration := pauseDuration e;
              textContent := content;
              timer := pauseDuration e |}
    else if isDeleting e && (charIndex =? 0) then
      Some {| texts := texts e;
              currentTextIndex :=
                Nat.modulo (currentTextIndex e + 1) (List.length (texts e));
              currentCharIndex := charIndex;
              isDeleting := false;
              typeSpeed := typeSpeed e;
              deleteSpeed := deleteSpeed e;
              pauseDuration := pauseDuration e;
              textContent := content;
              timer := 500 |}
    else
      Some {| texts := texts e;
              currentTextIndex := currentTextIndex e;
              currentCharIndex := charIndex;
              isDeleting := isDeleting e;
              typeSpeed := typeSpeed e;
              deleteSpeed := deleteSpeed e;
              pauseDuration := pauseDuration e;
              textContent := content;
              timer := delay |}
  end.

(** The effect [e] at the text of index [i], with the first [c] code
    units of that text in its element. *)
Definition showing (e : TypingEffect) (i c : nat) (deleting : bool)
  (delay : Z) : TypingEffect :=
  {| texts := texts e;
     currentTextIndex := i;
     currentCharIndex := Z.of_nat c;
     isDeleting := deleting;
     typeSpeed := typeSpeed e;
     deleteSpeed := deleteSpeed e;
     pauseDuration := pauseDuration e;
     textContent := firstn c (nth i (texts e) []);
     timer := delay |}.

(** [n] timers in a row: each runs [type] again. *)
Fixpoint run (n : nat) (e : TypingEffect) : option TypingEffect :=
  match n with
  | O => Some e
  | S k =>
    match type e with
    | Some e' => run k e'
    | None => None
    end
  end.

(** The current index names a text of the list, and the number of code
    units shown is not negative, nor zero while deleting. *)
Definition steady (e : TypingEffect) : Prop :=
  (currentTextIndex e < List.length (texts e))%nat
  /\ 0 <= currentCharIndex e
  /\ (isDeleting e = true -> 1 <= currentCharIndex e).

End TypingEffect.

(** *** Sample states, for the instances of the theorems *)

Definition sampleMessage : Message :=
  {| content := js "What is quantum mechanics?";
     type := js "user";
     timestamp := js "2024-01-01T10:00:00.000Z" |}.

Definition sampleConversation : Conversation :=
  {| id := js "1704103200000";
     title := js "What is quantum mechanics?";
     messages := [sampleMessage];
     createdAt := js "2024-01-01T10:00:00.000Z" |}.

Definition emptyConversation : Conversation :=
  newConversation 1704103200000 (js "2024-01-01T10:00:00.000Z").

(** The page with [c] as its only, active conversation, once saved. *)
Definition appWith (c : Conversation) : PhyChatApp :=
  saveConversations
    {| conversations := [c]; currentConversationId := Some (id c);
       isProcessing := false; chatInput := []; sendBtn_disabled := true;
       chatMessages := [WelcomeScreen]; localStorage := None |}.

(** Three conversations, the latest of them active. *)
Definition sampleStore : PhyChatApp :=
  createAll [(1704103200001%Z, js "2024-01-01T10:00:00.001Z");
             (1704103260000%Z, js "2024-01-01T10:01:00.000Z")]
            (appWith sampleConversation).

Definition failingResolver (message : jsstring) : completion jsstring :=
  Throw OtherError.

(** A page opened on a storage without the item, and the same page after
    a question and its answer. *)
Definition openedPage : page :=
  {| ctl := createNewConversation 1704103200000
              (js "2024-01-01T10:00:00.000Z") (constructed None);
     pending := None |}.

Definition answeredPage : page :=
  handleAll getAIResponse_async
    [Send (js "What is quantum mechanics?") (js "2024-01-01T10:00:01.000Z")
          InPane;
     Settle (js "2024-01-01T10:00:03.000Z") InPane InPane]
    openedPage.

Definition sampleSubmission : submission :=
  {| sub_text := js "Explain Newton's laws of motion";
     sub_resolver := getAIResponse_async;
     sub_iso1 := js "2024-01-01T10:00:01.000Z";
     sub_iso2 := js "2024-01-01T10:00:03.000Z";
     sub_found := plain |}.

Definition failingSubmission : submission :=
  {| sub_text := js "Explain Newton's laws of motion";
     sub_resolver := failingResolver;
     sub_iso1 := js "2024-01-01T10:00:01.000Z";
     sub_iso2 := js "2024-01-01T10:00:03.000Z";
     sub_found := plain |}.

(* ================================================================== *)
(** ** Facts about strings *)
(* ================================================================== *)

Module JSStringFacts.

Local Open Scope N_scope.

Lemma eqb_refl (a : jsstring) : eqb a a = true.
Proof. unfold eqb. destruct (eq_dec a a); congruence. Qed.

Lemma eqb_eq (a b : jsstring) : eqb a b = true <-> a = b.
Proof. unfold eqb. destruct (eq_dec a b); split; congruence. Qed.

Lemma eqb_neq (a b : jsstring) : eqb a b = false <-> a <> b.
Proof. unfold eqb. destruct (eq_dec a b); split; congruence. Qed.

Lemma startsWith_app (k post : jsstring) : startsWith (k ++ post) k = true.
Proof.
  induction k as [|x k IH]; simpl; [reflexivity|].
  now rewrite N.eqb_refl, IH.
Qed.

Lemma startsWith_inv (k s : jsstring) :
  startsWith s k = true -> exists post, s = k ++ post.
Proof.
  revert s; induction k as [|x k IH]; intros s H.
  - now exists s.
  - destruct s as [|c s]; simpl in H; [discriminate|].
    apply andb_prop in H as [E H]. apply N.eqb_eq in E; subst c.
    destruct (IH _ H) as [post ->]. now exists post.
Qed.

(** [includes] is the occurrence of the key as a factor. *)
Lemma includes_spec (s k : jsstring) :
  includes s k = true <-> exists pre post, s = pre ++ k ++ post.
Proof.
  split.
  - induction s as [|c s IH]; simpl; intros H.
    + rewrite orb_false_r in H. apply startsWith_inv in H as [post E].
      now exists [], post.
    + apply orb_prop in H as [H|H].
      * apply startsWith_inv in H as [post E]. now exists [], post.
      * destruct (IH H) as (pre & post & E). exists (c :: pre), post.
        simpl. now f_equal.
  - intros (pre & post & ->).
    induction pre as [|c pre IH]; simpl.
    + pose proof (startsWith_app k post) as E.
      destruct (k ++ post); simpl; now rewrite E.
    + now rewrite IH, orb_true_r.
Qed.

Lemma toLowerCase_app (a b : jsstring) :
  toLowerCase (a ++ b) = toLowerCase a ++ toLowerCase b.
Proof. apply map_app. Qed.

Lemma units_of_ascii_inj (a b : string) :
  units_of_ascii a = units_of_ascii b -> a = b.
Proof.
  unfold units_of_ascii. intros H.
  rewrite <- (string_of_list_ascii_of_string a),
          <- (string_of_list_ascii_of_string b).
  f_equal.
  revert H. generalize (list_ascii_of_string a) (list_ascii_of_string b).
  induction l as [|x l IH]; intros [|y l'] H; simpl in H;
    try discriminate; [reflexivity|].
  injection H as Hx Hl. f_equal; [|now apply IH].
  now rewrite <- (ascii_N_embedding x), <- (ascii_N_embedding y), Hx.
Qed.

Lemma to_int_proper (z : Z) :
  Z.to_int z <> Decimal.Pos Decimal.Nil /\
  Z.to_int z <> Decimal.Neg Decimal.Nil.
Proof.
  destruct z as [|p|p]; simpl; split; try discriminate;
    intros [= H]; now apply (Unsigned.to_uint_nonnil p).
Qed.

(** Two clock readings with the same decimal form are the same. *)
Lemma Z_toString_inj (a b : Z) : Z_toString a = Z_toString b -> a = b.
Proof.
  unfold Z_toString. intros H. apply units_of_ascii_inj in H.
  apply DecimalZ.to_int_inj.
  destruct (to_int_proper a) as [A1 A2], (to_int_proper b) as [B1 B2].
  pose proof (@NilZero.isi _ A1 A2) as Ia.
  pose proof (@NilZero.isi _ B1 B2) as Ib.
  rewrite H in Ia. congruence.
Qed.

End JSStringFacts.

Import JSStringFacts.

(* ================================================================== *)
(** ** Facts about JSON texts *)
(* ================================================================== *)

Module JSONFacts.

Local Open Scope N_scope.

Ltac ncases :=
  repeat match goal with
  | |- context [N.eqb ?a ?b] => destruct (N.eqb_spec a b); try lia
  | |- context [N.leb ?a ?b] => destruct (N.leb_spec a b); try lia
  | |- context [N.ltb ?a ?b] => destruct (N.ltb_spec a b); try lia
  end.

Lemma emit_nil (r : option (list token)) : emit [] r = r.
Proof. now destruct r. Qed.

Lemma emit_emit (a b : list token) (r : option (list token)) :
  emit a (emit b r) = emit (a ++ b) r.
Proof. destruct r; simpl; [now rewrite app_assoc|reflexivity]. Qed.

Lemma hexValue_hexDigit (d : N) : d < 16 -> hexValue (hexDigit d) = Some d.
Proof.
  intros H. unfold hexValue, hexDigit. ncases; cbn [andb]; f_equal; lia.
Qed.

Lemma hex_digits (c : N) :
  c < 65536 ->
  (((0 * 16 + c / 4096 mod 16) * 16 + c / 256 mod 16) * 16
     + c / 16 mod 16) * 16 + c mod 16 = c.
Proof.
  intros H.
  assert (D2 : c / 256 = c / 16 / 16)
    by (now rewrite N.Div0.div_div).
  assert (D3 : c / 4096 = c / 256 / 16)
    by (now rewrite N.Div0.div_div).
  pose proof (N.div_mod c 16) as E1.
  pose proof (N.div_mod (c / 16) 16) as E2.
  pose proof (N.div_mod (c / 256) 16) as E3.
  assert (L : c / 4096 < 16) by (apply N.Div0.div_lt_upper_bound; lia).
  rewrite (N.mod_small (c / 4096) 16) by assumption.
  rewrite <- D2 in E2. rewrite <- D3 in E3. lia.
Qed.

Lemma lex_unicodeEscape (acc : jsstring) (c : N) (text : jsstring) :
  c < 65536 ->
  lex (LString acc) (unicodeEscape c ++ text) = lex (LString (c :: acc)) text.
Proof.
  intros H. unfold unicodeEscape. cbn [app lex].
  change (lexStep (LString acc) 92) with (Some (LEscape acc, @nil token)).
  cbn iota. change (lexStep (LEscape acc) 117)
    with (Some (LHex acc 0 0, @nil token)).
  cbn iota.
  repeat (cbn [lexStep];
          rewrite hexValue_hexDigit by (apply N.mod_lt; lia);
          cbn iota beta).
  rewrite !emit_nil. now rewrite hex_digits.
Qed.

Lemma lexStep_plain (acc : jsstring) (c : N) :
  c <> 34 -> c <> 92 -> 32 <= c ->
  lexStep (LString acc) c = Some (LString (c :: acc), []).
Proof. intros. cbn [lexStep]. now ncases. Qed.

Lemma lex_quoteUnit (acc : jsstring) (c : N) (text : jsstring) :
  lex (LString acc) (quoteUnit c ++ text) = lex (LString (c :: acc)) text.
Proof.
  unfold quoteUnit, isLeadingSurrogate, isTrailingSurrogate.
  destruct (N.eqb_spec c 8); [subst; cbn; now rewrite !emit_nil|].
  destruct (N.eqb_spec c 9); [subst; cbn; now rewrite !emit_nil|].
  destruct (N.eqb_spec c 10); [subst; cbn; now rewrite !emit_nil|].
  destruct (N.eqb_spec c 12); [subst; cbn; now rewrite !emit_nil|].
  destruct (N.eqb_spec c 13); [subst; cbn; now rewrite !emit_nil|].
  destruct (N.eqb_spec c 34); [subst; cbn; now rewrite !emit_nil|].
  destruct (N.eqb_spec c 92); [subst; cbn; now rewrite !emit_nil|].
  destruct (N.ltb_spec c 32); cbn [orb].
  - apply lex_unicodeEscape; lia.
  - destruct (N.leb_spec 55296 c), (N.leb_spec c 56319),
             (N.leb_spec 56320 c), (N.leb_spec c 57343);
      cbn [andb orb]; try (apply lex_unicodeEscape; lia);
      cbn [app lex]; rewrite lexStep_plain by lia; apply emit_nil.
Qed.

Lemma quoteBody_pair (c d : code_unit) (r : jsstring) :
  quoteBody (c :: d :: r)
  = if isLeadingSurrogate c && isTrailingSurrogate d
    then c :: d :: quoteBody r
    else quoteUnit c ++ quoteBody (d :: r).
Proof. reflexivity. Qed.

(** The lexer reads back the body that [quote] wrote. *)
Lemma lex_quoteBody (n : nat) :
  forall (s acc text : jsstring),
    (List.length s <= n)%nat ->
    lex (LString acc) (quoteBody s ++ 34 :: text)
    = emit [TString (rev acc ++ s)] (lex LStart text).
Proof.
  induction n as [|n IH]; intros s acc text Hn.
  - destruct s; [|simpl in Hn; lia].
    cbn. now rewrite app_nil_r.
  - destruct s as [|c [|d r]].
    + cbn. now rewrite app_nil_r.
    + cbn [quoteBody]. rewrite lex_quoteUnit.
      cbn. reflexivity.
    + rewrite quoteBody_pair.
      destruct (isLeadingSurrogate c && isTrailingSurrogate d) eqn:E.
      * apply andb_prop in E as [E1 E2].
        unfold isLeadingSurrogate in E1. unfold isTrailingSurrogate in E2.
        apply andb_prop in E1 as [E1 E1'], E2 as [E2 E2'].
        apply N.leb_le in E1, E1', E2, E2'.
        cbn [app lex]. rewrite !lexStep_plain by lia. rewrite !emit_nil.
        etransitivity; [apply IH; simpl in Hn |- *; lia|].
        f_equal. f_equal. cbn [rev]. now rewrite <- !app_assoc.
      * rewrite <- app_assoc, lex_quoteUnit.
        etransitivity; [apply IH; simpl in Hn |- *; lia|].
        f_equal. f_equal. cbn [rev]. now rewrite <- app_assoc.
Qed.

Lemma lex_quote (s text : jsstring) :
  lex LStart (quote s ++ text) = emit [TString s] (lex LStart text).
Proof.
  unfold quote. cbn [app lex].
  change (lexStep LStart 34) with (Some (LString [], @nil token)).
  cbn iota. rewrite emit_nil, <- app_assoc. cbn [app].
  exact (@lex_quoteBody (List.length s) s [] text (le_n _)).
Qed.

Lemma lex_printToken (t : token) (text : jsstring) :
  notNumber t ->
  lex LStart (printToken t ++ text) = emit [t] (lex LStart text).
Proof.
  destruct t; intros H; try (cbn; now rewrite ?emit_nil).
  apply lex_quote.
Qed.

Lemma lex_printTokens (ts : list token) (text : jsstring) :
  Forall notNumber ts ->
  lex LStart (printTokens ts ++ text) = emit ts (lex LStart text).
Proof.
  induction 1 as [|t ts Ht _ IH]; cbn [printTokens flat_map].
  - now rewrite emit_nil.
  - rewrite <- app_assoc, lex_printToken by assumption.
    fold (printTokens ts). rewrite IH, emit_emit. reflexivity.
Qed.

(** Induction on a value, through its arrays and objects. *)
Lemma json_ind' (P : json -> Prop)
  (Hnull : P JNull) (Htrue : P JTrue) (Hfalse : P JFalse)
  (Hnum : forall lit, P (JNumber lit)) (Hstr : forall s, P (JString s))
  (Harr : forall vs, Forall P vs -> P (JArray vs))
  (Hobj : forall ms, Forall (fun m => P (snd m)) ms -> P (JObject ms)) :
  forall v, P v.
Proof.
  refine (fix IH (v : json) : P v :=
    match v with
    | JNull => Hnull
    | JTrue => Htrue
    | JFalse => Hfalse
    | JNumber lit => Hnum lit
    | JString s => Hstr s
    | JArray vs =>
      Harr vs ((fix go (l : list json) : Forall P l :=
                  match l with
                  | [] => Forall_nil _
                  | x :: r => Forall_cons x (IH x) (go r)
                  end) vs)
    | JObject ms =>
      Hobj ms ((fix go (l : list (jsstring * json))
                  : Forall (fun m => P (snd m)) l :=
                  match l with
                  | [] => Forall_nil _
                  | m :: r => Forall_cons m (IH (snd m)) (go r)
                  end) ms)
    end).
Qed.

Lemma run_arrayOpen (v : json) (stk : list frame) (rest : list token) :
  run (PArrayOpen stk) (tokens v ++ rest)
  = run (PValue (FArray [] :: stk)) (tokens v ++ rest).
Proof. destruct v; reflexivity. Qed.

Lemma run_elems (stk : list frame) (rest : list token) :
  forall (r : list json) (x : json) (done : list json),
    Forall reads_back r ->
    run (PAfter x (FArray done :: stk))
        (flat_map (fun y => TComma :: tokens y) r ++ TRBracket :: rest)
    = run (PAfter (JArray (rev done ++ x :: r)) stk) rest.
Proof.
  induction r as [|y r IH]; intros x done H.
  - reflexivity.
  - inversion H as [|? ? Hy Hr]; subst.
    cbn [flat_map app run parseStep].
    rewrite <- app_assoc, Hy, IH by assumption.
    cbn [rev]. now rewrite <- app_assoc.
Qed.

Lemma run_members (stk : list frame) (rest : list token) :
  forall (r : list (jsstring * json)) (k : jsstring) (x : json)
         (done : list (jsstring * json)),
    Forall (fun m => reads_back (snd m)) r ->
    run (PAfter x (FObject done k :: stk))
        (flat_map (fun n => TComma :: TString (fst n) :: TColon
                              :: tokens (snd n)) r ++ TRBrace :: rest)
    = run (PAfter (JObject (rev done ++ (k, x) :: r)) stk) rest.
Proof.
  induction r as [|[k' y] r IH]; intros k x done H.
  - reflexivity.
  - inversion H as [|? ? Hy Hr]; subst.
    cbn [flat_map app run parseStep fst snd].
    rewrite <- app_assoc, Hy, IH by assumption.
    cbn [rev]. now rewrite <- app_assoc.
Qed.

(** The parser reads back the tokens of any value. *)
Lemma run_tokens (v : json) : reads_back v.
Proof.
  induction v as [| | | lit | s | vs IH | ms IH] using json_ind';
    intros stk rest; try reflexivity.
  - destruct vs as [|x r]; [reflexivity|].
    inversion IH as [|? ? Hx Hr]; subst.
    cbn [tokens app run parseStep parseValue].
    rewrite <- !app_assoc, run_arrayOpen, Hx.
    apply (@run_elems stk rest r x [] Hr).
  - destruct ms as [|[k x] r]; [reflexivity|].
    inversion IH as [|? ? Hx Hr]; subst.
    cbn [tokens app run parseStep parseValue fst snd].
    rewrite <- !app_assoc. cbn [snd] in Hx. rewrite Hx.
    apply (@run_members stk rest r k x [] Hr).
Qed.

Lemma run_tokens_all (v : json) : run (PValue []) (tokens v) = Some v.
Proof.
  rewrite <- (app_nil_r (tokens v)). now rewrite (run_tokens v).
Qed.

Lemma tokens_notNumber (v : json) :
  numberFree v = true -> Forall notNumber (tokens v).
Proof.
  induction v as [| | | lit | s | vs IH | ms IH] using json_ind';
    intros H; cbn [tokens]; try (repeat constructor; fail).
  - discriminate.
  - constructor; [exact I|]. apply Forall_app; split; [|repeat constructor].
    destruct vs as [|x r]; [constructor|].
    cbn [numberFree forallb] in H. apply andb_prop in H as [Hx Hr].
    inversion IH as [|? ? IHx IHr]; subst.
    apply Forall_app; split; [now apply IHx|].
    apply Forall_flat_map, Forall_forall. intros y Hy.
    constructor; [exact I|].
    rewrite Forall_forall in IHr. apply IHr; [assumption|].
    rewrite forallb_forall in Hr. now apply Hr.
  - constructor; [exact I|]. apply Forall_app; split; [|repeat constructor].
    destruct ms as [|[k x] r]; [constructor|].
    cbn [numberFree forallb snd] in H. apply andb_prop in H as [Hx Hr].
    inversion IH as [|? ? IHx IHr]; subst.
    cbn [fst snd] in *.
    constructor; [exact I|]. constructor; [exact I|].
    apply Forall_app; split; [now apply IHx|].
    apply Forall_flat_map, Forall_forall. intros y Hy.
    do 3 (constructor; [exact I|]).
    rewrite Forall_forall in IHr. apply IHr; [assumption|].
    rewrite forallb_forall in Hr. now apply Hr.
Qed.

(** [JSON.parse(JSON.stringify(v))] is [v] for a value with no number. *)
Lemma parse_stringify (v : json) :
  numberFree v = true -> parse (stringify v) = Some v.
Proof.
  intros H. unfold parse, stringify.
  rewrite <- (app_nil_r (printTokens (tokens v))).
  rewrite lex_printTokens by now apply tokens_notNumber.
  cbn [lex lexEnd emit]. rewrite app_nil_r. apply run_tokens_all.
Qed.

(** The text of an array is not the empty string. *)
Lemma stringify_array_truthy (vs : list json) :
  truthy (stringify (JArray vs)) = true.
Proof. reflexivity. Qed.

End JSONFacts.

Import JSONFacts.

(* ================================================================== *)
(** ** Facts about the persisted store *)
(* ================================================================== *)

Lemma traverse_map {A B : Type} (f : B -> A) (g : A -> option B)
  (l : list B) :
  (forall x, g (f x) = Some x) -> traverse g (map f l) = Some l.
Proof.
  intros H. induction l as [|x l IH]; [reflexivity|].
  cbn [map traverse]. now rewrite H, IH.
Qed.

Lemma message_of_json_of_message (m : Message) :
  message_of_json (json_of_message m) = Some m.
Proof.
  unfold json_of_message, message_of_json.
  rewrite !eqb_refl. now destruct m.
Qed.

Lemma conversation_of_json_of_conversation (c : Conversation) :
  conversation_of_json (json_of_conversation c) = Some c.
Proof.
  unfold json_of_conversation, conversation_of_json.
  rewrite !eqb_refl. cbn [andb].
  rewrite (traverse_map _ _ _ message_of_json_of_message).
  now destruct c.
Qed.

Lemma conversations_of_json_of_conversations (cs : list Conversation) :
  conversations_of_json (json_of_conversations cs) = Some cs.
Proof.
  apply (traverse_map _ _ _ conversation_of_json_of_conversation).
Qed.

Lemma numberFree_conversations (cs : list Conversation) :
  numberFree (json_of_conversations cs) = true.
Proof.
  cbn [json_of_conversations numberFree].
  apply forallb_forall. intros j Hj.
  apply in_map_iff in Hj as (c & <- & _).
  cbn [json_of_conversation numberFree forallb snd andb].
  rewrite andb_true_r. apply forallb_forall. intros k Hk.
  apply in_map_iff in Hk as (m & <- & _). reflexivity.
Qed.

(** What [saveConversations] wrote parses back to the store. *)
Lemma parse_saved (cs : list Conversation) :
  JSON.parse (JSON.stringify (json_of_conversations cs))
  = Some (json_of_conversations cs).
Proof. apply parse_stringify, numberFree_conversations. Qed.

Lemma loadConversations_saved (s : PhyChatApp) (cs : list Conversation) :
  localStorage s = Some (JSON.stringify (json_of_conversations cs)) ->
  loadConversations s = Loaded (set_conversations cs s).
Proof.
  intros H. unfold loadConversations. rewrite H.
  unfold json_of_conversations at 1. rewrite stringify_array_truthy.
  fold (json_of_conversations cs).
  now rewrite parse_saved, conversations_of_json_of_conversations.
Qed.

(* ================================================================== *)
(** ** Loading and saving *)
(* ================================================================== *)

(** C2, as the code has it: [loadConversations] yields the empty list when
    nothing is stored (and for the empty string); for a stored text that
    is not JSON the [SyntaxError] of [JSON.parse] reaches the caller. *)
Theorem C2_load_absent_or_malformed (s : PhyChatApp) :
  (localStorage s = None \/ localStorage s = Some [] ->
   exists s1, loadConversations s = Loaded s1 /\ conversations s1 = [])
  /\
  (forall saved,
     localStorage s = Some saved -> saved <> [] ->
     JSON.parse saved = None ->
     loadConversations s = LoadThrows SyntaxError).
Proof.
  split.
  - intros [H|H]; unfold loadConversations; rewrite H;
      eexists; split; reflexivity.
  - intros saved H Hne Hp. unfold loadConversations. rewrite H.
    destruct saved as [|c r]; [congruence|]. cbn [truthy].
    now rewrite Hp.
Qed.

Lemma C2_load_absent_or_malformed_witness :
  (exists s1, loadConversations (constructed None) = Loaded s1
              /\ conversations s1 = [])
  /\ loadConversations (constructed (Some (js "[{")))
     = LoadThrows SyntaxError.
Proof.
  split.
  - apply (proj1 (C2_load_absent_or_malformed (constructed None))).
    left. reflexivity.
  - apply (proj2 (C2_load_absent_or_malformed
                    (constructed (Some (js "[{")))) (js "[{")).
    + reflexivity.
    + discriminate.
    + vm_compute. reflexivity.
Defined.

(** C2 as stated fails: a stored text that is not JSON makes
    [loadConversations] throw, no list is yielded, and the exception
    leaves [init], its caller, too. *)
Lemma C2_counterexample :
  loadConversations (constructed (Some (js "not json")))
  = LoadThrows SyntaxError
  /\ init 1704103200000 (js "2024-01-01T10:00:00.000Z")
          (constructed (Some (js "not json")))
     = LoadThrows SyntaxError
  /\ ~ (exists s1,
          loadConversations (constructed (Some (js "not json"))) = Loaded s1
          /\ conversations s1 = []).
Proof.
  assert (E : loadConversations (constructed (Some (js "not json")))
              = LoadThrows SyntaxError) by (vm_compute; reflexivity).
  split; [exact E|]. split; [unfold init; now rewrite E|].
  intros (s1 & H & _). rewrite E in H. discriminate.
Qed.

(** C9: a list that [loadConversations] returned, once saved, loads again
    as the same list; and when the stored text is a persisted
    conversation list, that is a text that [saveConversations] wrote,
    the load returns the list that was saved and the save after the load
    writes the same text. *)
Theorem C9_load_save_load (s s1 : PhyChatApp) :
  loadConversations s = Loaded s1 ->
  (exists s2, loadConversations (saveConversations s1) = Loaded s2
              /\ conversations s2 = conversations s1)
  /\
  (forall cs,
     localStorage s = Some (JSON.stringify (json_of_conversations cs)) ->
     conversations s1 = cs
     /\ localStorage (saveConversations s1) = localStorage s).
Proof.
  intros H. split.
  - exists (saveConversations s1). split; [|reflexivity].
    now rewrite (@loadConversations_saved (saveConversations s1)
                   (conversations s1)).
  - intros cs Hs. rewrite (loadConversations_saved _ Hs) in H.
    injection H as <-. split; [reflexivity|].
    cbn. now rewrite Hs.
Qed.

Lemma C9_load_save_load_witness :
  loadConversations (appWith sampleConversation)
  = Loaded (appWith sampleConversation)
  /\ (exists s2,
        loadConversations (saveConversations (appWith sampleConversation))
        = Loaded s2
        /\ conversations s2 = conversations (appWith sampleConversation))
  /\ localStorage (saveConversations (appWith sampleConversation))
     = localStorage (appWith sampleConversation).
Proof.
  assert (H : loadConversations (appWith sampleConversation)
              = Loaded (appWith sampleConversation))
    by (vm_compute; reflexivity).
  split; [exact H|]. split.
  - exact (proj1 (C9_load_save_load _ H)).
  - exact (proj2 (proj2 (C9_load_save_load _ H) [sampleConversation]
                        eq_refl)).
Defined.

(* ================================================================== *)
(** ** The store under the operations of the controller *)
(* ================================================================== *)

Lemma strictEq_true (a : jsstring) (x : option jsstring) :
  strictEq a x = true <-> x = Some a.
Proof.
  destruct x as [b|]; simpl; [|split; discriminate].
  rewrite eqb_eq. split; congruence.
Qed.

Lemma findById_absent (x : option jsstring) (cs : list Conversation) :
  (forall i, x = Some i -> ~ In i (map id cs)) -> findById x cs = None.
Proof.
  intros H. unfold findById. induction cs as [|c cs IH]; [reflexivity|].
  cbn [find]. destruct (strictEq (id c) x) eqn:E.
  - apply strictEq_true in E. exfalso. apply (H _ E). now left.
  - apply IH. intros i Hi Hin. apply (H i Hi). now right.
Qed.

Lemma findById_found (x : option jsstring) (cs : list Conversation)
  (c : Conversation) :
  findById x cs = Some c -> In c cs /\ x = Some (id c).
Proof.
  unfold findById. intros H. apply find_some in H as [Hin E].
  now apply strictEq_true in E.
Qed.

Lemma saveMessageToConversation_absent (content type iso : jsstring)
  (s : PhyChatApp) :
  activeConversation s = None ->
  saveMessageToConversation content type iso s = s.
Proof.
  unfold activeConversation, saveMessageToConversation. now intros ->.
Qed.

(** C7: with an active id that no conversation of the store has,
    [saveMessageToConversation] changes nothing: the list, each
    conversation in it and the persisted text stay as they were. *)
Theorem C7_append_absent_noop (content type iso : jsstring)
  (s : PhyChatApp) :
  (forall i, currentConversationId s = Some i ->
             ~ In i (map id (conversations s))) ->
  saveMessageToConversation content type iso s = s.
Proof.
  intros H. apply saveMessageToConversation_absent.
  now apply findById_absent.
Qed.

Lemma C7_append_absent_noop_witness :
  saveMessageToConversation (js "hello") (js "user")
    (js "2024-01-01T10:00:01.000Z")
    (loadConversation (js "42") (appWith sampleConversation))
  = loadConversation (js "42") (appWith sampleConversation).
Proof.
  apply C7_append_absent_noop.
  intros i H. injection H as <-. vm_compute.
  intros [E|[]]. discriminate E.
Defined.

Lemma find_update_first {A : Type} (p : A -> bool) (f : A -> A)
  (l : list A) (x : A) :
  find p l = Some x -> p (f x) = true ->
  find p (update_first p f l) = Some (f x).
Proof.
  intros H Hf. induction l as [|y l IH]; [discriminate|].
  cbn [find update_first] in *. destruct (p y) eqn:E.
  - injection H as ->. cbn [find]. now rewrite Hf.
  - cbn [find]. rewrite E. now apply IH.
Qed.

Lemma id_pushMessage (content type iso : jsstring) (c : Conversation) :
  id (pushMessage content type iso c) = id c.
Proof. unfold pushMessage. now destruct (_ && _). Qed.

Lemma messages_pushMessage (content type iso : jsstring)
  (c : Conversation) :
  messages (pushMessage content type iso c)
  = messages c ++ [{| content := content; type := type;
                      timestamp := iso |}].
Proof. unfold pushMessage. now destruct (_ && _). Qed.

Lemma activeConversation_push (content type iso : jsstring)
  (s : PhyChatApp) (c : Conversation) :
  activeConversation s = Some c ->
  activeConversation (saveMessageToConversation content type iso s)
  = Some (pushMessage content type iso c).
Proof.
  intros H. unfold saveMessageToConversation.
  unfold activeConversation in H. rewrite H.
  unfold activeConversation, findById. cbn.
  apply find_update_first; [exact H|].
  rewrite id_pushMessage. apply find_some in H. apply H.
Qed.

Lemma saved_after_push (content type iso : jsstring) (s : PhyChatApp)
  (c : Conversation) :
  activeConversation s = Some c ->
  localStorage (saveMessageToConversation content type iso s)
  = Some (JSON.stringify
            (json_of_conversations
               (conversations
                  (saveMessageToConversation content type iso s)))).
Proof.
  intros H. unfold saveMessageToConversation.
  unfold activeConversation in H. now rewrite H.
Qed.

Lemma loadConversation_absent (cid : jsstring) (s : PhyChatApp) :
  ~ In cid (map id (conversations s)) ->
  loadConversation cid s = set_currentConversationId (Some cid) s.
Proof.
  intros H. unfold loadConversation. cbn [conversations set_currentConversationId].
  rewrite findById_absent; [reflexivity|].
  now intros i [= <-].
Qed.

Lemma loadConversation_store (cid : jsstring) (s : PhyChatApp) :
  conversations (loadConversation cid s) = conversations s
  /\ currentConversationId (loadConversation cid s) = Some cid
  /\ localStorage (loadConversation cid s) = localStorage s
  /\ isProcessing (loadConversation cid s) = isProcessing s.
Proof.
  unfold loadConversation.
  cbn [conversations set_currentConversationId].
  destruct (findById (Some cid) (conversations s)) as [c|];
    [|now repeat split].
  destruct (messages c) as [|m ms]; [now repeat split|].
  generalize (m :: ms). intros l.
  assert (G : forall t : PhyChatApp,
    let r := fold_left
               (fun s msg =>
                  addMessage (content msg) (type msg) false Elsewhere s)
               l t in
    conversations r = conversations t
    /\ currentConversationId r = currentConversationId t
    /\ localStorage r = localStorage t
    /\ isProcessing r = isProcessing t).
  { induction l as [|x l IH]; intros t; [now repeat split|].
    cbn [fold_left].
    apply (IH (addMessage (content x) (type x) false Elsewhere t)). }
  destruct (G (set_chatMessages [] (set_currentConversationId (Some cid) s)))
    as (A & B & C & D).
  repeat split; assumption.
Qed.

Lemma sendMessage_begin_accepts (iso : jsstring) (welcome : lookup)
  (s : PhyChatApp) :
  isProcessing s = false -> trim (chatInput s) <> [] ->
  sendMessage_begin iso welcome s
  = Some (trim (chatInput s),
          set_isProcessing true
            (showTypingIndicator
               (saveMessageToConversation (trim (chatInput s)) (js "user")
                  iso
                  (addMessage (trim (chatInput s)) (js "user") false welcome
                     (updateSendButtonState (set_chatInput [] s)))))).
Proof.
  intros Hp Ht. unfold sendMessage_begin. rewrite Hp.
  destruct (trim (chatInput s)); [congruence|reflexivity].
Qed.

(** The continuation of a failed wait leaves the store alone. *)
Lemma sendMessage_end_failure (e : error) (iso : jsstring)
  (indicator welcome : lookup) (s : PhyChatApp) :
  conversations (sendMessage_end (Throw e) iso indicator welcome s)
  = conversations s
  /\ currentConversationId (sendMessage_end (Throw e) iso indicator welcome s)
     = currentConversationId s
  /\ localStorage (sendMessage_end (Throw e) iso indicator welcome s)
     = localStorage s
  /\ isProcessing (sendMessage_end (Throw e) iso indicator welcome s) = false
  /\ chatMessages (sendMessage_end (Throw e) iso indicator welcome s)
     = remove_found welcome isWelcomeScreen
         (remove_found indicator isTypingIndicator (chatMessages s))
       ++ [MessageNode errorText (js "assistant") true].
Proof. now repeat split. Qed.

Lemma submit_absent (x : submission) (s : PhyChatApp) :
  activeConversation s = None ->
  conversations (submit x s) = conversations s
  /\ currentConversationId (submit x s) = currentConversationId s
  /\ localStorage (submit x s) = localStorage s.
Proof.
  intros H. unfold submit, sendMessage, sendMessage_begin.
  destruct (negb _ || _); [now repeat split|].
  rewrite saveMessageToConversation_absent by exact H.
  unfold sendMessage_end. destruct (sub_resolver x _) as [response|e].
  - rewrite saveMessageToConversation_absent by exact H. now repeat split.
  - now repeat split.
Qed.

(** C10: switching to an id that the store does not have makes it the
    active id all the same, and from then on every submission leaves the
    list of conversations and the persisted text as they were. *)
Theorem C10_absent_conversation_drops_messages (cid : jsstring)
  (s : PhyChatApp) (xs : list submission) :
  ~ In cid (map id (conversations s)) ->
  currentConversationId (loadConversation cid s) = Some cid
  /\ conversations (submitAll xs (loadConversation cid s)) = conversations s
  /\ localStorage (submitAll xs (loadConversation cid s)) = localStorage s
  /\ currentConversationId (submitAll xs (loadConversation cid s))
     = Some cid.
Proof.
  intros H. rewrite (loadConversation_absent _ _ H).
  split; [reflexivity|].
  assert (G : forall t : PhyChatApp,
    conversations t = conversations s ->
    currentConversationId t = Some cid ->
    conversations (submitAll xs t) = conversations s
    /\ localStorage (submitAll xs t) = localStorage t
    /\ currentConversationId (submitAll xs t) = Some cid).
  { induction xs as [|x xs IH]; intros t Hc Hi; [now repeat split|].
    assert (A : activeConversation t = None).
    { unfold activeConversation. rewrite Hc, Hi.
      apply findById_absent. now intros i [= <-]. }
    destruct (submit_absent x t A) as (E1 & E2 & E3).
    unfold submitAll in *. cbn [fold_left].
    destruct (IH (submit x t)) as (F1 & F2 & F3); [congruence..|].
    repeat split; congruence. }
  apply (G (set_currentConversationId (Some cid) s)); reflexivity.
Qed.

Lemma C10_absent_conversation_drops_messages_witness :
  currentConversationId
    (loadConversation (js "42") (appWith sampleConversation))
  = Some (js "42")
  /\ conversations
       (submitAll [sampleSubmission; failingSubmission]
          (loadConversation (js "42") (appWith sampleConversation)))
     = conversations (appWith sampleConversation)
  /\ localStorage
       (submitAll [sampleSubmission; failingSubmission]
          (loadConversation (js "42") (appWith sampleConversation)))
     = localStorage (appWith sampleConversation)
  /\ currentConversationId
       (submitAll [sampleSubmission; failingSubmission]
          (loadConversation (js "42") (appWith sampleConversation)))
     = Some (js "42").
Proof.
  apply C10_absent_conversation_drops_messages.
  vm_compute. intros [E|[]]. discriminate E.
Defined.

Lemma submit_failure (x : submission) (s : PhyChatApp) (e : error) :
  isProcessing s = false ->
  trim (sub_text x) <> [] ->
  sub_resolver x (trim (sub_text x)) = Throw e ->
  submit x s
  = sendMessage_end (Throw e) (sub_iso2 x) (indicator2 (sub_found x))
      (welcome2 (sub_found x))
      (set_isProcessing true
         (showTypingIndicator
            (saveMessageToConversation (trim (sub_text x)) (js "user")
               (sub_iso1 x)
               (addMessage (trim (sub_text x)) (js "user") false
                  (welcome1 (sub_found x))
                  (updateSendButtonState
                     (set_chatInput [] (set_chatInput (sub_text x) s))))))).
Proof.
  intros Hp Ht Hr. unfold submit, sendMessage.
  rewrite sendMessage_begin_accepts by assumption.
  cbn [chatInput set_chatInput]. now rewrite Hr.
Qed.

(** The store after [saveMessageToConversation] depends on the store
    only, not on what is rendered. *)
Lemma saveMessageToConversation_store (content type iso : jsstring)
  (s t : PhyChatApp) :
  conversations s = conversations t ->
  currentConversationId s = currentConversationId t ->
  localStorage s = localStorage t ->
  conversations (saveMessageToConversation content type iso s)
  = conversations (saveMessageToConversation content type iso t)
  /\ localStorage (saveMessageToConversation content type iso s)
     = localStorage (saveMessageToConversation content type iso t)
  /\ currentConversationId (saveMessageToConversation content type iso s)
     = currentConversationId (saveMessageToConversation content type iso t).
Proof.
  intros Hc Hi Hl. unfold saveMessageToConversation.
  rewrite Hc, Hi. destruct (findById _ _); now repeat split.
Qed.

(** C6: when the resolver fails, the error message is rendered, the
    processing flag is cleared, and the store is the one that the append
    of the user message alone leaves: the transcript of the active
    conversation has gained the user message and nothing else, and that
    is what is persisted.  The part of [sendMessage] that runs after the
    failed wait changes neither the store nor the persisted text, in
    whatever state it is resumed. *)
Theorem C6_resolver_failure (x : submission) (s : PhyChatApp) (e : error) :
  isProcessing s = false ->
  trim (sub_text x) <> [] ->
  sub_resolver x (trim (sub_text x)) = Throw e ->
  isProcessing (submit x s) = false
  /\ (exists shown,
        chatMessages (submit x s)
        = shown ++ [MessageNode errorText (js "assistant") true])
  /\ conversations (submit x s)
     = conversations (saveMessageToConversation (trim (sub_text x))
                        (js "user") (sub_iso1 x) s)
  /\ localStorage (submit x s)
     = localStorage (saveMessageToConversation (trim (sub_text x))
                       (js "user") (sub_iso1 x) s)
  /\ (forall c, activeConversation s = Some c ->
        exists c',
          activeConversation (submit x s) = Some c'
          /\ messages c'
             = messages c ++ [{| content := trim (sub_text x);
                                 type := js "user";
                                 timestamp := sub_iso1 x |}]
          /\ option_map JSON.parse (localStorage (submit x s))
             = Some (Some (json_of_conversations
                             (conversations (submit x s)))))
  /\ (activeConversation s = None ->
      conversations (submit x s) = conversations s
      /\ localStorage (submit x s) = localStorage s)
  /\ (forall iso indicator welcome t,
        conversations (sendMessage_end (Throw e) iso indicator welcome t)
        = conversations t
        /\ localStorage (sendMessage_end (Throw e) iso indicator welcome t)
           = localStorage t
        /\ isProcessing (sendMessage_end (Throw e) iso indicator welcome t)
           = false).
Proof.
  intros Hp Ht Hr. rewrite (submit_failure _ _ Hp Ht Hr).
  set (m := trim (sub_text x)).
  set (s3 := addMessage m (js "user") false (welcome1 (sub_found x))
               (updateSendButtonState
                  (set_chatInput [] (set_chatInput (sub_text x) s)))).
  destruct (@saveMessageToConversation_store m (js "user") (sub_iso1 x)
              s3 s eq_refl eq_refl eq_refl) as (Ec & El & Ei).
  split; [reflexivity|].
  split; [eexists; reflexivity|].
  split; [exact Ec|]. split; [exact El|]. split.
  - intros c Hc.
    assert (Hc3 : activeConversation s3 = Some c) by exact Hc.
    exists (pushMessage m (js "user") (sub_iso1 x) c).
    split; [|split].
    + apply (activeConversation_push m (js "user") (sub_iso1 x)) in Hc3.
      exact Hc3.
    + apply messages_pushMessage.
    + cbn [sendMessage_end localStorage conversations set_isProcessing
           updateSendButtonState set_sendBtn_disabled addMessage
           hideTypingIndicator showTypingIndicator set_chatMessages].
      rewrite (saved_after_push m (js "user") (sub_iso1 x) _ Hc3).
      cbn [option_map]. now rewrite parse_saved.
  - split; [|now repeat split]. intros Hn.
    cbn [sendMessage_end localStorage conversations set_isProcessing
         updateSendButtonState set_sendBtn_disabled addMessage
         hideTypingIndicator showTypingIndicator set_chatMessages].
    rewrite Ec, El. now rewrite saveMessageToConversation_absent.
Qed.

Lemma C6_resolver_failure_witness :
  isProcessing (submit failingSubmission (appWith emptyConversation)) = false
  /\ (exists shown,
        chatMessages (submit failingSubmission (appWith emptyConversation))
        = shown ++ [MessageNode errorText (js "assistant") true])
  /\ (exists c',
        activeConversation
          (submit failingSubmission (appWith emptyConversation)) = Some c'
        /\ messages c'
           = messages emptyConversation
             ++ [{| content := trim (sub_text failingSubmission);
                    type := js "user";
                    timestamp := sub_iso1 failingSubmission |}]).
Proof.
  destruct (@C6_resolver_failure failingSubmission
              (appWith emptyConversation) OtherError)
    as (H1 & H2 & _ & _ & H5 & _).
  - reflexivity.
  - vm_compute. discriminate.
  - reflexivity.
  - split; [exact H1|]. split; [exact H2|].
    destruct (H5 emptyConversation) as (c' & A & B & _).
    + vm_compute. reflexivity.
    + exists c'. split; assumption.
Defined.

(* ================================================================== *)
(** ** The title *)
(* ================================================================== *)

Lemma filter_isUser_none (ms : list Message) :
  (forall m, In m ms -> type m <> js "user") -> filter isUser ms = [].
Proof.
  induction ms as [|m ms IH]; intros H; [reflexivity|].
  cbn [filter]. unfold isUser at 1.
  destruct (eqb (type m) (js "user")) eqn:E.
  - apply eqb_eq in E. exfalso. apply (H m); [now left|assumption].
  - apply IH. intros m' Hm'. apply H. now right.
Qed.

Lemma isUser_iff (m : Message) : isUser m = true <-> type m = js "user".
Proof. apply eqb_eq. Qed.

Lemma title_first_user (text iso : jsstring) (c : Conversation) :
  filter isUser (messages c) = [] ->
  title (pushMessage text (js "user") iso c)
  = substring0 30 text
      ++ (if (30 <? List.length text)%nat then js "..." else []).
Proof.
  intros H. unfold pushMessage. rewrite eqb_refl.
  cbn [messages set_messages]. rewrite filter_app, H.
  cbn [filter app]. rewrite (proj2 (isUser_iff _)) by reflexivity.
  reflexivity.
Qed.

(** Once a user message is there, no append changes the title. *)
Lemma title_later (content type iso : jsstring) (c : Conversation) :
  (1 <= List.length (filter isUser (messages c)))%nat ->
  title (pushMessage content type iso c) = title c
  /\ (1 <= List.length
             (filter isUser (messages (pushMessage content type iso c))))%nat.
Proof.
  intros H. split.
  - unfold pushMessage. cbn [messages set_messages].
    destruct (eqb type (js "user")) eqn:E; [|reflexivity].
    rewrite filter_app, length_app. cbn [filter].
    rewrite (proj2 (isUser_iff _)) by (now apply eqb_eq in E).
    cbn [andb List.length].
    destruct (Nat.eqb_spec
                (List.length (filter isUser (messages c)) + 1) 1);
      [lia|reflexivity].
  - rewrite messages_pushMessage, filter_app, length_app. lia.
Qed.

Lemma appendAll_title (later : list append_call) :
  forall (s : PhyChatApp) (c : Conversation),
    activeConversation s = Some c ->
    (1 <= List.length (filter isUser (messages c)))%nat ->
    exists c2, activeConversation (appendAll later s) = Some c2
               /\ title c2 = title c.
Proof.
  induction later as [|a later IH]; intros s c Hc Hn.
  - now exists c.
  - unfold appendAll. cbn [fold_left].
    pose proof (activeConversation_push (app_content a) (app_type a)
                  (app_iso a) _ Hc) as Hc'.
    destruct (title_later (app_content a) (app_type a) (app_iso a) c Hn)
      as [Ht Hn'].
    destruct (IH _ _ Hc' Hn') as (c2 & A & B).
    exists c2. split; [exact A|congruence].
Qed.

(** C5: after the append of the first message of type [user], the title
    of the conversation is the text when it has at most 30 code units,
    and its first 30 code units followed by three dots otherwise; the
    appends that follow leave the title as it is. *)
Theorem C5_title_of_first_user_message (s : PhyChatApp) (c : Conversation)
  (text iso : jsstring) (later : list append_call) :
  activeConversation s = Some c ->
  (forall m, In m (messages c) -> type m <> js "user") ->
  exists c1,
    activeConversation (saveMessageToConversation text (js "user") iso s)
    = Some c1
    /\ id c1 = id c
    /\ ((List.length text <= 30)%nat -> title c1 = text)
    /\ ((30 < List.length text)%nat -> title c1 = firstn 30 text ++ js "...")
    /\ exists c2,
         activeConversation
           (appendAll later
              (saveMessageToConversation text (js "user") iso s)) = Some c2
         /\ title c2 = title c1.
Proof.
  intros Hc Hfirst.
  pose proof (filter_isUser_none _ Hfirst) as Hnone.
  exists (pushMessage text (js "user") iso c).
  split; [now apply activeConversation_push|].
  split; [apply id_pushMessage|].
  rewrite (title_first_user text iso c Hnone). unfold substring0.
  split; [|split].
  - intros Hle. rewrite firstn_all2 by assumption.
    destruct (Nat.ltb_spec 30 (List.length text)); [lia|].
    apply app_nil_r.
  - intros Hlt.
    destruct (Nat.ltb_spec 30 (List.length text)); [reflexivity|lia].
  - destruct (@appendAll_title later
                (saveMessageToConversation text (js "user") iso s)
                (pushMessage text (js "user") iso c)) as (c2 & A & B).
    + now apply activeConversation_push.
    + rewrite messages_pushMessage, filter_app, length_app.
      cbn [filter]. rewrite (proj2 (isUser_iff _)) by reflexivity.
      cbn [List.length]. lia.
    + exists c2. split; [exact A|].
      now rewrite B, (title_first_user text iso c Hnone).
Qed.

Lemma C5_title_of_first_user_message_witness :
  exists c1,
    activeConversation
      (saveMessageToConversation
         (js "Explain the second law of thermodynamics") (js "user")
         (js "2024-01-01T10:00:01.000Z") (appWith emptyConversation))
    = Some c1
    /\ title c1 = js "Explain the second law of ther..."
    /\ exists c2,
         activeConversation
           (appendAll
              [{| app_content := thermodynamics_response;
                  app_type := js "assistant";
                  app_iso := js "2024-01-01T10:00:03.000Z" |};
               {| app_content := js "And the third?";
                  app_type := js "user";
                  app_iso := js "2024-01-01T10:00:09.000Z" |}]
              (saveMessageToConversation
                 (js "Explain the second law of thermodynamics") (js "user")
                 (js "2024-01-01T10:00:01.000Z") (appWith emptyConversation)))
         = Some c2
         /\ title c2 = title c1.
Proof.
  destruct (@C5_title_of_first_user_message (appWith emptyConversation)
              emptyConversation
              (js "Explain the second law of thermodynamics")
              (js "2024-01-01T10:00:01.000Z")
              [{| app_content := thermodynamics_response;
                  app_type := js "assistant";
                  app_iso := js "2024-01-01T10:00:03.000Z" |};
               {| app_content := js "And the third?";
                  app_type := js "user";
                  app_iso := js "2024-01-01T10:00:09.000Z" |}])
    as (c1 & A & _ & _ & B & C).
  - vm_compute. reflexivity.
  - intros m [].
  - exists c1. split; [exact A|]. split; [|exact C].
    rewrite B; [vm_compute; reflexivity|]. vm_compute. lia.
Defined.

(* ================================================================== *)
(** ** Creation and deletion *)
(* ================================================================== *)

Lemma createNewConversation_store (now : Z) (iso : jsstring)
  (s : PhyChatApp) :
  conversations (createNewConversation now iso s)
  = newConversation now iso :: conversations s
  /\ currentConversationId (createNewConversation now iso s)
     = Some (Z_toString now)
  /\ localStorage (createNewConversation now iso s)
     = Some (JSON.stringify
               (json_of_conversations
                  (newConversation now iso :: conversations s))).
Proof.
  unfold createNewConversation.
  destruct (loadConversation_store (id (newConversation now iso))
              (saveConversations
                 (set_conversations
                    (newConversation now iso :: conversations s) s)))
    as (A & B & C & _).
  rewrite A, B, C. now repeat split.
Qed.

Lemma createAll_conversations (calls : list (Z * jsstring)) :
  forall s : PhyChatApp,
    conversations (createAll calls s)
    = rev (map (fun c => newConversation (fst c) (snd c)) calls)
      ++ conversations s.
Proof.
  induction calls as [|c calls IH]; intros s; [reflexivity|].
  unfold createAll in *. cbn [fold_left map rev].
  rewrite IH, (proj1 (createNewConversation_store _ _ _)).
  now rewrite <- app_assoc.
Qed.

(** C1, as the code has it: every call of [createNewConversation] puts
    the new conversation in front, so that after a sequence of calls the
    list holds the new conversations, the latest first, before the old
    ones; the ids are pairwise distinct when they were so before, the
    clock readings of the calls are pairwise distinct, and none of them
    is the id of a conversation that was already there. *)
Theorem C1_create_front_and_distinct_ids (calls : list (Z * jsstring))
  (s : PhyChatApp) :
  conversations (createAll calls s)
  = rev (map (fun c => newConversation (fst c) (snd c)) calls)
    ++ conversations s
  /\ (NoDup (map id (conversations s)) ->
      NoDup (map fst calls) ->
      (forall now, In now (map fst calls) ->
                   ~ In (Z_toString now) (map id (conversations s))) ->
      NoDup (map id (conversations (createAll calls s)))).
Proof.
  split; [apply createAll_conversations|].
  intros Hs Hc Hfresh. rewrite createAll_conversations.
  rewrite map_app, map_rev, map_map. cbn [id newConversation].
  apply NoDup_app; [apply NoDup_rev| assumption |].
  - rewrite <- (map_map fst Z_toString).
    apply NoDup_map_NoDup_ForallPairs; [|assumption].
    intros a b _ _. apply Z_toString_inj.
  - intros i Hi. apply in_rev in Hi.
    apply in_map_iff in Hi as (c & <- & Hin).
    apply Hfresh. now apply in_map.
Qed.

Lemma C1_create_front_and_distinct_ids_witness :
  NoDup (map id
           (conversations
              (createAll [(1704103200001%Z, js "2024-01-01T10:00:00.001Z");
                          (1704103260000%Z, js "2024-01-01T10:01:00.000Z")]
                         (appWith sampleConversation)))).
Proof.
  apply (proj2 (C1_create_front_and_distinct_ids
                  [(1704103200001%Z, js "2024-01-01T10:00:00.001Z");
                   (1704103260000%Z, js "2024-01-01T10:01:00.000Z")]
                  (appWith sampleConversation))).
  - vm_compute. repeat constructor. intros [].
  - cbn [map fst]. repeat constructor.
    + intros [E|[]]. discriminate E.
    + intros [].
  - intros now Hin. vm_compute.
    cbn [map fst In] in Hin.
    destruct Hin as [<-|[<-|[]]]; vm_compute; intros [E|[]];
      discriminate E.
Defined.

(** C1 as stated fails: two calls within the same millisecond give two
    conversations the same id. *)
Lemma C1_counterexample :
  map id
    (conversations
       (createAll [(1704103200000%Z, js "2024-01-01T10:00:00.000Z");
                   (1704103200000%Z, js "2024-01-01T10:00:00.000Z")]
                  (constructed None)))
  = [js "1704103200000"; js "1704103200000"]
  /\ ~ NoDup
       (map id
          (conversations
             (createAll [(1704103200000%Z, js "2024-01-01T10:00:00.000Z");
                         (1704103200000%Z, js "2024-01-01T10:00:00.000Z")]
                        (constructed None)))).
Proof.
  assert (E : map id
    (conversations
       (createAll [(1704103200000%Z, js "2024-01-01T10:00:00.000Z");
                   (1704103200000%Z, js "2024-01-01T10:00:00.000Z")]
                  (constructed None)))
    = [js "1704103200000"; js "1704103200000"])
    by (vm_compute; reflexivity).
  split; [exact E|]. rewrite E. intros H.
  inversion H as [|? ? Hn _]; subst. apply Hn. now left.
Qed.

Lemma findById_filtered (cid : jsstring) (cs : list Conversation) :
  findById (Some cid) (filter (fun c => negb (eqb (id c) cid)) cs) = None.
Proof.
  apply findById_absent. intros i [= <-] Hin.
  apply in_map_iff in Hin as (c & E & Hc).
  apply filter_In in Hc as [_ Hc]. rewrite E, eqb_refl in Hc. discriminate.
Qed.

Lemma filter_id_none (i : jsstring) (l : list Conversation) :
  ~ In i (map id l) -> filter (fun c => strictEq (id c) (Some i)) l = [].
Proof.
  induction l as [|c l IH]; intros H; [reflexivity|].
  cbn [filter]. destruct (strictEq (id c) (Some i)) eqn:E.
  - apply strictEq_true in E. injection E as E.
    exfalso. apply H. now left.
  - apply IH. intros Hin. apply H. now right.
Qed.

(** With distinct ids, one conversation carries the id of a member. *)
Lemma count_id_NoDup (l : list Conversation) (c : Conversation) :
  NoDup (map id l) -> In c l ->
  List.length (filter (fun c' => strictEq (id c') (Some (id c))) l) = 1%nat.
Proof.
  induction l as [|x l IH]; intros Hnd Hin; [destruct Hin|].
  cbn [map] in Hnd. inversion Hnd as [|? ? Hx Hl]; subst.
  cbn [filter]. destruct (strictEq (id x) (Some (id c))) eqn:E.
  - apply strictEq_true in E. injection E as E.
    cbn [List.length]. f_equal.
    rewrite filter_id_none; [reflexivity|].
    destruct Hin as [->|Hin]; [assumption|].
    exfalso. apply Hx. rewrite <- E. now apply in_map.
  - destruct Hin as [->|Hin]; [|now apply IH].
    cbn [strictEq] in E. rewrite eqb_refl in E. discriminate.
Qed.

(** Removing conversations keeps the ids distinct. *)
Lemma distinct_ids_filter (keep : Conversation -> bool)
  (cs : list Conversation) :
  NoDup (map id cs) -> NoDup (map id (filter keep cs)).
Proof.
  intros Hnd. induction cs as [|c cs IH]; [constructor|].
  cbn [map] in Hnd. apply NoDup_cons_iff in Hnd as [Hc Hcs].
  cbn [filter]. destruct (keep c); [|now apply IH].
  cbn [map]. apply NoDup_cons; [|now apply IH].
  intros Hin. apply Hc. apply in_map_iff in Hin as (y & E & Hy).
  apply filter_In in Hy as [Hy _]. rewrite <- E. now apply in_map.
Qed.

(** C8, as the code has it.  After [deleteConversation] no conversation
    has the deleted id, unless the deleted conversation was the active
    and the last one and the conversation created in its place got the
    same id from the clock.  When the deleted conversation was the
    active one, the active conversation is afterwards the first of those
    that remain, or the one just created when none remains; with
    distinct ids it is the only one that carries the active id. *)
Theorem C8_delete_then_find (cid : jsstring) (now : Z) (iso : jsstring)
  (s : PhyChatApp) :
  ((currentConversationId s = Some cid ->
    filter (fun c => negb (eqb (id c) cid)) (conversations s) = [] ->
    Z_toString now <> cid) ->
   findById (Some cid) (conversations (deleteConversation cid now iso s))
   = None)
  /\
  (currentConversationId s = Some cid ->
   (forall c0 rest,
      filter (fun c => negb (eqb (id c) cid)) (conversations s) = c0 :: rest ->
      conversations (deleteConversation cid now iso s) = c0 :: rest
      /\ activeConversation (deleteConversation cid now iso s) = Some c0)
   /\
   (filter (fun c => negb (eqb (id c) cid)) (conversations s) = [] ->
    conversations (deleteConversation cid now iso s)
    = [newConversation now iso]
    /\ activeConversation (deleteConversation cid now iso s)
       = Some (newConversation now iso))
   /\
   (NoDup (map id (conversations s)) ->
    activeCount (deleteConversation cid now iso s) = 1%nat)).
Proof.
  unfold deleteConversation.
  cbn [conversations currentConversationId saveConversations
       set_conversations set_localStorage].
  set (remaining := filter (fun c => negb (eqb (id c) cid)) (conversations s)).
  set (s2 := saveConversations (set_conversations remaining s)).
  assert (Hs2 : conversations s2 = remaining) by reflexivity.
  split.
  - intros Hclock. destruct (strictEq cid (currentConversationId s)) eqn:E.
    + apply strictEq_true in E. destruct remaining as [|c0 rest] eqn:R.
      * rewrite (proj1 (createNewConversation_store now iso s2)).
        apply findById_absent. intros i [= <-] [Hin|[]].
        now apply (Hclock E).
      * rewrite (proj1 (loadConversation_store (id c0) s2)), Hs2, <- R.
        apply findById_filtered.
    + apply findById_filtered.
  - intros Hcur. rewrite Hcur. cbn [strictEq]. rewrite eqb_refl.
    split; [|split].
    + intros c0 rest R. rewrite R.
      destruct (loadConversation_store (id c0) s2) as (A & B & _).
      unfold activeConversation. rewrite A, B, Hs2, R.
      split; [reflexivity|].
      unfold findById. cbn [find strictEq]. now rewrite eqb_refl.
    + intros R. rewrite R.
      destruct (createNewConversation_store now iso s2) as (A & B & _).
      unfold activeConversation. rewrite A, B, Hs2, R.
      split; [reflexivity|].
      unfold findById. cbn [find strictEq id newConversation].
      now rewrite eqb_refl.
    + intros Hnd. unfold activeCount.
      destruct remaining as [|c0 rest] eqn:R.
      * destruct (createNewConversation_store now iso s2) as (A & B & _).
        rewrite A, B, Hs2.
        cbn [filter strictEq id newConversation].
        now rewrite eqb_refl.
      * destruct (loadConversation_store (id c0) s2) as (A & B & _).
        rewrite A, B, Hs2. apply count_id_NoDup; [|now left].
        rewrite <- R. now apply distinct_ids_filter.
Qed.

Lemma C8_delete_then_find_witness :
  findById (Some (js "1704103260000"))
    (conversations
       (deleteConversation (js "1704103260000") 1704103300000
          (js "2024-01-01T10:01:40.000Z") sampleStore)) = None
  /\ activeConversation
       (deleteConversation (js "1704103260000") 1704103300000
          (js "2024-01-01T10:01:40.000Z") sampleStore)
     = Some (newConversation 1704103200001 (js "2024-01-01T10:00:00.001Z"))
  /\ activeCount
       (deleteConversation (js "1704103260000") 1704103300000
          (js "2024-01-01T10:01:40.000Z") sampleStore) = 1%nat.
Proof.
  destruct (C8_delete_then_find (js "1704103260000") 1704103300000
              (js "2024-01-01T10:01:40.000Z") sampleStore) as [H1 H2].
  split.
  - apply H1. intros _ _. vm_compute. discriminate.
  - destruct H2 as (A & _ & C); [vm_compute; reflexivity|].
    split.
    + apply (A (newConversation 1704103200001
                  (js "2024-01-01T10:00:00.001Z")) [sampleConversation]).
      vm_compute. reflexivity.
    + apply C. vm_compute. repeat constructor.
      * intros [E|[E|[]]]; discriminate E.
      * intros [E|[]]; discriminate E.
      * intros [].
Defined.

(** C8 as stated fails: the last conversation is deleted while it is
    active, the clock reads the number that is its id, and the
    conversation created in its place is found under the deleted id. *)
Lemma C8_counterexample :
  findById (Some (js "1704103200000"))
    (conversations
       (deleteConversation (js "1704103200000") 1704103200000
          (js "2024-01-01T10:00:00.000Z") (appWith emptyConversation)))
  = Some emptyConversation.
Proof. vm_compute. reflexivity. Qed.

(* ================================================================== *)
(** ** The persisted message records *)
(* ================================================================== *)

Lemma persistedMessages_saved (cs : list Conversation) :
  persistedMessages (json_of_conversations cs)
  = map json_of_message (flat_map messages cs).
Proof.
  unfold json_of_conversations, persistedMessages.
  induction cs as [|c cs IH]; [reflexivity|].
  cbn [map flat_map]. rewrite IH, map_app. reflexivity.
Qed.

Lemma in_update_first {A : Type} (p : A -> bool) (f : A -> A)
  (l : list A) (x : A) :
  In x (update_first p f l) -> In x l \/ exists y, In y l /\ x = f y.
Proof.
  induction l as [|y l IH]; [intros []|].
  cbn [update_first]. destruct (p y).
  - intros [<-|H]; [right; exists y; split; [now left|reflexivity]|].
    left. now right.
  - intros [<-|H]; [left; now left|].
    destruct (IH H) as [H'|(z & Hz & ->)]; [left; now right|].
    right. exists z. split; [now right|reflexivity].
Qed.

Lemma userOrAssistant_save (content type iso : jsstring) (s : PhyChatApp) :
  type = js "user" \/ type = js "assistant" ->
  userOrAssistant (conversations s) ->
  userOrAssistant (conversations
                     (saveMessageToConversation content type iso s)).
Proof.
  intros Ht H. unfold saveMessageToConversation.
  destruct (findById _ _) as [found|]; [|assumption].
  cbn [conversations saveConversations set_localStorage set_conversations].
  intros c m Hc Hm.
  apply in_update_first in Hc as [Hc|(c0 & Hc0 & ->)];
    [now apply (H c m)|].
  rewrite messages_pushMessage in Hm.
  apply in_app_or in Hm as [Hm|[<-|[]]]; [now apply (H c0 m)|].
  exact Ht.
Qed.

Lemma sendMessage_begin_store (iso m : jsstring) (welcome : lookup)
  (s s1 : PhyChatApp) :
  sendMessage_begin iso welcome s = Some (m, s1) ->
  conversations s1
  = conversations (saveMessageToConversation m (js "user") iso s)
  /\ localStorage s1
     = localStorage (saveMessageToConversation m (js "user") iso s)
  /\ currentConversationId s1 = currentConversationId s.
Proof.
  unfold sendMessage_begin. destruct (negb _ || _); [discriminate|].
  intros [= <- <-].
  set (m := trim (chatInput s)).
  destruct (@saveMessageToConversation_store m (js "user") iso
              (addMessage m (js "user") false welcome
                 (updateSendButtonState (set_chatInput [] s)))
              s eq_refl eq_refl eq_refl) as (A & B & C).
  split; [exact A|]. split; [exact B|].
  cbn [currentConversationId set_isProcessing showTypingIndicator
       set_chatMessages].
  rewrite C. unfold saveMessageToConversation.
  now destruct (findById _ _).
Qed.

Lemma sendMessage_end_store (response iso : jsstring)
  (indicator welcome : lookup) (s : PhyChatApp) :
  conversations (sendMessage_end (Normal response) iso indicator welcome s)
  = conversations (saveMessageToConversation response (js "assistant") iso s)
  /\ localStorage
       (sendMessage_end (Normal response) iso indicator welcome s)
     = localStorage
         (saveMessageToConversation response (js "assistant") iso s).
Proof.
  destruct (@saveMessageToConversation_store response (js "assistant") iso
              (addMessage response (js "assistant") false welcome
                 (hideTypingIndicator indicator s))
              s eq_refl eq_refl eq_refl) as (A & B & _).
  split; [exact A|exact B].
Qed.

(* ================================================================== *)
(** ** The resolver *)
(* ================================================================== *)

Lemma keywords_lower_case :
  Forall (fun e => toLowerCase (fst e) = fst e) responses.
Proof. repeat constructor. Qed.

(** For a keyword in lower case, the test of the loop is the occurrence
    of the keyword in the message in any case. *)
Lemma includes_iff_occurs (k message : jsstring) :
  toLowerCase k = k ->
  includes (toLowerCase message) k = true <-> occursIgnoringCase k message.
Proof.
  intros Hk. rewrite includes_spec. unfold occursIgnoringCase,
    sameIgnoringCase. rewrite Hk. split.
  - intros (pre' & post' & E). unfold toLowerCase in E.
    apply map_eq_app in E as (pre & r & -> & Hpre & E).
    apply map_eq_app in E as (mid & post & -> & Hmid & Hpost).
    now exists pre, mid, post.
  - intros (pre & mid & post & -> & Hmid).
    exists (toLowerCase pre), (toLowerCase post).
    now rewrite !toLowerCase_app, Hmid.
Qed.

Lemma firstResponse_skip (lowerMessage : jsstring)
  (pre rest : list (jsstring * jsstring)) :
  (forall e, In e pre -> includes lowerMessage (fst e) = false) ->
  firstResponse lowerMessage (pre ++ rest) = firstResponse lowerMessage rest.
Proof.
  induction pre as [|[k r] pre IH]; intros H; [reflexivity|].
  cbn [app firstResponse].
  pose proof (H (k, r) (or_introl eq_refl)) as Hk. cbn [fst] in Hk.
  rewrite Hk. apply IH. intros e He. apply H. now right.
Qed.

(** C4: [getAIResponse] returns the response of the first keyword of the
    table, in the order of the table, that occurs in the message whatever
    the case of the letters, and the default response when none occurs;
    a message in which [Newton] occurs in any case gets the response on
    Newton. *)
Theorem C4_resolver_first_keyword (message : jsstring) :
  (forall pre k response post,
     responses = pre ++ (k, response) :: post ->
     occursIgnoringCase k message ->
     (forall e, In e pre -> ~ occursIgnoringCase (fst e) message) ->
     getAIResponse message = response)
  /\ ((forall e, In e responses -> ~ occursIgnoringCase (fst e) message) ->
      getAIResponse message = default_response)
  /\ (occursIgnoringCase (js "Newton") message ->
      getAIResponse message = newton_response).
Proof.
  assert (L : forall e, In e responses -> toLowerCase (fst e) = fst e)
    by (apply Forall_forall, keywords_lower_case).
  assert (First : forall pre k response post,
     responses = pre ++ (k, response) :: post ->
     occursIgnoringCase k message ->
     (forall e, In e pre -> ~ occursIgnoringCase (fst e) message) ->
     getAIResponse message = response).
  { intros pre k response post E Hk Hpre. unfold getAIResponse.
    rewrite E, firstResponse_skip.
    - assert (Lk : toLowerCase k = k).
      { apply (L (k, response)). rewrite E. apply in_elt. }
      cbn [firstResponse].
      now rewrite (proj2 (includes_iff_occurs message Lk) Hk).
    - intros e He.
      destruct (includes (toLowerCase message) (fst e)) eqn:I;
        [|reflexivity].
      exfalso. apply (Hpre e He).
      apply includes_iff_occurs; [|assumption].
      apply L. rewrite E. apply in_or_app. now left. }
  split; [exact First|]. split.
  - intros Hnone. unfold getAIResponse.
    rewrite <- (app_nil_r responses), firstResponse_skip; [reflexivity|].
    intros e He.
    destruct (includes (toLowerCase message) (fst e)) eqn:I; [|reflexivity].
    exfalso. apply (Hnone e He). apply includes_iff_occurs; auto.
  - intros (pre & mid & post & E & Hmid).
    apply (First [] (js "newton") newton_response (tl responses));
      [reflexivity| |intros e []].
    exists pre, mid, post. split; [exact E|].
    unfold sameIgnoringCase in *. rewrite Hmid. reflexivity.
Qed.

Lemma C4_resolver_first_keyword_witness :
  getAIResponse (js "Is NEWTONIAN gravity a quantum theory?")
  = newton_response
  /\ getAIResponse (js "Explain Thermodynamics") = thermodynamics_response
  /\ getAIResponse (js "What is a photon?") = default_response.
Proof.
  assert (No : forall message e,
            In e responses ->
            includes (toLowerCase message) (fst e) = false ->
            ~ occursIgnoringCase (fst e) message).
  { intros message e He Hi Ho.
    apply includes_iff_occurs in Ho.
    - rewrite Hi in Ho. discriminate Ho.
    - pose proof keywords_lower_case as K.
      rewrite Forall_forall in K. exact (K e He). }
  split; [|split].
  - apply (proj2 (proj2 (C4_resolver_first_keyword
                           (js "Is NEWTONIAN gravity a quantum theory?")))).
    exists (js "Is "), (js "NEWTON"), (js "IAN gravity a quantum theory?").
    split; vm_compute; reflexivity.
  - apply (proj1 (C4_resolver_first_keyword (js "Explain Thermodynamics"))
                 [(js "newton", newton_response);
                  (js "quantum", quantum_response)]
                 (js "thermodynamics") thermodynamics_response
                 [(js "electromagnetism", electromagnetism_response);
                  (js "relativity", relativity_response);
                  (js "default", default_response)]).
    + reflexivity.
    + exists (js "Explain "), (js "Thermodynamics"), [].
      split; vm_compute; reflexivity.
    + intros e [<-|[<-|[]]].
      * apply No; [left; reflexivity|vm_compute; reflexivity].
      * apply No; [right; left; reflexivity|vm_compute; reflexivity].
  - apply (proj1 (proj2 (C4_resolver_first_keyword
                           (js "What is a photon?")))).
    intros e He. apply No; [exact He|].
    destruct He as [<-|[<-|[<-|[<-|[<-|[<-|[]]]]]]];
      vm_compute; reflexivity.
Defined.

(* ================================================================== *)
(** ** A run of the page *)
(* ================================================================== *)

(** The six responses are six different texts. *)
Lemma responses_distinct : NoDup (map snd responses).
Proof.
  repeat (apply NoDup_cons;
          [cbn [In map snd responses]; vm_compute; intuition discriminate|]).
  constructor.
Qed.

(** With nothing stored, [init] creates a conversation, makes it the
    active one, shows the welcome screen and persists the list. *)
Example init_empty_storage :
  exists s,
    init 1704103200000 (js "2024-01-01T10:00:00.000Z") (constructed None)
    = Loaded s
    /\ conversations s = [emptyConversation]
    /\ activeConversation s = Some emptyConversation
    /\ chatMessages s = [WelcomeScreen]
    /\ option_map JSON.parse (localStorage s)
       = Some (Some (json_of_conversations [emptyConversation])).
Proof.
  eexists. split; [vm_compute; reflexivity|].
  repeat split; vm_compute; reflexivity.
Qed.

(** The scenario of the specification: a first question on quantum
    mechanics gives the conversation its title, the resolver answers
    with the response on quantum mechanics, and the transcript holds the
    two messages, the user message first. *)
Example scenario_quantum :
  exists c,
    activeConversation
      (submit {| sub_text := js "What is quantum mechanics?";
                 sub_resolver := getAIResponse_async;
                 sub_iso1 := js "2024-01-01T10:00:01.000Z";
                 sub_iso2 := js "2024-01-01T10:00:03.000Z";
                 sub_found := plain |}
              (appWith emptyConversation)) = Some c
    /\ title c = js "What is quantum mechanics?"
    /\ map (fun m => (type m, content m)) (messages c)
       = [(js "user", js "What is quantum mechanics?");
          (js "assistant", quantum_response)].
Proof.
  eexists. split; [vm_compute; reflexivity|].
  split; vm_compute; reflexivity.
Qed.

(* ================================================================== *)
(** ** The guard of [sendMessage] *)
(* ================================================================== *)

Lemma trimStart_blank (s : jsstring) :
  trimStart s = [] <-> forallb isWhiteSpace s = true.
Proof.
  induction s as [|c s IH]; cbn [trimStart forallb]; [tauto|].
  destruct (isWhiteSpace c); cbn [andb]; [exact IH|].
  split; discriminate.
Qed.

Lemma forallb_rev {A : Type} (p : A -> bool) (l : list A) :
  forallb p (rev l) = forallb p l.
Proof.
  induction l as [|x l IH]; [reflexivity|].
  cbn [rev forallb]. rewrite forallb_app, IH. cbn [forallb].
  destruct (p x), (forallb p l); reflexivity.
Qed.

Lemma trimStart_head (s : jsstring) (c : code_unit) (r : jsstring) :
  trimStart s = c :: r -> isWhiteSpace c = false.
Proof.
  induction s as [|d s IH]; cbn [trimStart]; [discriminate|].
  destruct (isWhiteSpace d) eqn:E; [exact IH|].
  intros [= <- _]. exact E.
Qed.

(** [trim] leaves nothing exactly of the strings made of white space. *)
Lemma trim_blank (s : jsstring) :
  trim s = [] <-> forallb isWhiteSpace s = true.
Proof.
  unfold trim, trimEnd. split.
  - intros H. apply (f_equal (@rev code_unit)) in H.
    rewrite rev_involutive in H. cbn [rev] in H.
    apply trimStart_blank in H. rewrite forallb_rev in H.
    destruct (trimStart s) as [|c r] eqn:E; [now apply trimStart_blank|].
    apply trimStart_head in E. cbn [forallb] in H. rewrite E in H.
    discriminate.
  - intros H. apply trimStart_blank in H. now rewrite H.
Qed.

Lemma sendMessage_begin_rejects (iso : jsstring) (welcome : lookup)
  (s : PhyChatApp) :
  sendMessage_begin iso welcome s = None
  <-> forallb isWhiteSpace (chatInput s) = true \/ isProcessing s = true.
Proof.
  unfold sendMessage_begin. rewrite <- trim_blank.
  destruct (trim (chatInput s)) as [|c r]; cbn [truthy negb orb].
  - split; [now left|reflexivity].
  - destruct (isProcessing s).
    + split; [now right|reflexivity].
    + split; [discriminate|intros [H|H]; discriminate].
Qed.

(** X1: [sendMessage] returns at once, and changes nothing, exactly when
    the input field holds only white space (or nothing) or a response is
    awaited. *)
Theorem X1_send_guard (resolver : jsstring -> completion jsstring)
  (iso1 iso2 : jsstring) (found : lookups) (s : PhyChatApp) :
  (sendMessage_begin iso1 (welcome1 found) s = None
   <-> forallb isWhiteSpace (chatInput s) = true \/ isProcessing s = true)
  /\ (forallb isWhiteSpace (chatInput s) = true \/ isProcessing s = true ->
      sendMessage resolver iso1 iso2 found s = s).
Proof.
  pose proof (sendMessage_begin_rejects iso1 (welcome1 found) s) as G.
  split; [exact G|].
  intros H. unfold sendMessage. now rewrite (proj2 G H).
Qed.

Lemma X1_send_guard_witness :
  sendMessage getAIResponse_async (js "2024-01-01T10:00:01.000Z")
    (js "2024-01-01T10:00:03.000Z") plain
    (set_chatInput [32; 9; 10; 160; 8202; 32]%N
       (appWith sampleConversation))
  = set_chatInput [32; 9; 10; 160; 8202; 32]%N
      (appWith sampleConversation).
Proof.
  apply (proj2 (X1_send_guard getAIResponse_async
                  (js "2024-01-01T10:00:01.000Z")
                  (js "2024-01-01T10:00:03.000Z") plain
                  (set_chatInput [32; 9; 10; 160; 8202; 32]%N
                     (appWith sampleConversation)))).
  left. vm_compute. reflexivity.
Defined.

(* ================================================================== *)
(** ** The pane and the stored transcript *)
(* ================================================================== *)

Lemma remove_first_none (p : node -> bool) (l : list node) :
  (forall n, In n l -> p n = false) -> remove_first p l = l.
Proof.
  induction l as [|x l IH]; intros H; [reflexivity|].
  cbn [remove_first]. rewrite (H x) by now left.
  f_equal. apply IH. intros n Hn. apply H. now right.
Qed.

(** On a pane without a welcome screen, what the lookup of [addMessage]
    finds makes no difference to the nodes of the pane: so it is while
    [loadConversation] adds the messages. *)
Lemma addMessage_no_welcome (content type : jsstring) (isError : bool)
  (found : lookup) (s : PhyChatApp) :
  (forall n, In n (chatMessages s) -> isWelcomeScreen n = false) ->
  addMessage content type isError found s
  = addMessage content type isError Elsewhere s.
Proof.
  intros H. unfold addMessage. destruct found; cbn [remove_found];
    [|reflexivity].
  now rewrite remove_first_none.
Qed.




Lemma chatMessages_addAll (ms : list Message) :
  forall s : PhyChatApp,
    (forall n, In n (chatMessages s) -> isWelcomeScreen n = false) ->
    chatMessages
      (fold_left
         (fun s msg => addMessage (content msg) (type msg) false Elsewhere s)
         ms s)
    = chatMessages s ++ map messageNode ms.
Proof.
  induction ms as [|m ms IH]; intros s H.
  - cbn [fold_left map]. now rewrite app_nil_r.
  - cbn [fold_left map]. rewrite IH.
    + cbn [chatMessages addMessage set_chatMessages remove_found].
      now rewrite <- app_assoc.
    + cbn [chatMessages addMessage set_chatMessages remove_found].
      intros n Hn. apply in_app_or in Hn as [Hn|[<-|[]]];
        [now apply H|reflexivity].
Qed.

Lemma loadConversation_found (cid : jsstring) (s : PhyChatApp)
  (c : Conversation) :
  findById (Some cid) (conversations s) = Some c ->
  chatMessages (loadConversation cid s) = renderTranscript (messages c).
Proof.
  intros H. unfold loadConversation.
  cbn [conversations set_currentConversationId]. rewrite H.
  destruct (messages c) as [|m ms] eqn:E; [reflexivity|].
  rewrite chatMessages_addAll; [reflexivity|intros n []].
Qed.



Lemma chatMessages_save (content type iso : jsstring) (s : PhyChatApp) :
  chatMessages (saveMessageToConversation content type iso s)
  = chatMessages s.
Proof.
  unfold saveMessageToConversation. now destruct (findById _ _).
Qed.

Lemma currentConversationId_save (content type iso : jsstring)
  (s : PhyChatApp) :
  currentConversationId (saveMessageToConversation content type iso s)
  = currentConversationId s.
Proof.
  unfold saveMessageToConversation. now destruct (findById _ _).
Qed.

Lemma isProcessing_save (content type iso : jsstring) (s : PhyChatApp) :
  isProcessing (saveMessageToConversation content type iso s)
  = isProcessing s.
Proof.
  unfold saveMessageToConversation. now destruct (findById _ _).
Qed.

(** The state in which an accepted [sendMessage] is suspended. *)
Lemma sendMessage_begin_view (iso m : jsstring) (welcome : lookup)
  (s s1 : PhyChatApp) :
  sendMessage_begin iso welcome s = Some (m, s1) ->
  m = trim (chatInput s)
  /\ trim (chatInput s) <> [] /\ isProcessing s = false
  /\ isProcessing s1 = true
  /\ chatMessages s1
     = remove_found welcome isWelcomeScreen (chatMessages s)
       ++ [MessageNode m (js "user") false; TypingIndicator].
Proof.
  unfold sendMessage_begin.
  destruct (trim (chatInput s)) as [|u r] eqn:T; [discriminate|].
  cbn [truthy negb orb]. destruct (isProcessing s); [discriminate|].
  intros [= <- <-]. split; [reflexivity|]. split; [discriminate|].
  split; [reflexivity|]. split; [reflexivity|].
  cbn [chatMessages set_isProcessing showTypingIndicator set_chatMessages].
  rewrite chatMessages_save.
  cbn [chatMessages addMessage set_chatMessages updateSendButtonState
       set_sendBtn_disabled set_chatInput].
  now rewrite <- app_assoc.
Qed.

Lemma sendMessage_end_view (r : completion jsstring) (iso : jsstring)
  (indicator welcome : lookup) (s : PhyChatApp) :
  isProcessing (sendMessage_end r iso indicator welcome s) = false
  /\ currentConversationId (sendMessage_end r iso indicator welcome s)
     = currentConversationId s
  /\ chatMessages (sendMessage_end r iso indicator welcome s)
     = remove_found welcome isWelcomeScreen
         (remove_found indicator isTypingIndicator (chatMessages s))
       ++ [match r with
           | Normal response => MessageNode response (js "assistant") false
           | Throw _ => MessageNode errorText (js "assistant") true
           end].
Proof.
  unfold sendMessage_end. destruct r as [response|e].
  - cbn [isProcessing currentConversationId chatMessages
         updateSendButtonState set_sendBtn_disabled set_isProcessing].
    rewrite currentConversationId_save, chatMessages_save.
    now repeat split.
  - now repeat split.
Qed.

Lemma suspended_view (text iso : jsstring) (welcome : lookup)
  (s : PhyChatApp) (c : Conversation) :
  isProcessing s = false -> trim text <> [] ->
  activeConversation s = Some c ->
  exists s1,
    sendMessage_begin iso welcome (set_chatInput text s)
    = Some (trim text, s1)
    /\ activeConversation s1
       = Some (pushMessage (trim text) (js "user") iso c)
    /\ currentConversationId s1 = Some (id c)
    /\ chatMessages s1
       = remove_found welcome isWelcomeScreen (chatMessages s)
         ++ [MessageNode (trim text) (js "user") false; TypingIndicator].
Proof.
  intros Hp Ht Hc.
  destruct (sendMessage_begin iso welcome (set_chatInput text s))
    as [[m s1]|] eqn:B.
  - destruct (@sendMessage_begin_view _ _ _ _ _ B) as (Em & _ & _ & _ & Hpane).
    destruct (@sendMessage_begin_store _ _ _ _ _ B) as (A & _ & C).
    cbn [chatInput set_chatInput] in Em. subst m.
    exists s1. split; [reflexivity|].
    assert (Hc0 : activeConversation (set_chatInput text s) = Some c)
      by exact Hc.
    pose proof (activeConversation_push (trim text) (js "user") iso _ Hc0)
      as P.
    unfold activeConversation in P |- *.
    rewrite currentConversationId_save in P. rewrite A, C.
    split; [exact P|]. split; [|exact Hpane].
    apply findById_found in Hc as [_ Hc]. exact Hc.
  - exfalso.
    rewrite (@sendMessage_begin_accepts iso welcome (set_chatInput text s))
      in B by assumption.
    discriminate.
Qed.








(* ================================================================== *)
(** ** What every run of the page keeps *)
(* ================================================================== *)

Lemma deleteConversation_cases (cid : jsstring) (now : Z) (iso : jsstring)
  (s : PhyChatApp) :
  (currentConversationId s <> Some cid
   /\ deleteConversation cid now iso s
      = saveConversations
          (set_conversations
             (filter (fun c => negb (eqb (id c) cid)) (conversations s)) s))
  \/ (currentConversationId s = Some cid
      /\ exists c0 rest,
           filter (fun c => negb (eqb (id c) cid)) (conversations s)
           = c0 :: rest
           /\ deleteConversation cid now iso s
              = loadConversation (id c0)
                  (saveConversations
                     (set_conversations (c0 :: rest) s)))
  \/ (currentConversationId s = Some cid
      /\ filter (fun c => negb (eqb (id c) cid)) (conversations s) = []
      /\ deleteConversation cid now iso s
         = createNewConversation now iso
             (saveConversations (set_conversations [] s))).
Proof.
  unfold deleteConversation.
  cbn [conversations currentConversationId saveConversations
       set_conversations set_localStorage].
  destruct (strictEq cid (currentConversationId s)) eqn:E.
  - apply strictEq_true in E. right.
    destruct (filter _ (conversations s)) as [|c0 rest] eqn:R.
    + right. now repeat split.
    + left. split; [exact E|]. now exists c0, rest.
  - left. split; [|reflexivity].
    intros H. rewrite H in E. cbn [strictEq] in E.
    rewrite eqb_refl in E. discriminate.
Qed.

Lemma createNewConversation_isProcessing (now : Z) (iso : jsstring)
  (s : PhyChatApp) :
  isProcessing (createNewConversation now iso s) = isProcessing s.
Proof.
  unfold createNewConversation.
  now rewrite (proj2 (proj2 (proj2 (loadConversation_store _ _)))).
Qed.

Lemma deleteConversation_isProcessing (cid : jsstring) (now : Z)
  (iso : jsstring) (s : PhyChatApp) :
  isProcessing (deleteConversation cid now iso s) = isProcessing s.
Proof.
  destruct (deleteConversation_cases cid now iso s)
    as [(_ & ->)|[(_ & c0 & rest & _ & ->)|(_ & _ & ->)]].
  - reflexivity.
  - now rewrite (proj2 (proj2 (proj2 (loadConversation_store _ _)))).
  - now rewrite createNewConversation_isProcessing.
Qed.

Lemma handle_inFlight (resolver : jsstring -> completion jsstring)
  (e : event) (p : page) :
  inFlightConsistent p -> inFlightConsistent (handle resolver e p).
Proof.
  unfold inFlightConsistent. intros H.
  destruct e as [now iso|cid now iso|cid|text iso w|iso h w];
    cbn [handle ctl pending].
  - now rewrite createNewConversation_isProcessing.
  - now rewrite deleteConversation_isProcessing.
  - now rewrite (proj2 (proj2 (proj2 (loadConversation_store _ _)))).
  - destruct (sendMessage_begin iso w (set_chatInput text (ctl p)))
      as [[m s1]|] eqn:B; cbn [ctl pending].
    + now destruct (@sendMessage_begin_view _ _ _ _ _ B) as (_ & _ & _ & Hs1 & _).
    + exact H.
  - destruct (pending p) as [m|] eqn:E; cbn [ctl pending].
    + apply sendMessage_end_view.
    + now rewrite E.
Qed.

(** X2: through every sequence of events the processing flag is set
    exactly while a call of [sendMessage] is suspended; and while one is
    suspended, sending again does nothing but fill the input field: no
    second request is started. *)
Theorem X2_one_request_in_flight
  (resolver : jsstring -> completion jsstring) (es : list event) (p : page) :
  inFlightConsistent p ->
  inFlightConsistent (handleAll resolver es p)
  /\ (forall m text iso welcome,
        pending (handleAll resolver es p) = Some m ->
        handle resolver (Send text iso welcome) (handleAll resolver es p)
        = {| ctl := set_chatInput text (ctl (handleAll resolver es p));
             pending := Some m |}).
Proof.
  intros H.
  assert (G : inFlightConsistent (handleAll resolver es p)).
  { revert p H. induction es as [|e es IH]; intros p H; [exact H|].
    unfold handleAll in *. cbn [fold_left].
    apply IH. now apply handle_inFlight. }
  split; [exact G|].
  intros m text iso welcome Hm. unfold inFlightConsistent in G.
  rewrite Hm in G. cbn [handle].
  rewrite (proj2 (sendMessage_begin_rejects iso welcome
                    (set_chatInput text (ctl (handleAll resolver es p)))))
    by (right; exact G).
  now rewrite Hm.
Qed.

Lemma X2_one_request_in_flight_witness :
  pending
    (handleAll getAIResponse_async
       [Send (js "What is quantum mechanics?") (js "2024-01-01T10:00:01.000Z") InPane;
        NewChat 1704103260000 (js "2024-01-01T10:01:00.000Z");
        Send (js "Explain thermodynamics") (js "2024-01-01T10:01:01.000Z") InPane]
       {| ctl := appWith emptyConversation; pending := None |})
  = Some (js "What is quantum mechanics?")
  /\ inFlightConsistent
       (handleAll getAIResponse_async
          [Send (js "What is quantum mechanics?")
                (js "2024-01-01T10:00:01.000Z") InPane;
           NewChat 1704103260000 (js "2024-01-01T10:01:00.000Z");
           Send (js "Explain thermodynamics")
                (js "2024-01-01T10:01:01.000Z") InPane]
          {| ctl := appWith emptyConversation; pending := None |}).
Proof.
  split; [vm_compute; reflexivity|].
  apply (@X2_one_request_in_flight getAIResponse_async
           [Send (js "What is quantum mechanics?")
                 (js "2024-01-01T10:00:01.000Z") InPane;
            NewChat 1704103260000 (js "2024-01-01T10:01:00.000Z");
            Send (js "Explain thermodynamics")
                 (js "2024-01-01T10:01:01.000Z") InPane]
           {| ctl := appWith emptyConversation; pending := None |}).
  reflexivity.
Defined.

Lemma loadConversations_ext (s t s1 : PhyChatApp) :
  localStorage s = localStorage t ->
  loadConversations s = Loaded s1 ->
  loadConversations t = Loaded (set_conversations (conversations s1) t).
Proof.
  unfold loadConversations. intros <-.
  destruct (localStorage s) as [saved|]; [|now intros [= <-]].
  destruct (truthy saved); [|now intros [= <-]].
  destruct (JSON.parse saved) as [j|]; [|discriminate].
  destruct (conversations_of_json j); [|discriminate].
  now intros [= <-].
Qed.

Lemma inSync_ext (s t : PhyChatApp) :
  localStorage s = localStorage t -> conversations s = conversations t ->
  inSync s -> inSync t.
Proof.
  intros Hl Hc (s1 & L & E).
  exists (set_conversations (conversations s1) t).
  split; [now apply (@loadConversations_ext s)|].
  cbn [conversations set_conversations]. congruence.
Qed.

Lemma inSync_saved (s : PhyChatApp) :
  localStorage s
  = Some (JSON.stringify (json_of_conversations (conversations s))) ->
  inSync s.
Proof.
  intros H. exists (set_conversations (conversations s) s).
  split; [now apply loadConversations_saved|reflexivity].
Qed.

Lemma inSync_loadConversation (cid : jsstring) (s : PhyChatApp) :
  inSync s -> inSync (loadConversation cid s).
Proof.
  destruct (loadConversation_store cid s) as (A & _ & C & _).
  now apply inSync_ext.
Qed.

Lemma inSync_create (now : Z) (iso : jsstring) (s : PhyChatApp) :
  inSync (createNewConversation now iso s).
Proof.
  destruct (createNewConversation_store now iso s) as (A & _ & C).
  apply inSync_saved. now rewrite A, C.
Qed.

Lemma inSync_delete (cid : jsstring) (now : Z) (iso : jsstring)
  (s : PhyChatApp) : inSync (deleteConversation cid now iso s).
Proof.
  destruct (deleteConversation_cases cid now iso s)
    as [(_ & ->)|[(_ & c0 & rest & _ & ->)|(_ & _ & ->)]].
  - now apply inSync_saved.
  - apply inSync_loadConversation. now apply inSync_saved.
  - apply inSync_create.
Qed.

Lemma inSync_save (content type iso : jsstring) (s : PhyChatApp) :
  inSync s -> inSync (saveMessageToConversation content type iso s).
Proof.
  intros H. destruct (activeConversation s) as [c|] eqn:E.
  - apply inSync_saved. now apply (saved_after_push _ _ _ _ E).
  - now rewrite saveMessageToConversation_absent.
Qed.

Lemma handle_inSync (resolver : jsstring -> completion jsstring)
  (e : event) (p : page) :
  inSync (ctl p) -> inSync (ctl (handle resolver e p)).
Proof.
  intros H.
  destruct e as [now iso|cid now iso|cid|text iso w|iso h w];
    cbn [handle ctl pending].
  - apply inSync_create.
  - apply inSync_delete.
  - now apply inSync_loadConversation.
  - assert (H0 : inSync (set_chatInput text (ctl p)))
      by (apply (@inSync_ext (ctl p)); [reflexivity..|exact H]).
    destruct (sendMessage_begin iso w (set_chatInput text (ctl p)))
      as [[m s1]|] eqn:B; cbn [ctl]; [|exact H0].
    destruct (@sendMessage_begin_store _ _ _ _ _ B) as (A & L & _).
    apply (@inSync_ext
             (saveMessageToConversation m (js "user") iso
                (set_chatInput text (ctl p)))); [congruence..|].
    now apply inSync_save.
  - destruct (pending p) as [m|]; [|exact H]. cbn [ctl].
    destruct (resolver m) as [response|err].
    + destruct (sendMessage_end_store response iso h w (ctl p)) as (A & L).
      apply (@inSync_ext
               (saveMessageToConversation response (js "assistant") iso
                  (ctl p))); [congruence..|].
      now apply inSync_save.
    + destruct (sendMessage_end_failure err iso h w (ctl p))
        as (A & _ & L & _).
      apply (@inSync_ext (ctl p)); congruence.
Qed.

(** X8: the persisted text follows the list in memory.  When loading the
    storage item would give the list in memory, this is still so after
    any sequence of events, so that a page opened on the storage as it
    is then reads the very list that the page in use has. *)
Theorem X8_storage_follows_store
  (resolver : jsstring -> completion jsstring) (es : list event) (p : page) :
  inSync (ctl p) ->
  exists s1,
    loadConversations
      (constructed (localStorage (ctl (handleAll resolver es p))))
    = Loaded s1
    /\ conversations s1 = conversations (ctl (handleAll resolver es p)).
Proof.
  intros H.
  assert (G : inSync (ctl (handleAll resolver es p))).
  { revert p H. induction es as [|e es IH]; intros p H; [exact H|].
    unfold handleAll in *. cbn [fold_left].
    apply IH. now apply handle_inSync. }
  destruct G as (s1 & L & E).
  exists (set_conversations (conversations s1)
            (constructed (localStorage (ctl (handleAll resolver es p))))).
  split; [|exact E].
  now apply (@loadConversations_ext (ctl (handleAll resolver es p))).
Qed.

Lemma X8_storage_follows_store_witness :
  exists s1,
    loadConversations
      (constructed
         (localStorage
            (ctl (handleAll getAIResponse_async
                    [Send (js "Explain thermodynamics")
                          (js "2024-01-01T10:00:01.000Z") InPane;
                     Settle (js "2024-01-01T10:00:03.000Z") InPane InPane;
                     Delete (js "1704103200000") 1704103300000
                            (js "2024-01-01T10:01:40.000Z")]
                    {| ctl := appWith sampleConversation;
                       pending := None |}))))
    = Loaded s1
    /\ conversations s1
       = conversations
           (ctl (handleAll getAIResponse_async
                   [Send (js "Explain thermodynamics")
                         (js "2024-01-01T10:00:01.000Z") InPane;
                    Settle (js "2024-01-01T10:00:03.000Z") InPane InPane;
                    Delete (js "1704103200000") 1704103300000
                           (js "2024-01-01T10:01:40.000Z")]
                   {| ctl := appWith sampleConversation;
                      pending := None |})).
Proof.
  apply X8_storage_follows_store.
  apply inSync_saved. reflexivity.
Defined.

(* ================================================================== *)
(** ** The message records of the pages that the code builds *)
(* ================================================================== *)

Lemma written_loadConversation (cid : jsstring) (s : PhyChatApp) :
  written s -> written (loadConversation cid s).
Proof.
  unfold written. destruct (loadConversation_store cid s) as (A & _ & C & _).
  now rewrite A, C.
Qed.

Lemma written_create (now : Z) (iso : jsstring) (s : PhyChatApp) :
  written (createNewConversation now iso s).
Proof.
  unfold written. destruct (createNewConversation_store now iso s)
    as (A & _ & C).
  now rewrite A, C.
Qed.

Lemma written_delete (cid : jsstring) (now : Z) (iso : jsstring)
  (s : PhyChatApp) : written (deleteConversation cid now iso s).
Proof.
  destruct (deleteConversation_cases cid now iso s)
    as [(_ & ->)|[(_ & c0 & rest & _ & ->)|(_ & _ & ->)]].
  - reflexivity.
  - now apply written_loadConversation.
  - apply written_create.
Qed.

Lemma written_save (content type iso : jsstring) (s : PhyChatApp) :
  written s -> written (saveMessageToConversation content type iso s).
Proof.
  intros H. destruct (activeConversation s) as [c|] eqn:E.
  - apply (saved_after_push _ _ _ _ E).
  - now rewrite saveMessageToConversation_absent.
Qed.

Lemma handle_written (resolver : jsstring -> completion jsstring)
  (e : event) (p : page) :
  written (ctl p) -> written (ctl (handle resolver e p)).
Proof.
  intros H.
  destruct e as [now iso|cid now iso|cid|text iso w|iso h w];
    cbn [handle ctl pending].
  - apply written_create.
  - apply written_delete.
  - now apply written_loadConversation.
  - destruct (sendMessage_begin iso w (set_chatInput text (ctl p)))
      as [[m s1]|] eqn:B; cbn [ctl]; [|exact H].
    destruct (@sendMessage_begin_store _ _ _ _ _ B) as (A & L & _).
    unfold written. rewrite A, L.
    now apply (@written_save m (js "user") iso (set_chatInput text (ctl p))).
  - destruct (pending p) as [m|]; [|exact H]. cbn [ctl].
    destruct (resolver m) as [response|err].
    + destruct (sendMessage_end_store response iso h w (ctl p)) as (A & L).
      unfold written. rewrite A, L. now apply written_save.
    + destruct (sendMessage_end_failure err iso h w (ctl p))
        as (A & _ & L & _).
      unfold written. now rewrite A, L.
Qed.

(** A list whose conversations are those of [cs], or have no message. *)
Lemma userOrAssistant_kept (cs cs' : list Conversation) :
  (forall c, In c cs' -> In c cs \/ messages c = []) ->
  userOrAssistant cs -> userOrAssistant cs'.
Proof.
  intros K H c m Hc Hm. destruct (K c Hc) as [Hin|E].
  - now apply (H c m).
  - rewrite E in Hm. destruct Hm.
Qed.

Lemma userOrAssistant_create (now : Z) (iso : jsstring) (s : PhyChatApp) :
  userOrAssistant (conversations s) ->
  userOrAssistant (conversations (createNewConversation now iso s)).
Proof.
  rewrite (proj1 (createNewConversation_store now iso s)).
  apply userOrAssistant_kept. intros c [<-|Hc]; [now right|now left].
Qed.

Lemma userOrAssistant_delete (cid : jsstring) (now : Z) (iso : jsstring)
  (s : PhyChatApp) :
  userOrAssistant (conversations s) ->
  userOrAssistant (conversations (deleteConversation cid now iso s)).
Proof.
  intros H.
  assert (F : userOrAssistant
                (filter (fun c => negb (eqb (id c) cid)) (conversations s))).
  { revert H. apply userOrAssistant_kept. intros c Hc.
    left. now apply filter_In in Hc. }
  destruct (deleteConversation_cases cid now iso s)
    as [(_ & ->)|[(_ & c0 & rest & E & ->)|(_ & E & ->)]].
  - exact F.
  - rewrite (proj1 (loadConversation_store _ _)).
    cbn [conversations saveConversations set_localStorage set_conversations].
    now rewrite <- E.
  - apply userOrAssistant_create. intros c m [].
Qed.

Lemma handle_userOrAssistant (resolver : jsstring -> completion jsstring)
  (e : event) (p : page) :
  userOrAssistant (conversations (ctl p)) ->
  userOrAssistant (conversations (ctl (handle resolver e p))).
Proof.
  intros H.
  destruct e as [now iso|cid now iso|cid|text iso w|iso h w];
    cbn [handle ctl pending].
  - now apply userOrAssistant_create.
  - now apply userOrAssistant_delete.
  - now rewrite (proj1 (loadConversation_store _ _)).
  - destruct (sendMessage_begin iso w (set_chatInput text (ctl p)))
      as [[m s1]|] eqn:B; cbn [ctl]; [|exact H].
    rewrite (proj1 (@sendMessage_begin_store _ _ _ _ _ B)).
    apply userOrAssistant_save; [left; reflexivity|exact H].
  - destruct (pending p) as [m|]; [|exact H]. cbn [ctl].
    destruct (resolver m) as [response|err].
    + rewrite (proj1 (sendMessage_end_store response iso h w (ctl p))).
      apply userOrAssistant_save; [right; reflexivity|exact H].
    + now rewrite (proj1 (sendMessage_end_failure err iso h w (ctl p))).
Qed.

(** [init] on a storage without the item, or with the text of a list. *)
Lemma init_written (now : Z) (iso : jsstring) (storage : option jsstring)
  (cs : list Conversation) :
  storage = None /\ cs = []
  \/ storage = Some (JSON.stringify (json_of_conversations cs)) ->
  exists s,
    init now iso (constructed storage) = Loaded s
    /\ written s
    /\ (userOrAssistant cs -> userOrAssistant (conversations s)).
Proof.
  intros H.
  assert (L : loadConversations (constructed storage)
              = Loaded (set_conversations cs (constructed storage))).
  { destruct H as [[-> ->]|H]; [reflexivity|].
    now apply loadConversations_saved. }
  unfold init. rewrite L. cbn [conversations set_conversations].
  destruct cs as [|c0 rest].
  - eexists. split; [reflexivity|]. split; [apply written_create|].
    intros _. now apply userOrAssistant_create.
  - eexists. split; [reflexivity|]. split.
    + apply written_loadConversation. unfold written.
      destruct H as [[_ E]|H]; [discriminate E|exact H].
    + intros U. now rewrite (proj1 (loadConversation_store _ _)).
Qed.

(** What the pages that the code builds keep. *)
Lemma built_written (p : page) :
  built p -> written (ctl p) /\ userOrAssistant (conversations (ctl p)).
Proof.
  induction 1 as [now iso s I|resolver e p _ [W U]|now iso p s _ [W U] I].
  - destruct (@init_written now iso None []) as (s' & I' & W & U);
      [now left|].
    rewrite I in I'. injection I' as <-.
    split; [exact W|]. apply U. intros c m [].
  - split; [now apply handle_written|now apply handle_userOrAssistant].
  - destruct (@init_written now iso (localStorage (ctl p))
                (conversations (ctl p))) as (s' & I' & W' & U');
      [now right|].
    rewrite I in I'. injection I' as <-.
    split; [exact W'|now apply U'].
Qed.

Lemma built_handleAll (resolver : jsstring -> completion jsstring)
  (es : list event) :
  forall p, built p -> built (handleAll resolver es p).
Proof.
  induction es as [|e es IH]; intros p H; [exact H|].
  unfold handleAll in *. cbn [fold_left]. apply IH.
  now apply built_event.
Qed.

Lemma built_answeredPage : built answeredPage.
Proof.
  apply built_handleAll. unfold openedPage.
  apply (@built_open 1704103200000%Z (js "2024-01-01T10:00:00.000Z")).
  vm_compute. reflexivity.
Qed.

(** C3, as the code has it.  On a page whose store the code alone has
    built (opened on a storage without the item, then through any new
    chats, switches, deletions, submissions and responses, and any
    reopening on the storage that it left), the text that
    [saveConversations] writes is the storage item; it holds one record
    for each message of the store, and each record has the three fields
    [content], [type] and [timestamp], in this order and no other, with
    the strings of the message as their values: the field that holds the
    role is named [type], and its value is [user] or [assistant].  Such a
    page can always be reopened on its storage. *)
Theorem C3_persisted_message_fields (p : page) :
  built p ->
  (exists text j,
     localStorage (saveConversations (ctl p)) = Some text
     /\ localStorage (ctl p) = Some text
     /\ JSON.parse text = Some j
     /\ Forall
          (fun r =>
             exists m,
               In m (flat_map messages (conversations (ctl p)))
               /\ r = JObject [(js "content", JString (content m));
                               (js "type", JString (type m));
                               (js "timestamp", JString (timestamp m))]
               /\ (type m = js "user" \/ type m = js "assistant"))
          (persistedMessages j)
     /\ List.length (persistedMessages j)
        = List.length (flat_map messages (conversations (ctl p))))
  /\ (forall now iso,
        exists s,
          init now iso (constructed (localStorage (ctl p))) = Loaded s
          /\ built {| ctl := s; pending := None |}).
Proof.
  intros B. destruct (built_written B) as [W U]. split.
  - exists (JSON.stringify (json_of_conversations (conversations (ctl p)))),
           (json_of_conversations (conversations (ctl p))).
    split; [reflexivity|]. split; [exact W|]. split; [apply parse_saved|].
    rewrite persistedMessages_saved. split; [|apply length_map].
    apply Forall_forall. intros r Hr.
    apply in_map_iff in Hr as (m & <- & Hm).
    exists m. split; [exact Hm|]. split; [reflexivity|].
    apply in_flat_map in Hm as (c & Hc & Hm). now apply (U c m).
  - intros now iso.
    destruct (@init_written now iso (localStorage (ctl p))
                (conversations (ctl p))) as (s & I & _); [now right|].
    exists s. split; [exact I|]. now apply (built_reopen now iso B).
Qed.

Lemma C3_persisted_message_fields_witness :
  exists text j,
    localStorage (saveConversations (ctl answeredPage)) = Some text
    /\ localStorage (ctl answeredPage) = Some text
    /\ JSON.parse text = Some j
    /\ persistedMessages j
       = [JObject [(js "content", JString (js "What is quantum mechanics?"));
                   (js "type", JString (js "user"));
                   (js "timestamp", JString (js "2024-01-01T10:00:01.000Z"))];
          JObject [(js "content", JString quantum_response);
                   (js "type", JString (js "assistant"));
                   (js "timestamp",
                    JString (js "2024-01-01T10:00:03.000Z"))]].
Proof.
  destruct (proj1 (C3_persisted_message_fields built_answeredPage))
    as (text & j & S & L & P & _).
  exists text, j. split; [exact S|]. split; [exact L|]. split; [exact P|].
  assert (E : Some j
              = Some (json_of_conversations
                        (conversations (ctl answeredPage)))).
  { rewrite <- P.
    assert (T : Some text
                = Some (JSON.stringify
                          (json_of_conversations
                             (conversations (ctl answeredPage)))))
      by (rewrite <- S; reflexivity).
    injection T as ->. apply parse_saved. }
  injection E as ->. vm_compute. reflexivity.
Defined.

(** C3 as stated fails: on a page that the code has built, the record
    of a saved message has a field named [type] and none named [role]. *)
Lemma C3_counterexample :
  built answeredPage
  /\ exists text j r,
       localStorage (saveConversations (ctl answeredPage)) = Some text
       /\ JSON.parse text = Some j
       /\ In r (persistedMessages j)
       /\ memberNames r = [js "content"; js "type"; js "timestamp"]
       /\ memberNames r <> [js "content"; js "role"; js "timestamp"].
Proof.
  split; [exact built_answeredPage|].
  exists (JSON.stringify
            (json_of_conversations (conversations (ctl answeredPage)))),
         (json_of_conversations (conversations (ctl answeredPage))),
         (json_of_message
            {| content := js "What is quantum mechanics?";
               type := js "user";
               timestamp := js "2024-01-01T10:00:01.000Z" |}).
  split; [reflexivity|]. split; [apply parse_saved|].
  split; [rewrite persistedMessages_saved; vm_compute; left; reflexivity|].
  split; [reflexivity|]. vm_compute. discriminate.
Qed.

Lemma findById_listed (cid : jsstring) (cs : list Conversation) :
  In cid (map id cs) -> exists c, findById (Some cid) cs = Some c.
Proof.
  unfold findById. induction cs as [|c cs IH]; [intros []|].
  cbn [map In find strictEq]. intros [E|H].
  - exists c. now rewrite E, eqb_refl.
  - destruct (eqb (id c) cid); [now exists c|now apply IH].
Qed.

Lemma find_filter_first {A : Type} (p q : A -> bool) (l : list A) (x : A) :
  find p l = Some x -> q x = true -> find p (filter q l) = Some x.
Proof.
  intros H Hq. induction l as [|y l IH]; [discriminate|].
  cbn [find filter] in *. destruct (p y) eqn:P.
  - injection H as ->. rewrite Hq. cbn [find]. now rewrite P.
  - destruct (q y); [cbn [find]; rewrite P|]; now apply IH.
Qed.

Lemma active_create (now : Z) (iso : jsstring) (s : PhyChatApp) :
  activeConversation (createNewConversation now iso s)
  = Some (newConversation now iso).
Proof.
  destruct (createNewConversation_store now iso s) as (A & B & _).
  unfold activeConversation, findById. rewrite A, B.
  cbn [find strictEq id newConversation]. now rewrite eqb_refl.
Qed.

Lemma active_load_head (c0 : Conversation) (rest : list Conversation)
  (s : PhyChatApp) :
  conversations s = c0 :: rest ->
  activeConversation (loadConversation (id c0) s) = Some c0.
Proof.
  intros H. destruct (loadConversation_store (id c0) s) as (A & B & _).
  unfold activeConversation, findById. rewrite A, B, H.
  cbn [find strictEq]. now rewrite eqb_refl.
Qed.

Lemma active_delete (cid : jsstring) (now : Z) (iso : jsstring)
  (s : PhyChatApp) (c : Conversation) :
  activeConversation s = Some c ->
  exists c', activeConversation (deleteConversation cid now iso s) = Some c'.
Proof.
  intros H.
  destruct (deleteConversation_cases cid now iso s)
    as [(N & ->)|[(_ & c0 & rest & _ & ->)|(_ & _ & ->)]].
  - exists c. unfold activeConversation, findById in *.
    cbn [conversations currentConversationId saveConversations
         set_localStorage set_conversations].
    apply find_filter_first; [exact H|].
    apply find_some in H as [_ H]. apply strictEq_true in H.
    destruct (eqb (id c) cid) eqn:E; [|reflexivity].
    apply eqb_eq in E. congruence.
  - exists c0. now apply (@active_load_head c0 rest).
  - eexists. apply active_create.
Qed.

Lemma active_ext (s t : PhyChatApp) :
  conversations s = conversations t ->
  currentConversationId s = currentConversationId t ->
  activeConversation s = activeConversation t.
Proof. unfold activeConversation. now intros -> ->. Qed.

Lemma handle_active (resolver : jsstring -> completion jsstring)
  (e : event) (p : page) :
  match e with
  | Switch cid => In cid (map id (conversations (ctl p)))
  | _ => True
  end ->
  (exists c, activeConversation (ctl p) = Some c) ->
  exists c', activeConversation (ctl (handle resolver e p)) = Some c'.
Proof.
  intros Hl (c & H).
  destruct e as [now iso|cid now iso|cid|text iso w|iso h w];
    cbn [handle ctl pending].
  - eexists. apply active_create.
  - now apply (@active_delete cid now iso (ctl p) c).
  - destruct (findById_listed _ _ Hl) as (c' & F). exists c'.
    destruct (loadConversation_store cid (ctl p)) as (A & B & _).
    unfold activeConversation. now rewrite A, B.
  - destruct (sendMessage_begin iso w (set_chatInput text (ctl p)))
      as [[m s1]|] eqn:B; cbn [ctl]; [|now exists c].
    destruct (@sendMessage_begin_store _ _ _ _ _ B) as (A & _ & C).
    exists (pushMessage m (js "user") iso c).
    rewrite (@active_ext s1
               (saveMessageToConversation m (js "user") iso
                  (set_chatInput text (ctl p))));
      [|exact A|now rewrite currentConversationId_save].
    now apply activeConversation_push.
  - destruct (pending p) as [m|]; [|now exists c]. cbn [ctl].
    destruct (sendMessage_end_view (resolver m) iso h w (ctl p)) as (_ & I & _).
    destruct (resolver m) as [response|err].
    + destruct (sendMessage_end_store response iso h w (ctl p)) as (A & _).
      exists (pushMessage response (js "assistant") iso c).
      rewrite (@active_ext _
                 (saveMessageToConversation response (js "assistant") iso
                    (ctl p)));
        [|exact A|now rewrite currentConversationId_save].
      now apply activeConversation_push.
    + destruct (sendMessage_end_failure err iso h w (ctl p)) as (A & _).
      exists c. now rewrite (@active_ext _ (ctl p)).
Qed.

(** X9: there is always an active conversation.  From a state that has
    one, through new chats, deletions, submissions, settled responses and
    switches to conversations of the list, the active id always names a
    conversation of the store. *)
Theorem X9_always_an_active_conversation
  (resolver : jsstring -> completion jsstring) (es : list event) (p : page) :
  (exists c, activeConversation (ctl p) = Some c) ->
  userRun resolver es p ->
  exists c', activeConversation (ctl (handleAll resolver es p)) = Some c'.
Proof.
  revert p. induction es as [|e es IH]; intros p H R; [exact H|].
  cbn [userRun] in R. destruct R as [Hl R].
  unfold handleAll in *. cbn [fold_left].
  apply IH; [|exact R]. now apply handle_active.
Qed.

Lemma X9_always_an_active_conversation_witness :
  exists c',
    activeConversation
      (ctl (handleAll getAIResponse_async
              [Delete (js "1704103260000") 1704103300000
                      (js "2024-01-01T10:01:40.000Z");
               Switch (js "1704103200000");
               Delete (js "1704103200000") 1704103300001
                      (js "2024-01-01T10:01:40.001Z");
               Delete (js "1704103200001") 1704103300002
                      (js "2024-01-01T10:01:40.002Z")]
              {| ctl := sampleStore; pending := None |}))
    = Some c'.
Proof.
  apply X9_always_an_active_conversation.
  - eexists. vm_compute. reflexivity.
  - vm_compute. repeat split. right. left. reflexivity.
Defined.




(* ================================================================== *)
(** ** Transcripts only grow *)
(* ================================================================== *)

Lemma extended_refl (c : Conversation) : extended c c.
Proof. repeat split. exists []. now rewrite app_nil_r. Qed.

Lemma extended_trans (a b c : Conversation) :
  extended a b -> extended b c -> extended a c.
Proof.
  intros (I1 & D1 & m1 & M1) (I2 & D2 & m2 & M2).
  repeat split; [congruence..|].
  exists (m1 ++ m2). now rewrite M2, M1, app_assoc.
Qed.

Lemma Forall2_extended_refl (cs : list Conversation) :
  Forall2 extended cs cs.
Proof.
  induction cs; constructor; [apply extended_refl|assumption].
Qed.

Lemma Forall2_extended_trans (a b c : list Conversation) :
  Forall2 extended a b -> Forall2 extended b c -> Forall2 extended a c.
Proof.
  intros H. revert c. induction H as [|x y a b Hxy _ IH]; intros c Hc.
  - inversion Hc. constructor.
  - inversion Hc as [|? z ? c' Hyz Hbc]; subst.
    constructor; [now apply (extended_trans Hxy)|now apply IH].
Qed.

Lemma grown_refl (cs : list Conversation) : grown cs cs.
Proof. exists [], cs. split; [reflexivity|apply Forall2_extended_refl]. Qed.

Lemma grown_trans (a b c : list Conversation) :
  grown a b -> grown b c -> grown a c.
Proof.
  intros (f1 & k1 & -> & H1) (f2 & k2 & -> & H2).
  apply Forall2_app_inv_l in H2 as (k2a & k2b & Ha & Hb & ->).
  exists (f2 ++ k2a), k2b. split; [now rewrite app_assoc|].
  now apply (Forall2_extended_trans H1).
Qed.

Lemma extended_push (content type iso : jsstring) (c : Conversation) :
  extended c (pushMessage content type iso c).
Proof.
  split; [apply id_pushMessage|]. split.
  - unfold pushMessage. now destruct (_ && _).
  - eexists. apply messages_pushMessage.
Qed.

Lemma grown_save (content type iso : jsstring) (s : PhyChatApp) :
  grown (conversations s)
        (conversations (saveMessageToConversation content type iso s)).
Proof.
  unfold saveMessageToConversation.
  destruct (findById _ _) as [found|]; [|apply grown_refl].
  cbn [conversations saveConversations set_localStorage set_conversations].
  exists [], (update_first
                (fun c => strictEq (id c) (currentConversationId s))
                (pushMessage content type iso) (conversations s)).
  split; [reflexivity|].
  induction (conversations s) as [|c cs IH]; [constructor|].
  cbn [update_first]. destruct (strictEq (id c) _).
  - constructor; [apply extended_push|apply Forall2_extended_refl].
  - constructor; [apply extended_refl|exact IH].
Qed.

Lemma handle_grown (resolver : jsstring -> completion jsstring)
  (e : event) (p : page) :
  isDelete e = false ->
  grown (conversations (ctl p)) (conversations (ctl (handle resolver e p))).
Proof.
  intros Hd.
  destruct e as [now iso|cid now iso|cid|text iso w|iso h w];
    cbn [handle ctl pending]; [|discriminate| | |].
  - rewrite (proj1 (createNewConversation_store now iso (ctl p))).
    exists [newConversation now iso], (conversations (ctl p)).
    split; [reflexivity|apply Forall2_extended_refl].
  - rewrite (proj1 (loadConversation_store cid (ctl p))). apply grown_refl.
  - destruct (sendMessage_begin iso w (set_chatInput text (ctl p)))
      as [[m s1]|] eqn:B; cbn [ctl]; [|apply grown_refl].
    rewrite (proj1 (@sendMessage_begin_store _ _ _ _ _ B)).
    apply (grown_save m (js "user") iso (set_chatInput text (ctl p))).
  - destruct (pending p) as [m|]; [|apply grown_refl]. cbn [ctl].
    destruct (resolver m) as [response|err].
    + rewrite (proj1 (sendMessage_end_store response iso h w (ctl p))).
      apply grown_save.
    + rewrite (proj1 (sendMessage_end_failure err iso h w (ctl p))).
      apply grown_refl.
Qed.

(** X10: nothing but a deletion removes or shortens anything.  Through a
    sequence of events with no deletion, the list after it is the list
    before it with new conversations in front: every conversation that
    was there is still there, in the same order, with the same id and
    creation time, and its transcript is the former transcript with
    messages added at the end. *)
Theorem X10_transcripts_only_grow
  (resolver : jsstring -> completion jsstring) (es : list event) (p : page) :
  forallb (fun e => negb (isDelete e)) es = true ->
  exists fresh kept,
    conversations (ctl (handleAll resolver es p)) = fresh ++ kept
    /\ Forall2
         (fun c c' =>
            id c' = id c /\ createdAt c' = createdAt c
            /\ exists more, messages c' = messages c ++ more)
         (conversations (ctl p)) kept.
Proof.
  intros H.
  assert (G : grown (conversations (ctl p))
                    (conversations (ctl (handleAll resolver es p)))).
  { revert p. induction es as [|e es IH]; intros p; [apply grown_refl|].
    cbn [forallb] in H. apply andb_prop in H as [He H].
    unfold handleAll in *. cbn [fold_left].
    apply (@grown_trans _ (conversations (ctl (handle resolver e p)))).
    - apply handle_grown. now destruct (isDelete e).
    - now apply IH. }
  exact G.
Qed.

Lemma X10_transcripts_only_grow_witness :
  exists fresh kept,
    conversations
      (ctl (handleAll getAIResponse_async
              [Send (js "Explain thermodynamics")
                    (js "2024-01-01T10:00:01.000Z") InPane;
               NewChat 1704103260000 (js "2024-01-01T10:01:00.000Z");
               Settle (js "2024-01-01T10:01:03.000Z") InPane InPane]
              {| ctl := appWith sampleConversation; pending := None |}))
    = fresh ++ kept
    /\ Forall2
         (fun c c' =>
            id c' = id c /\ createdAt c' = createdAt c
            /\ exists more, messages c' = messages c ++ more)
         (conversations (appWith sampleConversation)) kept.
Proof.
  apply (@X10_transcripts_only_grow getAIResponse_async
           [Send (js "Explain thermodynamics")
                 (js "2024-01-01T10:00:01.000Z") InPane;
            NewChat 1704103260000 (js "2024-01-01T10:01:00.000Z");
            Settle (js "2024-01-01T10:01:03.000Z") InPane InPane]
           {| ctl := appWith sampleConversation; pending := None |}).
  reflexivity.
Defined.

(* ================================================================== *)
(** ** A response that arrives after a switch *)
(* ================================================================== *)

Lemma find_update_first_other {A : Type} (p q : A -> bool) (f : A -> A)
  (l : list A) :
  (forall x, p x = true -> q x = false /\ q (f x) = false) ->
  find q (update_first p f l) = find q l.
Proof.
  intros H. induction l as [|y l IH]; [reflexivity|].
  cbn [update_first find]. destruct (p y) eqn:P.
  - destruct (H y P) as [Q1 Q2]. cbn [find]. now rewrite Q1, Q2.
  - cbn [find]. now rewrite IH.
Qed.

(** An append to the active conversation does not touch the
    conversations that have another id. *)
Lemma findById_save_other (content type iso : jsstring) (s : PhyChatApp)
  (c : Conversation) (i : jsstring) :
  activeConversation s = Some c -> i <> id c ->
  findById (Some i)
    (conversations (saveMessageToConversation content type iso s))
  = findById (Some i) (conversations s).
Proof.
  intros H Hi. unfold saveMessageToConversation.
  unfold activeConversation in H. rewrite H.
  cbn [conversations saveConversations set_localStorage set_conversations].
  apply findById_found in H as [_ Hcur]. rewrite Hcur.
  unfold findById. apply find_update_first_other.
  intros x Hx. apply strictEq_true in Hx. injection Hx as Hx.
  rewrite id_pushMessage. cbn [strictEq].
  split; apply eqb_neq; congruence.
Qed.

(** X6: the response goes to the conversation that is active when it
    arrives.  A question is sent in one conversation, the user switches
    to another conversation of the list while the response is awaited,
    and the response comes: the first transcript has gained the question
    only, and the response is stored at the end of the second. *)
Theorem X6_late_response_follows_switch
  (resolver : jsstring -> completion jsstring) (p : page)
  (text iso1 iso2 : jsstring) (found : lookups) (ca cb : Conversation)
  (response : jsstring) :
  isProcessing (ctl p) = false ->
  trim text <> [] ->
  activeConversation (ctl p) = Some ca ->
  findById (Some (id cb)) (conversations (ctl p)) = Some cb ->
  id cb <> id ca ->
  resolver (trim text) = Normal response ->
  exists ca' cb',
    findById (Some (id ca))
      (conversations
         (ctl (handleAll resolver
                 [Send text iso1 (welcome1 found); Switch (id cb);
                  Settle iso2 (indicator2 found) (welcome2 found)] p)))
    = Some ca'
    /\ messages ca'
       = messages ca ++ [{| content := trim text; type := js "user";
                            timestamp := iso1 |}]
    /\ findById (Some (id cb))
         (conversations
            (ctl (handleAll resolver
                    [Send text iso1 (welcome1 found); Switch (id cb);
                  Settle iso2 (indicator2 found) (welcome2 found)] p)))
       = Some cb'
    /\ messages cb'
       = messages cb ++ [{| content := response; type := js "assistant";
                            timestamp := iso2 |}].
Proof.
  intros Hp Ht Ha Hb Hab Hr.
  destruct (@suspended_view text iso1 (welcome1 found) (ctl p) ca Hp Ht Ha)
    as (s1 & B & A1 & I1 & _).
  destruct (@sendMessage_begin_store _ _ _ _ _ B) as (C1 & _ & _).
  unfold handleAll. cbn [fold_left handle]. rewrite B.
  cbn [ctl pending]. rewrite Hr.
  set (s2 := loadConversation (id cb) s1).
  destruct (loadConversation_store (id cb) s1) as (C2 & I2 & _).
  fold s2 in C2, I2.
  assert (Hb1 : findById (Some (id cb)) (conversations s1) = Some cb).
  { rewrite C1.
    rewrite (@findById_save_other _ _ _ (set_chatInput text (ctl p)) ca);
      [exact Hb|exact Ha|exact Hab]. }
  assert (A2 : activeConversation s2 = Some cb).
  { unfold activeConversation. now rewrite C2, I2. }
  destruct (sendMessage_end_store response iso2 (indicator2 found)
              (welcome2 found) s2) as (C3 & _).
  rewrite C3.
  exists (pushMessage (trim text) (js "user") iso1 ca),
         (pushMessage response (js "assistant") iso2 cb).
  split; [|split; [apply messages_pushMessage|split;
                   [|apply messages_pushMessage]]].
  - rewrite (@findById_save_other _ _ _ s2 cb);
      [|exact A2|congruence].
    rewrite C2. unfold activeConversation in A1. now rewrite I1 in A1.
  - pose proof (activeConversation_push response (js "assistant") iso2
                  _ A2) as P.
    unfold activeConversation in P.
    now rewrite currentConversationId_save, I2 in P.
Qed.

Lemma X6_late_response_follows_switch_witness :
  exists ca' cb',
    findById (Some (js "1704103260000"))
      (conversations
         (ctl (handleAll getAIResponse_async
                 [Send (js "Explain thermodynamics")
                       (js "2024-01-01T10:02:01.000Z") InPane;
                  Switch (js "1704103200000");
                  Settle (js "2024-01-01T10:02:03.000Z") InPane InPane]
                 {| ctl := sampleStore; pending := None |})))
    = Some ca'
    /\ map type (messages ca') = [js "user"]
    /\ findById (Some (js "1704103200000"))
         (conversations
            (ctl (handleAll getAIResponse_async
                    [Send (js "Explain thermodynamics")
                          (js "2024-01-01T10:02:01.000Z") InPane;
                     Switch (js "1704103200000");
                     Settle (js "2024-01-01T10:02:03.000Z") InPane InPane]
                    {| ctl := sampleStore; pending := None |})))
       = Some cb'
    /\ map (fun m => (type m, content m)) (messages cb')
       = [(js "user", js "What is quantum mechanics?");
          (js "assistant", thermodynamics_response)].
Proof.
  destruct (@X6_late_response_follows_switch getAIResponse_async
              {| ctl := sampleStore; pending := None |}
              (js "Explain thermodynamics")
              (js "2024-01-01T10:02:01.000Z")
              (js "2024-01-01T10:02:03.000Z") plain
              (newConversation 1704103260000 (js "2024-01-01T10:01:00.000Z"))
              sampleConversation thermodynamics_response)
    as (ca' & cb' & A & MA & B & MB).
  - reflexivity.
  - vm_compute. discriminate.
  - vm_compute. reflexivity.
  - vm_compute. reflexivity.
  - vm_compute. discriminate.
  - vm_compute. reflexivity.
  - exists ca', cb'. split; [exact A|]. split; [|split; [exact B|]].
    + rewrite MA. vm_compute. reflexivity.
    + rewrite MB. vm_compute. reflexivity.
Defined.

(* ================================================================== *)
(** ** New chats and deletions *)
(* ================================================================== *)

(** X7: a new chat is the active conversation at once: it is empty, the
    pane shows the welcome screen, the list is persisted and the
    processing flag is left as it was.  A conversation of the list that
    has the same id is hidden behind it: switching to that id activates
    the new conversation. *)
Theorem X7_new_chat_is_active (now : Z) (iso : jsstring) (s : PhyChatApp) :
  activeConversation (createNewConversation now iso s)
  = Some (newConversation now iso)
  /\ chatMessages (createNewConversation now iso s) = [WelcomeScreen]
  /\ isProcessing (createNewConversation now iso s) = isProcessing s
  /\ inSync (createNewConversation now iso s)
  /\ (forall old,
        In old (conversations s) -> id old = Z_toString now ->
        activeConversation
          (loadConversation (id old) (createNewConversation now iso s))
        = Some (newConversation now iso)).
Proof.
  split; [apply active_create|].
  split.
  { unfold createNewConversation.
    rewrite (@loadConversation_found _ _ (newConversation now iso));
      [reflexivity|].
    unfold findById. cbn [conversations saveConversations set_localStorage
                          set_conversations find strictEq].
    now rewrite eqb_refl. }
  split; [apply createNewConversation_isProcessing|].
  split; [apply inSync_create|].
  intros old _ Hid. rewrite Hid.
  apply (@active_load_head (newConversation now iso) (conversations s)).
  apply createNewConversation_store.
Qed.

Lemma X7_new_chat_is_active_witness :
  In sampleConversation (conversations sampleStore)
  /\ activeConversation
       (loadConversation (id sampleConversation)
          (createNewConversation 1704103200000
             (js "2024-01-01T10:02:00.000Z") sampleStore))
     = Some (newConversation 1704103200000 (js "2024-01-01T10:02:00.000Z")).
Proof.
  assert (I : In sampleConversation (conversations sampleStore))
    by (vm_compute; right; right; left; reflexivity).
  split; [exact I|].
  apply (proj2 (proj2 (proj2 (proj2
           (X7_new_chat_is_active 1704103200000
              (js "2024-01-01T10:02:00.000Z") sampleStore))))
           sampleConversation I).
  vm_compute. reflexivity.
Defined.

(** X11: deleting a conversation other than the active one removes the
    conversations that have its id and nothing else: the others keep
    their order, the active conversation and the pane stay as they are;
    and with an id that no conversation has, the list stays as it is. *)
Theorem X11_delete_other_conversation (cid : jsstring) (now : Z)
  (iso : jsstring) (s : PhyChatApp) (c : Conversation) :
  activeConversation s = Some c ->
  id c <> cid ->
  conversations (deleteConversation cid now iso s)
  = filter (fun c' => negb (eqb (id c') cid)) (conversations s)
  /\ activeConversation (deleteConversation cid now iso s) = Some c
  /\ chatMessages (deleteConversation cid now iso s) = chatMessages s
  /\ (~ In cid (map id (conversations s)) ->
      conversations (deleteConversation cid now iso s) = conversations s).
Proof.
  intros Ha Hne.
  pose proof (findById_found _ _ Ha) as [_ Hcur].
  destruct (deleteConversation_cases cid now iso s)
    as [(_ & ->)|[(E & _)|(E & _)]]; [|congruence..].
  cbn [conversations chatMessages saveConversations set_localStorage
       set_conversations].
  split; [reflexivity|]. split; [|split; [reflexivity|]].
  - unfold activeConversation, findById in *.
    cbn [conversations currentConversationId saveConversations
         set_localStorage set_conversations].
    apply find_filter_first; [exact Ha|].
    now apply negb_true_iff, eqb_neq.
  - intros Hn. induction (conversations s) as [|x l IH]; [reflexivity|].
    cbn [filter]. destruct (eqb (id x) cid) eqn:X.
    + apply eqb_eq in X. exfalso. apply Hn. now left.
    + cbn [negb]. f_equal. apply IH. intros H. apply Hn. now right.
Qed.

Lemma X11_delete_other_conversation_witness :
  map id
    (conversations
       (deleteConversation (js "1704103200001") 1704103300000
          (js "2024-01-01T10:01:40.000Z") sampleStore))
  = [js "1704103260000"; js "1704103200000"]
  /\ activeConversation
       (deleteConversation (js "1704103200001") 1704103300000
          (js "2024-01-01T10:01:40.000Z") sampleStore)
     = Some (newConversation 1704103260000 (js "2024-01-01T10:01:00.000Z")).
Proof.
  destruct (@X11_delete_other_conversation (js "1704103200001")
              1704103300000 (js "2024-01-01T10:01:40.000Z") sampleStore
              (newConversation 1704103260000
                 (js "2024-01-01T10:01:00.000Z")))
    as (A & B & _).
  - vm_compute. reflexivity.
  - vm_compute. discriminate.
  - split; [|exact B]. rewrite A. vm_compute. reflexivity.
Defined.

(* ================================================================== *)
(** ** What a response tells about the message *)
(* ================================================================== *)

Lemma firstResponse_found (lowerMessage response : jsstring)
  (entries : list (jsstring * jsstring)) :
  firstResponse lowerMessage entries = Some response ->
  exists k, In (k, response) entries /\ includes lowerMessage k = true.
Proof.
  induction entries as [|[k r] entries IH]; [discriminate|].
  cbn [firstResponse]. destruct (includes lowerMessage k) eqn:I.
  - intros [= <-]. exists k. split; [now left|exact I].
  - intros H. destruct (IH H) as (k' & Hin & Hk').
    exists k'. split; [now right|exact Hk'].
Qed.

Lemma firstResponse_hit (lowerMessage : jsstring)
  (pre post : list (jsstring * jsstring)) (e : jsstring * jsstring) :
  In e pre -> includes lowerMessage (fst e) = true ->
  exists k r, In (k, r) pre
              /\ firstResponse lowerMessage (pre ++ post) = Some r.
Proof.
  induction pre as [|[k r] pre IH]; [intros []|].
  cbn [List.app firstResponse]. intros Hin He.
  destruct (includes lowerMessage k) eqn:I.
  - exists k, r. split; [now left|reflexivity].
  - destruct Hin as [<-|Hin]; [cbn [fst] in He; congruence|].
    destruct (IH Hin He) as (k' & r' & H1 & H2).
    exists k', r'. split; [now right|exact H2].
Qed.

Lemma same_response_same_keyword (l : list (jsstring * jsstring))
  (k k' r : jsstring) :
  NoDup (map snd l) -> In (k, r) l -> In (k', r) l -> k = k'.
Proof.
  induction l as [|[a b] l IH]; [intros _ []|].
  cbn [map snd]. intros Hnd H1 H2.
  apply NoDup_cons_iff in Hnd as [Hb Hl].
  destruct H1 as [E1|H1], H2 as [E2|H2].
  - congruence.
  - exfalso. apply Hb. apply (in_map snd) in H2.
    cbn [snd] in H2. congruence.
  - exfalso. apply Hb. apply (in_map snd) in H1.
    cbn [snd] in H1. congruence.
  - now apply IH.
Qed.

Lemma default_is_no_topic : ~ In default_response (map snd topics).
Proof.
  vm_compute. intros H.
  repeat (destruct H as [H|H]; [discriminate H|]). exact H.
Qed.

(** X13: the response tells which keyword was found.  The response of a
    topic is returned only for a message in which the keyword of the
    topic occurs, whatever the case of the letters; and the default
    response is returned exactly for the messages in which no keyword of
    a topic occurs. *)
Theorem X13_response_reveals_keyword (message : jsstring) :
  (forall k r,
     In (k, r) topics -> getAIResponse message = r ->
     occursIgnoringCase k message)
  /\ (getAIResponse message = default_response
      <-> forall e, In e topics -> ~ occursIgnoringCase (fst e) message).
Proof.
  assert (L : forall e, In e responses -> toLowerCase (fst e) = fst e)
    by (apply Forall_forall, keywords_lower_case).
  assert (T : forall e, In e topics -> In e responses).
  { intros e He. change responses
      with (topics ++ [(js "default", default_response)]).
    apply in_or_app. now left. }
  split.
  - intros k r Hin Hr. unfold getAIResponse in Hr.
    destruct (firstResponse (toLowerCase message) responses) as [r'|] eqn:F.
    + subst r'. apply firstResponse_found in F as (k' & Hin' & I).
      rewrite (same_response_same_keyword responses k k' r
                 responses_distinct (T _ Hin) Hin').
      apply includes_iff_occurs; [|exact I]. apply (L (k', r) Hin').
    + exfalso. apply default_is_no_topic. rewrite Hr.
      now apply (in_map snd) in Hin.
  - split.
    + intros Hd e He Ho.
      apply includes_iff_occurs in Ho; [|now apply L, T].
      destruct (@firstResponse_hit (toLowerCase message) topics
                  [(js "default", default_response)] e He Ho)
        as (k & r & Hin & F).
      unfold getAIResponse in Hd.
      change responses
        with (topics ++ [(js "default", default_response)]) in Hd.
      rewrite F in Hd. apply default_is_no_topic. rewrite <- Hd.
      now apply (in_map snd) in Hin.
    + intros Hn. unfold getAIResponse.
      change responses
        with (topics ++ [(js "default", default_response)]).
      rewrite firstResponse_skip.
      * cbn [firstResponse]. now destruct (includes _ _).
      * intros e He.
        destruct (includes (toLowerCase message) (fst e)) eqn:I;
          [|reflexivity].
        exfalso. apply (Hn e He).
        apply includes_iff_occurs; [now apply L, T|exact I].
Qed.

Lemma X13_response_reveals_keyword_witness :
  getAIResponse (js "Is NEWTONIAN gravity exact?") = newton_response
  /\ occursIgnoringCase (js "newton") (js "Is NEWTONIAN gravity exact?").
Proof.
  assert (R : getAIResponse (js "Is NEWTONIAN gravity exact?")
              = newton_response) by (vm_compute; reflexivity).
  split; [exact R|].
  apply (proj1 (X13_response_reveals_keyword
                  (js "Is NEWTONIAN gravity exact?"))
           (js "newton") newton_response); [left; reflexivity|exact R].
Defined.

(* ================================================================== *)
(** ** Regular expressions *)
(* ================================================================== *)

Module RegExpFacts.

Import RegExp.

Lemma Matches_Class_inv (p : code_unit -> bool) (s : jsstring) :
  Matches (Class p) s -> exists c, s = [c] /\ p c = true.
Proof. intros H. inversion H; subst. now exists c. Qed.

Lemma Matches_Cat_inv (r1 r2 : regex) (s : jsstring) :
  Matches (Cat r1 r2) s ->
  exists s1 s2, s = s1 ++ s2 /\ Matches r1 s1 /\ Matches r2 s2.
Proof. intros H. inversion H; subst. now exists s1, s2. Qed.

Lemma Matches_Alt_inv (r1 r2 : regex) (s : jsstring) :
  Matches (Alt r1 r2) s -> Matches r1 s \/ Matches r2 s.
Proof. intros H. inversion H; subst; [now left|now right]. Qed.

Lemma nullable_Matches (r : regex) : nullable r = true <-> Matches r [].
Proof.
  split.
  - induction r as [| |p|r1 IH1 r2 IH2|r1 IH1 r2 IH2|r IH];
      cbn [nullable]; intros H; try discriminate H.
    + apply MEps.
    + apply andb_true_iff in H as [H1 H2].
      apply (MCat (IH1 H1) (IH2 H2)).
    + apply orb_true_iff in H as [H|H];
        [apply MAltL, IH1, H|apply MAltR, IH2, H].
    + apply MStarNil.
  - intros H. remember (@nil code_unit) as s eqn:E.
    induction H as [|p c Hp|r1 r2 s1 s2 _ IH1 _ IH2|r1 r2 s _ IH
                    |r1 r2 s _ IH|r|r s1 s2 _ _ _ _];
      cbn [nullable]; try reflexivity; try discriminate E.
    + apply app_eq_nil in E as [E1 E2].
      now rewrite (IH1 E1), (IH2 E2).
    + now rewrite (IH E).
    + rewrite (IH E). apply orb_true_r.
Qed.

(** A non-empty string of [r*] starts with a non-empty string of [r]. *)
Lemma Matches_Star_unit (r : regex) (c : code_unit) (s : jsstring) :
  Matches (Star r) (c :: s) ->
  exists s1 s2, s = s1 ++ s2 /\ Matches r (c :: s1) /\ Matches (Star r) s2.
Proof.
  intros H. remember (Star r) as r' eqn:Er. remember (c :: s) as cs eqn:Es.
  induction H as [|p c' Hp|r1 r2 s1 s2 _ _ _ _|r1 r2 s' _ _
                  |r1 r2 s' _ _|r0|r0 s1 s2 H1 _ H2 IH2];
    try discriminate Er; try discriminate Es.
  injection Er as ->. destruct s1 as [|c1 s1].
  - apply IH2; [reflexivity|exact Es].
  - cbn [app] in Es. injection Es as E1 E2. subst c1 s.
    now exists s1, s2.
Qed.

Lemma derive_Matches (r : regex) :
  forall c s, Matches (derive c r) s <-> Matches r (c :: s).
Proof.
  induction r as [| |p|r1 IH1 r2 IH2|r1 IH1 r2 IH2|r IH];
    intros c s; cbn [derive].
  - split; intros H; inversion H.
  - split; intros H; inversion H.
  - destruct (p c) eqn:Hp; split; intros H; inversion H; subst.
    + now apply MClass.
    + apply MEps.
    + congruence.
  - assert (L : Matches (Cat (derive c r1) r2) s ->
                Matches (Cat r1 r2) (c :: s)).
    { intros H. apply Matches_Cat_inv in H as (s1 & s2 & -> & Ha & Hb).
      apply IH1 in Ha. apply (MCat Ha Hb). }
    assert (R : Matches (Cat r1 r2) (c :: s) ->
                Matches (Cat (derive c r1) r2) s
                \/ (Matches r1 [] /\ Matches (derive c r2) s)).
    { intros H. apply Matches_Cat_inv in H as (s1 & s2 & E & Ha & Hb).
      destruct s1 as [|c1 s1]; cbn [app] in E.
      - right. subst s2. split; [exact Ha|apply IH2, Hb].
      - left. injection E as E1 E2. subst c1 s.
        apply IH1 in Ha. apply (MCat Ha Hb). }
    destruct (nullable r1) eqn:N1; split; intros H.
    + apply Matches_Alt_inv in H as [H|H]; [now apply L|].
      apply nullable_Matches in N1. apply IH2 in H. apply (MCat N1 H).
    + apply R in H as [H|[_ H]]; [now apply MAltL|now apply MAltR].
    + now apply L.
    + apply R in H as [H|[H _]]; [exact H|].
      apply nullable_Matches in H. congruence.
  - split; intros H; apply Matches_Alt_inv in H as [H|H].
    + apply MAltL, IH1, H.
    + apply MAltR, IH2, H.
    + apply MAltL, IH1, H.
    + apply MAltR, IH2, H.
  - split; intros H.
    + apply Matches_Cat_inv in H as (s1 & s2 & -> & Ha & Hb).
      apply IH in Ha. apply (MStarCons Ha Hb).
    + apply Matches_Star_unit in H as (s1 & s2 & -> & Ha & Hb).
      apply IH in Ha. apply (MCat Ha Hb).
Qed.

(** [test] decides the strings of a pattern. *)
Lemma test_Matches (s : jsstring) :
  forall r, test r s = true <-> Matches r s.
Proof.
  induction s as [|c s IH]; intros r; cbn [test].
  - apply nullable_Matches.
  - rewrite IH. apply derive_Matches.
Qed.

(** The strings of [[p]*] and of [[p]+]. *)
Lemma Matches_Star_Class (p : code_unit -> bool) (s : jsstring) :
  Matches (Star (Class p)) s <-> forallb p s = true.
Proof.
  split.
  - intros H. remember (Star (Class p)) as r eqn:Er.
    induction H as [|q c Hq|r1 r2 s1 s2 _ _ _ _|r1 r2 s' _ _
                    |r1 r2 s' _ _|r0|r0 s1 s2 H1 _ H2 IH2];
      try discriminate Er.
    + reflexivity.
    + injection Er as ->.
      apply Matches_Class_inv in H1 as (c & -> & Hc).
      cbn [app forallb]. rewrite IH2 by reflexivity.
      now rewrite Hc.
  - induction s as [|c s IH]; cbn [forallb]; intros H.
    + apply MStarNil.
    + apply andb_true_iff in H as [Hc Hs].
      apply (MStarCons (MClass p c Hc) (IH Hs)).
Qed.

Lemma Matches_Plus_Class (p : code_unit -> bool) (s : jsstring) :
  Matches (Plus (Class p)) s <-> s <> [] /\ forallb p s = true.
Proof.
  unfold Plus. split.
  - intros H. apply Matches_Cat_inv in H as (s1 & s2 & -> & Ha & Hb).
    apply Matches_Class_inv in Ha as (c & -> & Hc).
    apply Matches_Star_Class in Hb.
    split; [discriminate|]. cbn [app forallb]. now rewrite Hc, Hb.
  - intros [Hn H]. destruct s as [|c s]; [congruence|].
    cbn [forallb] in H. apply andb_true_iff in H as [Hc Hs].
    apply (MCat (MClass p c Hc)). now apply Matches_Star_Class.
Qed.

End RegExpFacts.

(* ================================================================== *)
(** ** The validation of a form *)
(* ================================================================== *)

Section FormFacts.

Import RegExp RegExpFacts FormHandler.

Local Open Scope N_scope.

(** The strings of the pattern of [isValidEmail]. *)
Lemma emailPattern_Matches (email : jsstring) :
  Matches emailPattern email <->
  exists name host tld,
    email = name ++ 64 :: host ++ 46 :: tld
    /\ (name <> [] /\ forallb notSpaceOrAt name = true)
    /\ (host <> [] /\ forallb notSpaceOrAt host = true)
    /\ (tld <> [] /\ forallb notSpaceOrAt tld = true).
Proof.
  unfold emailPattern. split.
  - intros H.
    apply Matches_Cat_inv in H as (name & s1 & -> & Hn & H).
    apply Matches_Cat_inv in H as (at_ & s2 & -> & Ha & H).
    apply Matches_Cat_inv in H as (host & s3 & -> & Hh & H).
    apply Matches_Cat_inv in H as (dot & tld & -> & Hd & Ht).
    apply Matches_Class_inv in Ha as (a & -> & Ea).
    apply Matches_Class_inv in Hd as (d & -> & Ed).
    apply N.eqb_eq in Ea, Ed. subst a d.
    apply Matches_Plus_Class in Hn, Hh, Ht.
    now exists name, host, tld.
  - intros (name & host & tld & -> & Hn & Hh & Ht).
    apply Matches_Plus_Class in Hn, Hh, Ht.
    apply (MCat Hn). apply (MCat (s1 := [64]) (s2 := host ++ 46 :: tld)).
    + now apply MClass.
    + apply (MCat Hh). apply (MCat (s1 := [46]) (s2 := tld)).
      * now apply MClass.
      * exact Ht.
Qed.

Lemma notSpaceOrAt_units (s : jsstring) :
  forallb notSpaceOrAt s = true ->
  forallb (fun c : code_unit => negb (isWhiteSpace c)) s = true
  /\ count_occ N.eq_dec s 64 = 0%nat.
Proof.
  induction s as [|c s IH]; [now split|].
  cbn [forallb count_occ]. intros H.
  apply andb_true_iff in H as [Hc Hs]. destruct (IH Hs) as [IH1 IH2].
  unfold notSpaceOrAt in Hc. apply negb_true_iff, orb_false_iff in Hc.
  destruct Hc as [Hw Ha]. rewrite Hw, IH1. split; [reflexivity|].
  apply N.eqb_neq in Ha. destruct (N.eq_dec c 64); [congruence|exact IH2].
Qed.

Lemma trim_no_space (s : jsstring) :
  forallb (fun c : code_unit => negb (isWhiteSpace c)) s = true -> trim s = s.
Proof.
  assert (T : forall u, forallb (fun c : code_unit => negb (isWhiteSpace c)) u = true ->
                        trimStart u = u).
  { intros [|c u]; [reflexivity|]. cbn [forallb trimStart]. intros H.
    apply andb_true_iff in H as [H _]. apply negb_true_iff in H.
    now rewrite H. }
  intros H. unfold trim, trimEnd. rewrite (T s H), T.
  - apply rev_involutive.
  - now rewrite forallb_rev.
Qed.

End FormFacts.

(** X14: the addresses that [isValidEmail] accepts.  An address is
    accepted exactly when it is a name, the sign [@], a host, a dot and a
    last part, where the three parts are not empty and hold neither
    white space nor [@]. *)
Theorem X14_valid_email_shape (email : jsstring) :
  FormHandler.isValidEmail email = true <->
  exists name host tld,
    email = name ++ 64%N :: host ++ 46%N :: tld
    /\ (name <> [] /\ forallb FormHandler.notSpaceOrAt name = true)
    /\ (host <> [] /\ forallb FormHandler.notSpaceOrAt host = true)
    /\ (tld <> [] /\ forallb FormHandler.notSpaceOrAt tld = true).
Proof.
  unfold FormHandler.isValidEmail.
  rewrite RegExpFacts.test_Matches. apply emailPattern_Matches.
Qed.

(** X15: an accepted address holds the sign [@] once and no white space,
    so that [trim] leaves it as it is: an address typed with a space
    around it is not accepted, though its field is not empty. *)
Theorem X15_valid_email_one_at (email : jsstring) :
  FormHandler.isValidEmail email = true ->
  count_occ N.eq_dec email 64%N = 1%nat
  /\ forallb (fun c : code_unit => negb (isWhiteSpace c)) email = true
  /\ trim email = email.
Proof.
  unfold FormHandler.isValidEmail. intros H.
  apply RegExpFacts.test_Matches, emailPattern_Matches in H.
  destruct H as (name & host & tld & -> & [_ Hn] & [_ Hh] & [_ Ht]).
  apply notSpaceOrAt_units in Hn as [Wn Cn], Hh as [Wh Ch], Ht as [Wt Ct].
  assert (W : forallb (fun c : code_unit => negb (isWhiteSpace c))
                (name ++ 64%N :: host ++ 46%N :: tld) = true).
  { rewrite forallb_app. cbn [forallb]. rewrite forallb_app.
    cbn [forallb]. repeat (apply andb_true_iff; split);
      [exact Wn|reflexivity|exact Wh|reflexivity|exact Wt]. }
  split; [|split; [exact W|now apply trim_no_space]].
  rewrite count_occ_app. cbn [count_occ].
  destruct (N.eq_dec 64 64) as [_|N]; [|congruence].
  rewrite count_occ_app. cbn [count_occ].
  destruct (N.eq_dec 46 64) as [E|_]; [discriminate E|].
  rewrite Cn, Ch, Ct. reflexivity.
Qed.

Lemma X15_valid_email_one_at_witness :
  FormHandler.isValidEmail (js "ada@example.org") = true
  /\ count_occ N.eq_dec (js "ada@example.org") 64%N = 1%nat
  /\ FormHandler.isValidEmail (js "ada@example.org ") = false.
Proof.
  split; [vm_compute; reflexivity|].
  split; [|vm_compute; reflexivity].
  apply (X15_valid_email_one_at (js "ada@example.org")).
  vm_compute. reflexivity.
Defined.

Section FormRun.

Import FormHandler.

Lemma validateInput_cases (i : input) (isValid : bool) :
  snd (validateInput i isValid) = filled i && isValid
  /\ classError (fst (validateInput i isValid)) = negb (filled i)
  /\ value (fst (validateInput i isValid)) = value i
  /\ type (fst (validateInput i isValid)) = type i.
Proof.
  unfold validateInput, filled.
  destruct (truthy (trim (value i))); cbn [negb andb].
  - destruct (JSString.eqb (type i) (js "email")); cbn [negb andb orb].
    + destruct (isValidEmail (value i)); cbn [negb fst snd]; auto.
    + cbn [fst snd]. auto.
  - cbn [fst snd]. auto.
Qed.

(** What [validateInput] leaves does not depend on the error that the
    input showed before. *)
Lemma validateInput_again (i : input) (b b' : bool) :
  fst (validateInput (fst (validateInput i b)) b') = fst (validateInput i b).
Proof.
  unfold validateInput.
  destruct (truthy (trim (value i))) eqn:T; cbn [negb andb].
  - destruct (JSString.eqb (type i) (js "email")) eqn:E; cbn [negb andb].
    + destruct (isValidEmail (value i)) eqn:V; cbn [negb fst];
        cbn [showInputError clearInputError value type];
        rewrite T, E, V; cbn [negb andb fst];
        unfold showInputError, clearInputError; cbn [value type errorEl];
        now destruct (errorEl i).
    + cbn [fst clearInputError value type]. rewrite T, E.
      cbn [negb andb fst]. unfold clearInputError. cbn [value type errorEl].
      now destruct (errorEl i).
  - cbn [fst showInputError value]. rewrite T. cbn [negb fst].
    unfold showInputError. cbn [value type errorEl].
    now destruct (errorEl i).
Qed.

Lemma validateEach_spec (inputs : list input) :
  forall isValid,
    validateEach inputs isValid
    = (map (fun i => fst (validateInput i true)) inputs,
       forallb filled inputs && isValid).
Proof.
  induction inputs as [|i rest IH]; intros b; cbn [validateEach map forallb].
  - reflexivity.
  - destruct (validateInput i b) as [i' b'] eqn:V. rewrite IH.
    pose proof (validateInput_cases i b) as (Hs & _).
    rewrite V in Hs. cbn [snd] in Hs. subst b'.
    f_equal.
    + f_equal. change i' with (fst (i', filled i && b)). rewrite <- V.
      unfold validateInput.
      destruct (truthy (trim (value i))); cbn [negb]; [|reflexivity].
      now destruct (JSString.eqb _ _ && _).
    + destruct (filled i), (forallb filled rest), b; reflexivity.
Qed.

End FormRun.

(** X16: what [validateForm] returns and what it shows.  It returns
    [true] exactly when it leaves no input with the class [error]; every
    input is checked, also after one was refused, and gets the class
    exactly when it is blank or an address that [isValidEmail] refuses,
    whatever it showed before; so validating again changes nothing. *)
Theorem X16_form_errors_shown (inputs : list FormHandler.input) :
  snd (FormHandler.validateForm inputs)
  = forallb (fun i => negb (FormHandler.classError i))
      (fst (FormHandler.validateForm inputs))
  /\ map FormHandler.classError (fst (FormHandler.validateForm inputs))
     = map (fun i => negb (FormHandler.filled i)) inputs
  /\ FormHandler.validateForm (fst (FormHandler.validateForm inputs))
     = FormHandler.validateForm inputs.
Proof.
  unfold FormHandler.validateForm. rewrite !validateEach_spec.
  cbn [fst snd]. rewrite !andb_true_r.
  assert (C : map FormHandler.classError
                (map (fun i => fst (FormHandler.validateInput i true)) inputs)
              = map (fun i => negb (FormHandler.filled i)) inputs).
  { rewrite map_map. apply map_ext. intros i.
    apply (validateInput_cases i true). }
  split; [|split; [exact C|]].
  - induction inputs as [|i rest IH]; [reflexivity|].
    cbn [map forallb]. injection C as C1 C2.
    rewrite C1, negb_involutive, (IH C2). reflexivity.
  - f_equal.
    + rewrite map_map. apply map_ext. intros i. apply validateInput_again.
    + induction inputs as [|i rest IH]; [reflexivity|].
      cbn [map forallb]. injection C as C1 C2. rewrite (IH C2). f_equal.
      unfold FormHandler.filled.
      destruct (validateInput_cases i true) as (_ & _ & -> & ->).
      reflexivity.
Qed.

(* ================================================================== *)
(** ** The theme *)
(* ================================================================== *)

Section ThemeFacts.

Import ThemeManager.

Lemma dark_units : exists c s, js "dark" = c :: s.
Proof. vm_compute. eauto. Qed.

Lemma light_units : exists c s, js "light" = c :: s.
Proof. vm_compute. eauto. Qed.

Lemma orDark_some (x : option jsstring) :
  exists c s, orDark x = c :: s.
Proof.
  destruct x as [[|c s]|]; cbn [orDark];
    [apply dark_units|exists c, s; reflexivity|apply dark_units].
Qed.

(** [(x || 'dark') || 'dark'] is [x || 'dark']. *)
Lemma orDark_again (x : option jsstring) :
  orDark (Some (orDark x)) = orDark x.
Proof. destruct (orDark_some x) as (c & s & ->). reflexivity. Qed.

Lemma updateToggleIcon_again (theme theme' : jsstring)
  (icon : option jsstring) :
  updateToggleIcon theme (updateToggleIcon theme' icon)
  = updateToggleIcon theme icon.
Proof. now destruct icon. Qed.

Lemma settled_setTheme (t : ThemeManager) (c : code_unit) (s : jsstring) :
  settled (setTheme (c :: s) t).
Proof.
  exists c, s. cbn [setTheme dataTheme storedTheme iconClassName].
  now rewrite updateToggleIcon_again.
Qed.

Lemma settled_init (t : ThemeManager) : settled (init t).
Proof.
  unfold init. destruct (orDark_some (storedTheme t)) as (c & s & ->).
  apply settled_setTheme.
Qed.

Lemma settled_toggleTheme (t : ThemeManager) : settled (toggleTheme t).
Proof.
  unfold toggleTheme.
  destruct (JSString.eqb (orDark (dataTheme t)) (js "dark")).
  - destruct light_units as (c & s & ->). apply settled_setTheme.
  - destruct dark_units as (c & s & ->). apply settled_setTheme.
Qed.

Lemma settled_clicks (n : nat) :
  forall t, settled t -> settled (clicks n t).
Proof.
  induction n as [|n IH]; intros t H; cbn [clicks]; [exact H|].
  apply IH, settled_toggleTheme.
Qed.

Lemma clicks_S (n : nat) :
  forall t, clicks (S n) t = toggleTheme (clicks n t).
Proof.
  induction n as [|n IH]; intros t; [reflexivity|].
  change (clicks (S (S n)) t) with (clicks (S n) (toggleTheme t)).
  rewrite IH. reflexivity.
Qed.

Lemma toggleTheme_dataTheme (t : ThemeManager) :
  dataTheme (toggleTheme t)
  = Some (if JSString.eqb (orDark (dataTheme t)) (js "dark")
          then js "light" else js "dark").
Proof. reflexivity. Qed.

End ThemeFacts.

(** X17: the theme survives a reload.  After [init] and any number of
    clicks on the toggle, the attribute of the body and the storage item
    hold the same theme, and [init] on the reloaded page, which reads the
    storage item only, gives the page back: attribute, icon and item. *)
Theorem X17_theme_survives_reload (t : ThemeManager.ThemeManager) (n : nat) :
  ThemeManager.dataTheme (ThemeManager.clicks n (ThemeManager.init t))
  = ThemeManager.storedTheme (ThemeManager.clicks n (ThemeManager.init t))
  /\ ThemeManager.init
       (ThemeManager.reloaded (ThemeManager.clicks n (ThemeManager.init t)))
     = ThemeManager.clicks n (ThemeManager.init t).
Proof.
  destruct (settled_clicks n (settled_init t)) as (c & s & D & S & I).
  destruct (ThemeManager.clicks n (ThemeManager.init t))
    as [d icon st]. cbn in D, S, I. subst d st.
  split; [reflexivity|].
  unfold ThemeManager.init, ThemeManager.reloaded, ThemeManager.setTheme.
  cbn [ThemeManager.storedTheme ThemeManager.iconClassName
       ThemeManager.orDark].
  f_equal. rewrite I at 2. now destruct icon.
Qed.

(** X18: the toggle alternates between [dark] and [light].  [init] shows
    the saved theme, or [dark] when none is saved; the first click shows
    [light] when that theme is [dark] and [dark] when it is any other
    text, and every later click shows the other one of the two. *)
Theorem X18_toggle_alternates (t : ThemeManager.ThemeManager) (n : nat) :
  ThemeManager.dataTheme (ThemeManager.init t)
  = Some (ThemeManager.orDark (ThemeManager.storedTheme t))
  /\ ThemeManager.dataTheme
       (ThemeManager.clicks (S n) (ThemeManager.init t))
     = Some (if Bool.eqb
                  (JSString.eqb
                     (ThemeManager.orDark (ThemeManager.storedTheme t))
                     (js "dark"))
                  (Nat.even n)
             then js "light" else js "dark").
Proof.
  split; [reflexivity|].
  induction n as [|n IH].
  - cbn [ThemeManager.clicks]. rewrite toggleTheme_dataTheme.
    cbn [ThemeManager.init ThemeManager.setTheme ThemeManager.dataTheme].
    rewrite orDark_again. cbn [Nat.even].
    now destruct (JSString.eqb _ _).
  - rewrite clicks_S, toggleTheme_dataTheme, IH.
    rewrite Nat.even_succ, <- Nat.negb_even.
    destruct (JSString.eqb
                (ThemeManager.orDark (ThemeManager.storedTheme t))
                (js "dark")), (Nat.even n); cbn [Bool.eqb negb];
      vm_compute; reflexivity.
Qed.

(* ================================================================== *)
(** ** The accordion *)
(* ================================================================== *)

Section AccordionFacts.

Import FAQAccordion.

Lemma openCount_closeAll (its : items) : openCount (closeAll its) = 0.
Proof.
  induction its as [|i its IH]; [reflexivity|].
  cbn [closeAll map openCount count_occ]. destruct (bool_dec false true);
    [discriminate|exact IH].
Qed.

Lemma nth_closeAll (j : nat) (its : items) : nth j (closeAll its) false = false.
Proof.
  revert j. induction its as [|i its IH]; intros [|j]; cbn [closeAll map nth];
    try reflexivity. apply IH.
Qed.

Lemma length_open (k : nat) :
  forall its, List.length (open k its) = List.length its.
Proof.
  induction k as [|k IH]; intros [|i its]; cbn [open List.length];
    try reflexivity. now rewrite IH.
Qed.

(** Opening one item of a closed accordion. *)
Lemma open_closeAll (k : nat) :
  forall its,
    openCount (open k (closeAll its)) <= 1
    /\ forall j, nth j (open k (closeAll its)) false
                 = (j =? k) && (k <? List.length its).
Proof.
  induction k as [|k IH]; intros [|i its].
  - split; [cbn; lia|]. now intros [|j].
  - cbn [closeAll map open]. split.
    + change (openCount (true :: map (fun _ => false) its))
        with (S (openCount (closeAll its))).
      rewrite openCount_closeAll. lia.
    + intros [|j]; cbn [nth]; [reflexivity|]. apply nth_closeAll.
  - split; [cbn; lia|]. intros [|j]; cbn [open closeAll map nth];
      [reflexivity|]. now rewrite andb_false_r.
  - destruct (IH its) as [C N]. cbn [closeAll map open]. split.
    + unfold openCount in *. cbn [count_occ].
      destruct (bool_dec false true); [discriminate|exact C].
    + intros [|j]; cbn [nth]; [reflexivity|]. apply N.
Qed.

Lemma toggleItem_spec (k : nat) (its : items) :
  openCount (toggleItem k its) <= 1
  /\ forall j, nth j (toggleItem k its) false
               = (j =? k) && negb (nth k its false) && (k <? List.length its).
Proof.
  unfold toggleItem. destruct (nth k its false); cbn [negb].
  - split; [rewrite openCount_closeAll; lia|].
    intros j. rewrite nth_closeAll. now rewrite andb_false_r.
  - destruct (open_closeAll k its) as [C N]. split; [exact C|].
    intros j. rewrite N. now rewrite andb_true_r.
Qed.

Lemma length_toggleItem (k : nat) (its : items) :
  List.length (toggleItem k its) = List.length its.
Proof.
  unfold toggleItem, closeAll.
  destruct (negb _); [rewrite length_open|]; apply length_map.
Qed.

Lemma closeAll_again (its its' : items) :
  List.length its' = List.length its -> closeAll its' = closeAll its.
Proof.
  revert its'. induction its as [|i its IH]; intros [|i' its'] H;
    try discriminate H; [reflexivity|].
  cbn [closeAll map]. f_equal. apply IH. now injection H.
Qed.

End AccordionFacts.

(** X19: at most one item of the accordion is open.  After one click or
    more, on any questions and from any items, one item at most is
    active, and it can only be the item of the last click. *)
Theorem X19_accordion_one_open (ks : list nat) (k : nat)
  (its : FAQAccordion.items) :
  FAQAccordion.openCount (FAQAccordion.clickAll (ks ++ [k]) its) <= 1
  /\ forall j,
       nth j (FAQAccordion.clickAll (ks ++ [k]) its) false = true -> j = k.
Proof.
  unfold FAQAccordion.clickAll. rewrite fold_left_app. cbn [fold_left].
  destruct (toggleItem_spec k
              (fold_left (fun acc k0 => FAQAccordion.toggleItem k0 acc)
                 ks its)) as [C N].
  split; [exact C|]. intros j H. rewrite N in H.
  apply andb_true_iff in H as [H _]. apply andb_true_iff in H as [H _].
  now apply Nat.eqb_eq.
Qed.

(** X20: a click on a question toggles its item and closes the others.
    The item of the click is active afterwards exactly when it was not
    before, and no other item is; two clicks in a row on the question of
    a closed item leave every item closed. *)
Theorem X20_accordion_toggle (k : nat) (its : FAQAccordion.items) :
  k < List.length its ->
  nth k (FAQAccordion.toggleItem k its) false = negb (nth k its false)
  /\ (forall j, j <> k -> nth j (FAQAccordion.toggleItem k its) false = false)
  /\ (nth k its false = false ->
      FAQAccordion.toggleItem k (FAQAccordion.toggleItem k its)
      = FAQAccordion.closeAll its).
Proof.
  intros Hk. destruct (toggleItem_spec k its) as [_ N].
  apply Nat.ltb_lt in Hk. split; [|split].
  - rewrite N, Nat.eqb_refl, Hk. now rewrite andb_true_r.
  - intros j Hj. rewrite N. apply Nat.eqb_neq in Hj. now rewrite Hj.
  - intros Hc.
    unfold FAQAccordion.toggleItem at 1.
    rewrite N, Nat.eqb_refl, Hk, Hc. cbn [andb negb].
    apply closeAll_again, length_toggleItem.
Qed.

Lemma X20_accordion_toggle_witness :
  1 < List.length [true; false; true]
  /\ FAQAccordion.toggleItem 1 [true; false; true] = [false; true; false]
  /\ nth 1 (FAQAccordion.toggleItem 1 [true; false; true]) false = true.
Proof.
  split; [cbn; lia|]. split; [reflexivity|].
  refine (proj1 (@X20_accordion_toggle 1 [true; false; true] _)).
  cbn. lia.
Defined.

(* ================================================================== *)
(** ** The typing effect *)
(* ================================================================== *)

Section TypingFacts.

Import TypingEffect.

Local Open Scope Z_scope.

Lemma nth_of_nth_error (ts : list jsstring) (i : nat) (t : jsstring) :
  nth_error ts i = Some t -> nth i ts [] = t.
Proof. intros H. now apply nth_error_nth. Qed.

(** One call while typing, before the last code unit of the text. *)
Lemma type_typing (e : TypingEffect) (t : jsstring) (c : nat) :
  nth_error (texts e) (currentTextIndex e) = Some t ->
  isDeleting e = false -> currentCharIndex e = Z.of_nat c ->
  (S c < List.length t)%nat ->
  type e = Some (showing e (currentTextIndex e) (S c) false (typeSpeed e)).
Proof.
  intros Ht Hd Hc Hl. unfold type, showing.
  rewrite Ht, Hd, Hc, (nth_of_nth_error _ _ Ht). cbn [negb andb].
  replace (Z.of_nat c + 1) with (Z.of_nat (S c)) by lia.
  destruct (Z.eqb_spec (Z.of_nat (S c)) (Z.of_nat (List.length t)));
    [lia|].
  unfold substring. rewrite Nat2Z.id. reflexivity.
Qed.

(** The call that types the last code unit. *)
Lemma type_typed (e : TypingEffect) (t : jsstring) (c : nat) :
  nth_error (texts e) (currentTextIndex e) = Some t ->
  isDeleting e = false -> currentCharIndex e = Z.of_nat c ->
  S c = List.length t ->
  type e
  = Some (showing e (currentTextIndex e) (S c) true (pauseDuration e)).
Proof.
  intros Ht Hd Hc Hl. unfold type, showing.
  rewrite Ht, Hd, Hc, (nth_of_nth_error _ _ Ht). cbn [negb andb].
  replace (Z.of_nat c + 1) with (Z.of_nat (S c)) by lia.
  rewrite <- Hl, Z.eqb_refl.
  unfold substring. rewrite Nat2Z.id. reflexivity.
Qed.

(** One call while deleting, before the first code unit of the text. *)
Lemma type_deleting (e : TypingEffect) (t : jsstring) (c : nat) :
  nth_error (texts e) (currentTextIndex e) = Some t ->
  isDeleting e = true -> currentCharIndex e = Z.of_nat (S (S c)) ->
  type e = Some (showing e (currentTextIndex e) (S c) true (deleteSpeed e)).
Proof.
  intros Ht Hd Hc. unfold type, showing.
  rewrite Ht, Hd, Hc, (nth_of_nth_error _ _ Ht). cbn [negb andb].
  replace (Z.of_nat (S (S c)) - 1) with (Z.of_nat (S c)) by lia.
  destruct (Z.eqb_spec (Z.of_nat (S c)) 0); [lia|].
  unfold substring. rewrite Nat2Z.id. reflexivity.
Qed.

(** The call that deletes the first code unit. *)
Lemma type_deleted (e : TypingEffect) (t : jsstring) :
  nth_error (texts e) (currentTextIndex e) = Some t ->
  isDeleting e = true -> currentCharIndex e = 1 ->
  type e
  = Some (showing e
            (Nat.modulo (currentTextIndex e + 1) (List.length (texts e)))
            0 false 500).
Proof.
  intros Ht Hd Hc. unfold type, showing.
  rewrite Ht, Hd, Hc. cbn [negb andb Z.sub Z.add Z.opp Z.pos_sub Z.eqb].
  reflexivity.
Qed.

(** [k] calls while typing. *)
Lemma run_typing (t : jsstring) (k : nat) :
  forall (e : TypingEffect) (c : nat),
    nth_error (texts e) (currentTextIndex e) = Some t ->
    isDeleting e = false -> currentCharIndex e = Z.of_nat c ->
    (c + S k < List.length t)%nat ->
    run (S k) e
    = Some (showing e (currentTextIndex e) (c + S k) false (typeSpeed e)).
Proof.
  induction k as [|k IH]; intros e c Ht Hd Hc Hl.
  - cbn [run]. rewrite (type_typing e Ht Hd Hc) by lia.
    now rewrite Nat.add_1_r.
  - change (run (S (S k)) e)
      with (match type e with
            | Some e' => run (S k) e'
            | None => None
            end).
    rewrite (type_typing e Ht Hd Hc) by lia.
    rewrite (IH _ (S c)); [|exact Ht|reflexivity|reflexivity|lia].
    unfold showing at 1. cbn [texts currentTextIndex typeSpeed deleteSpeed
                                pauseDuration].
    replace (S c + S k)%nat with (c + S (S k))%nat by lia. reflexivity.
Qed.

(** [k] calls while deleting. *)
Lemma run_deleting (t : jsstring) (k : nat) :
  forall (e : TypingEffect) (c : nat),
    nth_error (texts e) (currentTextIndex e) = Some t ->
    isDeleting e = true -> currentCharIndex e = Z.of_nat (S (c + S k)) ->
    run (S k) e
    = Some (showing e (currentTextIndex e) (S c) true (deleteSpeed e)).
Proof.
  induction k as [|k IH]; intros e c Ht Hd Hc.
  - cbn [run]. rewrite (@type_deleting e t c Ht Hd); [reflexivity|].
    rewrite Hc. f_equal. lia.
  - change (run (S (S k)) e)
      with (match type e with
            | Some e' => run (S k) e'
            | None => None
            end).
    rewrite (@type_deleting e t (c + S k) Ht Hd)
      by (rewrite Hc; f_equal; lia).
    rewrite (IH _ c); [reflexivity|exact Ht|reflexivity|].
    cbn [showing currentCharIndex]. reflexivity.
Qed.

Lemma run_add (n m : nat) :
  forall e : TypingEffect,
    run (n + m) e
    = match run n e with
      | Some e' => run m e'
      | None => None
      end.
Proof.
  induction n as [|n IH]; intros e; [reflexivity|].
  cbn [Nat.add run]. destruct (type e) as [e'|]; [apply IH|reflexivity].
Qed.

(** The calls that type a text in full, from its start. *)
Lemma run_typed (e : TypingEffect) (t : jsstring) :
  nth_error (texts e) (currentTextIndex e) = Some t ->
  isDeleting e = false -> currentCharIndex e = 0 ->
  t <> [] ->
  run (List.length t) e
  = Some (showing e (currentTextIndex e) (List.length t) true
            (pauseDuration e)).
Proof.
  intros Ht Hd Hc Hn.
  destruct (List.length t) as [|[|l]] eqn:L.
  - destruct t; [congruence|discriminate L].
  - cbn [run]. rewrite (@type_typed e t 0%nat Ht Hd Hc); [reflexivity|].
    now rewrite L.
  - replace (run (S (S l)) e) with (run (S l + 1) e) by (f_equal; lia).
    rewrite run_add.
    rewrite (@run_typing t l e 0%nat Ht Hd Hc) by lia.
    cbn [run Nat.add].
    rewrite (@type_typed _ t (S l));
      [reflexivity|exact Ht|reflexivity|reflexivity|].
    now rewrite L.
Qed.

(** The calls that delete a text in full, once it is typed. *)
Lemma run_deleted (e : TypingEffect) (t : jsstring) :
  nth_error (texts e) (currentTextIndex e) = Some t ->
  isDeleting e = true -> currentCharIndex e = Z.of_nat (List.length t) ->
  t <> [] ->
  run (List.length t) e
  = Some (showing e
            (Nat.modulo (currentTextIndex e + 1) (List.length (texts e)))
            0 false 500).
Proof.
  intros Ht Hd Hc Hn.
  destruct (List.length t) as [|[|l]] eqn:L.
  - destruct t; [congruence|discriminate L].
  - cbn [run]. now rewrite (@type_deleted e t Ht Hd Hc).
  - replace (run (S (S l)) e) with (run (S l + 1) e) by (f_equal; lia).
    rewrite run_add.
    rewrite (@run_deleting t l e 0%nat Ht Hd)
      by (rewrite Hc; f_equal; lia).
    cbn [run].
    rewrite (@type_deleted _ t); [reflexivity|exact Ht|reflexivity|].
    reflexivity.
Qed.

End TypingFacts.

(** X21: the cycle of the typing effect.  From the start of a text of
    [l] code units that is not empty, [l] calls of [type] show the whole
    text and set the pause as the next delay, and [2 l] calls show the
    empty text again, with the next text of the list, or the first after
    the last, as the current text; in between, for [1 <= k < l], the
    first [k] code units are shown after [k] calls, while typing, and the
    first [l - k] after [l + k] calls, while deleting. *)
Theorem X21_typing_cycle (e : TypingEffect.TypingEffect) (t : jsstring)
  (k : nat) :
  nth_error (TypingEffect.texts e) (TypingEffect.currentTextIndex e) = Some t ->
  TypingEffect.isDeleting e = false ->
  TypingEffect.currentCharIndex e = 0%Z ->
  t <> [] ->
  TypingEffect.run (List.length t) e
  = Some (TypingEffect.showing e (TypingEffect.currentTextIndex e)
            (List.length t) true (TypingEffect.pauseDuration e))
  /\ TypingEffect.run (List.length t + List.length t) e
     = Some (TypingEffect.showing e
               (Nat.modulo (TypingEffect.currentTextIndex e + 1)
                  (List.length (TypingEffect.texts e)))
               0 false 500%Z)
  /\ (1 <= k < List.length t ->
      TypingEffect.run k e
      = Some (TypingEffect.showing e (TypingEffect.currentTextIndex e) k
                false (TypingEffect.typeSpeed e))
      /\ TypingEffect.run (List.length t + k) e
         = Some (TypingEffect.showing e (TypingEffect.currentTextIndex e)
                   (List.length t - k) true (TypingEffect.deleteSpeed e))).
Proof.
  intros Ht Hd Hc Hn.
  pose proof (run_typed e Ht Hd Hc Hn) as T.
  split; [exact T|split].
  - rewrite run_add, T.
    now rewrite (@run_deleted
                   (TypingEffect.showing e (TypingEffect.currentTextIndex e)
                      (List.length t) true (TypingEffect.pauseDuration e))
                   t Ht).
  - intros Hk. destruct k as [|k]; [lia|]. split.
    + apply (@run_typing t k e 0%nat Ht Hd Hc). lia.
    + rewrite run_add, T.
      rewrite (@run_deleting t k
                 (TypingEffect.showing e (TypingEffect.currentTextIndex e)
                    (List.length t) true (TypingEffect.pauseDuration e))
                 (List.length t - S (S k))%nat Ht);
        [|reflexivity
         |cbn [TypingEffect.showing TypingEffect.currentCharIndex];
          f_equal; lia].
      unfold TypingEffect.showing at 1.
      cbn [TypingEffect.texts TypingEffect.currentTextIndex
           TypingEffect.typeSpeed TypingEffect.deleteSpeed
           TypingEffect.pauseDuration].
      replace (S (List.length t - S (S k))) with (List.length t - S k)%nat
        by lia.
      reflexivity.
Qed.

Lemma X21_typing_cycle_witness :
  TypingEffect.run 6
    (TypingEffect.constructed [] [js "Hi!"; js "Yo"] None None None)
  = Some (TypingEffect.showing
            (TypingEffect.constructed [] [js "Hi!"; js "Yo"] None None None)
            1 0 false 500%Z)
  /\ TypingEffect.run 4
       (TypingEffect.constructed [] [js "Hi!"; js "Yo"] None None None)
     = Some (TypingEffect.showing
               (TypingEffect.constructed [] [js "Hi!"; js "Yo"] None None
                  None)
               0 2 true 50%Z).
Proof.
  assert (N : js "Hi!" <> []) by (vm_compute; discriminate).
  split.
  - refine (proj1 (proj2
      (@X21_typing_cycle
         (TypingEffect.constructed [] [js "Hi!"; js "Yo"] None None None)
         (js "Hi!") 1 _ _ _ N))); reflexivity.
  - refine (proj2 (proj2 (proj2
      (@X21_typing_cycle
         (TypingEffect.constructed [] [js "Hi!"; js "Yo"] None None None)
         (js "Hi!") 1 _ _ _ N)) _)); [reflexivity..|].
    vm_compute. lia.
Defined.

Section TypingSafety.

Import TypingEffect.

Local Open Scope Z_scope.

(** One call on an empty text, while typing. *)
Lemma type_empty (e : TypingEffect) (c : nat) :
  nth_error (texts e) (currentTextIndex e) = Some [] ->
  isDeleting e = false -> currentCharIndex e = Z.of_nat c ->
  type e = Some (showing e (currentTextIndex e) (S c) false (typeSpeed e)).
Proof.
  intros Ht Hd Hc. unfold type, showing.
  rewrite Ht, Hd, Hc, (nth_of_nth_error _ _ Ht). cbn [negb andb List.length].
  destruct (Z.eqb_spec (Z.of_nat c + 1) (Z.of_nat 0)); [lia|].
  unfold substring. rewrite !firstn_nil.
  replace (Z.of_nat c + 1) with (Z.of_nat (S c)) by lia. reflexivity.
Qed.

Lemma type_steady (e : TypingEffect) :
  steady e ->
  exists e', type e = Some e' /\ texts e' = texts e /\ steady e'.
Proof.
  intros (Hi & Hc & Hd). unfold type.
  destruct (nth_error (texts e) (currentTextIndex e)) as [t|] eqn:Ht;
    [|apply nth_error_None in Ht; lia].
  destruct (isDeleting e) eqn:D; cbn [negb andb].
  - specialize (Hd eq_refl).
    destruct (Z.eqb_spec (currentCharIndex e - 1) 0) as [E|E];
      eexists; (split; [reflexivity|]); (split; [reflexivity|]);
      unfold steady; cbn [texts currentTextIndex currentCharIndex
                            isDeleting].
    + split; [|split; [lia|discriminate]].
      apply Nat.mod_upper_bound. lia.
    + split; [exact Hi|split; lia].
  - destruct (Z.eqb_spec (currentCharIndex e + 1)
                (Z.of_nat (List.length t)));
      eexists; (split; [reflexivity|]); (split; [reflexivity|]);
      unfold steady; cbn [texts currentTextIndex currentCharIndex
                            isDeleting].
    + split; [exact Hi|split; lia].
    + split; [exact Hi|split; [lia|discriminate]].
Qed.

Lemma run_steady (n : nat) :
  forall e, steady e ->
    exists e', run n e = Some e' /\ texts e' = texts e /\ steady e'.
Proof.
  induction n as [|n IH]; intros e H; cbn [run].
  - now exists e.
  - destruct (type_steady H) as (e1 & -> & T1 & S1).
    destruct (IH e1 S1) as (e2 & R & T2 & S2).
    exists e2. rewrite R, T2, T1. auto.
Qed.

End TypingSafety.

(** X22: an empty text stops the effect.  When the current text is the
    empty string, no call of [type] starts deleting or moves to the next
    text: after any number of calls the effect is still typing the same
    text, with an empty element. *)
Theorem X22_empty_text_stalls (e : TypingEffect.TypingEffect) (k : nat) :
  nth_error (TypingEffect.texts e) (TypingEffect.currentTextIndex e)
  = Some [] ->
  TypingEffect.isDeleting e = false ->
  TypingEffect.currentCharIndex e = 0%Z ->
  TypingEffect.run (S k) e
  = Some (TypingEffect.showing e (TypingEffect.currentTextIndex e) (S k)
            false (TypingEffect.typeSpeed e)).
Proof.
  intros Ht Hd Hc.
  enough (G : forall k e c,
             nth_error (TypingEffect.texts e)
               (TypingEffect.currentTextIndex e) = Some [] ->
             TypingEffect.isDeleting e = false ->
             TypingEffect.currentCharIndex e = Z.of_nat c ->
             TypingEffect.run (S k) e
             = Some (TypingEffect.showing e
                       (TypingEffect.currentTextIndex e) (c + S k)
                       false (TypingEffect.typeSpeed e)))
    by (apply (G k e 0%nat Ht Hd Hc)).
  clear. intros k. induction k as [|k IH]; intros e c Ht Hd Hc.
  - cbn [TypingEffect.run]. rewrite (@type_empty e c Ht Hd Hc).
    now rewrite Nat.add_1_r.
  - change (TypingEffect.run (S (S k)) e)
      with (match TypingEffect.type e with
            | Some e' => TypingEffect.run (S k) e'
            | None => None
            end).
    rewrite (@type_empty e c Ht Hd Hc).
    rewrite (IH (TypingEffect.showing e (TypingEffect.currentTextIndex e)
                   (S c) false (TypingEffect.typeSpeed e)) (S c));
      [|exact Ht|reflexivity|reflexivity].
    unfold TypingEffect.showing at 1.
    cbn [TypingEffect.texts TypingEffect.currentTextIndex
         TypingEffect.typeSpeed TypingEffect.deleteSpeed
         TypingEffect.pauseDuration].
    replace (S c + S k)%nat with (c + S (S k))%nat by lia. reflexivity.
Qed.

Lemma X22_empty_text_stalls_witness :
  TypingEffect.currentTextIndex
    (TypingEffect.constructed [] [[]; js "Yo"] None None None) = 0
  /\ TypingEffect.run 9
       (TypingEffect.constructed [] [[]; js "Yo"] None None None)
     = Some (TypingEffect.showing
               (TypingEffect.constructed [] [[]; js "Yo"] None None None)
               0 9 false 100%Z).
Proof.
  split; [reflexivity|].
  refine (@X22_empty_text_stalls
            (TypingEffect.constructed [] [[]; js "Yo"] None None None)
            8 _ _ _); reflexivity.
Defined.

(** X23: [type] never throws when there is a text.  An effect built on
    a list of texts that is not empty can run for ever: every call finds
    a text at the current index, which stays within the list, and the
    number of code units shown is never negative. *)
Theorem X23_type_never_throws (element : jsstring) (ts : list jsstring)
  (optTypeSpeed optDeleteSpeed optPauseDuration : option Z) (n : nat) :
  ts <> [] ->
  exists e',
    TypingEffect.run n
      (TypingEffect.constructed element ts optTypeSpeed optDeleteSpeed
         optPauseDuration)
    = Some e'
    /\ TypingEffect.texts e' = ts
    /\ TypingEffect.currentTextIndex e' < List.length ts
    /\ (0 <= TypingEffect.currentCharIndex e')%Z.
Proof.
  intros Hn.
  destruct (@run_steady n
              (TypingEffect.constructed element ts optTypeSpeed
                 optDeleteSpeed optPauseDuration))
    as (e' & R & T & (Hi & Hc & _)).
  - unfold TypingEffect.steady. cbn. split; [|split; [lia|discriminate]].
    destruct ts; [congruence|cbn; lia].
  - exists e'. cbn in T. rewrite T in Hi. auto.
Qed.

Lemma X23_type_never_throws_witness :
  exists e',
    TypingEffect.run 40
      (TypingEffect.constructed [] [js "Hi!"; js "Yo"] (Some 0%Z) None None)
    = Some e'
    /\ TypingEffect.texts e' = [js "Hi!"; js "Yo"]
    /\ TypingEffect.currentTextIndex e' < List.length [js "Hi!"; js "Yo"]
    /\ (0 <= TypingEffect.currentCharIndex e')%Z.
Proof.
  apply (@X23_type_never_throws [] [js "Hi!"; js "Yo"] (Some 0%Z) None None
           40).
  discriminate.
Defined.
